(** * ApiTestingG: test-case generation and execution engine

    A shallow embedding of the backend services
    ([utils/resolveUrl.js], [utils/cache.js], [services/runner.service.js],
    [services/nvidia.service.js]) and the properties of their specification.

    Conventions of the embedding:
    - JavaScript strings are sequences of UTF-16 code units, embedded as
      [list N]; literals are written [js "..."].  Case mapping is that of
      the ASCII letters, which is what every comparison in the program
      needs.
    - Dynamic values (request and response bodies, model output, probe
      results) are the tagged union [json]; [undefined] is [None] of an
      [option].  Numbers are integers ([Z]) or [NaN]: the program handles
      status codes, counters and lengths.
    - Code that may throw returns [Exc]; a [try]/[catch] is a [match] on it.
    - The generation service acts on a [World] (clock, cache, log of the
      calls to the target and to the model); the target and the model are
      functions chosen by the environment.
    - Console logging has no influence on any result and is left out. *)

From Stdlib Require Import ZArith NArith List String Ascii Lia Bool Decimal Sorted.
From stdpp Require Import gmap.
Import ListNotations.

Local Open Scope string_scope.
Local Open Scope list_scope.
Local Open Scope Z_scope.

(* ===================================================================== *)
(** ** JavaScript strings *)
(* ===================================================================== *)

Module JsString.

(** A JavaScript string: its UTF-16 code units. *)
Definition jsstr : Type := list N.

(** Literals are written as Rocq strings; [utf16] decodes their UTF-8 bytes
    into code units (a supplementary character becomes a surrogate pair). *)
Fixpoint utf16 (bs : list N) : jsstr :=
  match bs with
  | [] => []
  | b :: r =>
      if (b <? 0x80)%N then b :: utf16 r
      else if (b <? 0xE0)%N then
        match r with
        | b2 :: r' => ((b mod 32) * 64 + b2 mod 64)%N :: utf16 r'
        | [] => [b]
        end
      else if (b <? 0xF0)%N then
        match r with
        | b2 :: b3 :: r' =>
            ((b mod 16) * 4096 + (b2 mod 64) * 64 + b3 mod 64)%N :: utf16 r'
        | _ => [b]
        end
      else
        match r with
        | b2 :: b3 :: b4 :: r' =>
            let cp := ((b mod 8) * 262144 + (b2 mod 64) * 4096
                       + (b3 mod 64) * 64 + b4 mod 64 - 0x10000)%N in
            (0xD800 + cp / 1024)%N :: (0xDC00 + cp mod 1024)%N :: utf16 r'
        | _ => [b]
        end
  end.

Definition js (s : string) : jsstr :=
  utf16 (map N_of_ascii (list_ascii_of_string s)).

(** Text with double quotes is written with apostrophes in their place. *)
Definition doubleQuoted (s : jsstr) : jsstr :=
  map (fun c => if (c =? 39)%N then 34%N else c) s.

(** [a === b] on strings. *)
Fixpoint str_eqb (a b : jsstr) : bool :=
  match a, b with
  | [], [] => true
  | x :: a', y :: b' => (x =? y)%N && str_eqb a' b'
  | _, _ => false
  end.

(** [s.startsWith(p)]. *)
Fixpoint startsWith (s p : jsstr) {struct p} : bool :=
  match p, s with
  | [], _ => true
  | y :: p', x :: s' => (x =? y)%N && startsWith s' p'
  | _ :: _, [] => false
  end.

(** [s.includes(sub)]. *)
Fixpoint includes (s sub : jsstr) : bool :=
  startsWith s sub ||
  match s with
  | [] => false
  | _ :: s' => includes s' sub
  end.

(** Case mapping of the letters A-Z / a-z.  Code units outside ASCII are
    left as they are: every keyword the program compares against is ASCII. *)
Definition lowerUnit (c : N) : N :=
  if ((65 <=? c) && (c <=? 90))%N then (c + 32)%N else c.
Definition upperUnit (c : N) : N :=
  if ((97 <=? c) && (c <=? 122))%N then (c - 32)%N else c.
Definition toLowerCase (s : jsstr) : jsstr := map lowerUnit s.
Definition toUpperCase (s : jsstr) : jsstr := map upperUnit s.

(** [s.slice(0, n)]. *)
Definition slice0 (n : nat) (s : jsstr) : jsstr := firstn n s.

(** The white space of [String.prototype.trim] and of the regex class [\s]. *)
Definition isWhite (c : N) : bool :=
  ((9 <=? c) && (c <=? 13) || (c =? 32) || (c =? 0xA0) || (c =? 0x1680)
   || (0x2000 <=? c) && (c <=? 0x200A) || (c =? 0x2028) || (c =? 0x2029)
   || (c =? 0x202F) || (c =? 0x205F) || (c =? 0x3000) || (c =? 0xFEFF))%N.

Fixpoint trimStart (s : jsstr) : jsstr :=
  match s with
  | c :: r => if isWhite c then trimStart r else s
  | [] => []
  end.

(** Drops the trailing run of units satisfying [p]. *)
Fixpoint dropTrailing (p : N -> bool) (s : jsstr) : jsstr :=
  match s with
  | [] => []
  | c :: r =>
      match dropTrailing p r with
      | [] => if p c then [] else [c]
      | r' => c :: r'
      end
  end.

Definition trim (s : jsstr) : jsstr := dropTrailing isWhite (trimStart s).

(** Decimal rendering of a number, as [String(n)] gives for an integer. *)
Fixpoint unitsOfUint (d : Decimal.uint) : jsstr :=
  match d with
  | Decimal.Nil => []
  | Decimal.D0 r => 48%N :: unitsOfUint r
  | Decimal.D1 r => 49%N :: unitsOfUint r
  | Decimal.D2 r => 50%N :: unitsOfUint r
  | Decimal.D3 r => 51%N :: unitsOfUint r
  | Decimal.D4 r => 52%N :: unitsOfUint r
  | Decimal.D5 r => 53%N :: unitsOfUint r
  | Decimal.D6 r => 54%N :: unitsOfUint r
  | Decimal.D7 r => 55%N :: unitsOfUint r
  | Decimal.D8 r => 56%N :: unitsOfUint r
  | Decimal.D9 r => 57%N :: unitsOfUint r
  end.

Definition natToString (n : nat) : jsstr := unitsOfUint (Nat.to_uint n).

Definition numToString (z : Z) : jsstr :=
  match z with
  | Z0 => [48%N]
  | Zpos p => unitsOfUint (Pos.to_uint p)
  | Zneg p => 45%N :: unitsOfUint (Pos.to_uint p)
  end.

Definition isDigit (c : N) : bool := ((48 <=? c) && (c <=? 57))%N.

(** The value of the leading run of decimal digits, and what follows it. *)
Fixpoint readDigits (acc : Z) (s : jsstr) : Z * jsstr :=
  match s with
  | c :: r =>
      if isDigit c then readDigits (acc * 10 + (Z.of_N c - 48)) r else (acc, s)
  | [] => (acc, [])
  end.

(** [s.padStart(width, "0")]. *)
Definition padStart0 (width : nat) (s : jsstr) : jsstr :=
  repeat 48%N (width - length s) ++ s.

(** [parts.join(sep)]. *)
Fixpoint join (sep : jsstr) (parts : list jsstr) : jsstr :=
  match parts with
  | [] => []
  | [p] => p
  | p :: rest => p ++ sep ++ join sep rest
  end.


End JsString.
Export JsString.

(* ===================================================================== *)
(** ** Dynamic values and exceptions *)
(* ===================================================================== *)

#[local] Set Warnings "-register-all".

(** A JSON-shaped JavaScript value.  An object keeps its keys in insertion
    order, as [Object.keys] and [JSON.stringify] observe them (keys that
    look like array indices are not moved to the front).  [JNaN] is the
    number [parseInt] gives for what is not a number. *)
Inductive json : Type :=
| JNull
| JBool (b : bool)
| JNum (n : Z)
| JNaN
| JStr (s : jsstr)
| JArr (items : list json)
| JObj (fields : list (jsstr * json)).

(** The outcome of code that may throw: a value, or the thrown message. *)
Inductive Exc (A : Type) : Type :=
| Ok (a : A)
| Throw (message : jsstr).
Arguments Ok {A} a.
Arguments Throw {A} message.

(** Truthiness, as [if (v)], [v || d] and [!v] test it. *)
Definition truthy (v : json) : bool :=
  match v with
  | JNull | JNaN => false
  | JBool b => b
  | JNum n => negb (n =? 0)
  | JStr s => negb (str_eqb s [])
  | JArr _ | JObj _ => true
  end.

Definition truthyU (v : option json) : bool :=
  match v with Some x => truthy x | None => false end.

(** [s || d] on an optional string. *)
Definition strOr (s : option jsstr) (d : jsstr) : jsstr :=
  match s with
  | Some ((_ :: _) as x) => x
  | _ => d
  end.

(** [String(v)]. *)
Fixpoint js_String (v : json) : jsstr :=
  let elem (x : json) : jsstr :=
    match x with JNull => [] | _ => js_String x end in
  match v with
  | JNull => js "null"
  | JBool true => js "true"
  | JBool false => js "false"
  | JNum n => numToString n
  | JNaN => js "NaN"
  | JStr s => s
  | JArr items => join (js ",") (map elem items)
  | JObj _ => js "[object Object]"
  end.

(** Own-property lookup [o[k]]; a later assignment to a key replaces the
    value in place and a new key is appended last. *)
Fixpoint lookupField (k : jsstr) (fields : list (jsstr * json)) : option json :=
  match fields with
  | [] => None
  | (k', v) :: rest => if str_eqb k' k then Some v else lookupField k rest
  end.

Fixpoint setField (k : jsstr) (v : json) (fields : list (jsstr * json))
  : list (jsstr * json) :=
  match fields with
  | [] => [(k, v)]
  | (k', v') :: rest =>
      if str_eqb k' k then (k', v) :: rest else (k', v') :: setField k v rest
  end.

(** [Object.assign({}, a, b)]. *)
Definition assign (a b : list (jsstr * json)) : list (jsstr * json) :=
  fold_left (fun acc kv => setField (fst kv) (snd kv) acc) b
    (fold_left (fun acc kv => setField (fst kv) (snd kv) acc) a []).

(** [parseInt(v, 10)]: the integer that starts [String(v)] after optional
    white space and sign, or [NaN]. *)
Definition parseInt10 (v : json) : json :=
  let s := trimStart (js_String v) in
  let '(negative, digits) :=
    match s with
    | c :: r =>
        if (c =? 45)%N then (true, r)
        else if (c =? 43)%N then (false, r)
        else (false, s)
    | [] => (false, [])
    end in
  match digits with
  | d :: _ =>
      if isDigit d
      then let n := fst (readDigits 0 digits) in JNum (if negative then - n else n)
      else JNaN
  | [] => JNaN
  end.

(** [Number.isFinite(v)], with the number. *)
Definition finiteNumber (v : option json) : option Z :=
  match v with
  | Some (JNum n) => Some n
  | _ => None
  end.

(** [a || b] and [a ?? b] on possibly undefined values. *)
Definition orElse (a : option json) (b : json) : json :=
  match a with
  | Some x => if truthy x then x else b
  | None => b
  end.

Definition nullish (a : option json) (b : json) : json :=
  match a with
  | Some JNull | None => b
  | Some x => x
  end.

(** The indices of an array (or of a string) as keys. *)
Fixpoint indexed {A : Type} (from : nat) (items : list A) : list (jsstr * A) :=
  match items with
  | [] => []
  | x :: r => (natToString from, x) :: indexed (S from) r
  end.

(** The own enumerable properties [Object.assign] copies from a value. *)
Definition ownEntries (v : json) : list (jsstr * json) :=
  match v with
  | JObj fields => fields
  | JArr items => indexed 0 items
  | JStr s => indexed 0 (map (fun c => JStr [c]) s)
  | _ => []
  end.

(** Reading [v.k] ([getProp]) throws on [null]; every other value that is
    not an object has none of the named properties read here.  [v?.k]
    ([getOpt]) gives [undefined] on [null] and [undefined]. *)
Definition getProp (v : json) (k : jsstr) : Exc (option json) :=
  match v with
  | JNull => Throw (js "TypeError: Cannot read properties of null")
  | JObj fields => Ok (lookupField k fields)
  | _ => Ok None
  end.

Definition getOpt (v : option json) (k : jsstr) : option json :=
  match v with
  | Some (JObj fields) => lookupField k fields
  | _ => None
  end.

(** The assignment [target.k = x] in strict code: it throws when [target]
    is [undefined], [null] or a primitive.  An array that receives a named
    property is kept as the object of its indices and that property (its
    length is never read afterwards). *)
Definition assignProp (target : option json) (k : jsstr) (x : json) : Exc json :=
  match target with
  | Some (JObj fields) => Ok (JObj (setField k x fields))
  | Some (JArr items) => Ok (JObj (setField k x (indexed 0 items)))
  | _ => Throw (js "TypeError: Cannot set properties")
  end.

(** [(v).toLowerCase()] and [(v).toUpperCase()] exist on strings only. *)
Definition lowerOf (v : json) : Exc jsstr :=
  match v with
  | JStr s => Ok (toLowerCase s)
  | _ => Throw (js "TypeError: toLowerCase is not a function")
  end.

Definition upperOf (v : json) : Exc jsstr :=
  match v with
  | JStr s => Ok (toUpperCase s)
  | _ => Throw (js "TypeError: toUpperCase is not a function")
  end.

Definition bindE {A C : Type} (e : Exc A) (k : A -> Exc C) : Exc C :=
  match e with
  | Ok a => k a
  | Throw message => Throw message
  end.

Notation "x <- e ;; k" := (bindE e (fun x => k))
  (at level 100, e at next level, right associativity).

(** [items.map(f)] where [f] may throw: the first exception ends the loop. *)
Fixpoint mapE {A C : Type} (f : A -> Exc C) (items : list A) : Exc (list C) :=
  match items with
  | [] => Ok []
  | x :: r => y <- f x ;; ys <- mapE f r ;; Ok (y :: ys)
  end.

(** The JavaScript built-ins and libraries the services call but do not
    define: [JSON.parse] ([None] when it throws), [JSON.stringify], and
    Ajv.  The runner compiles every schema on the one Ajv instance that is
    created when its module is loaded.  [Ajv] is what such an instance
    remembers from the schemas it has compiled (their [$id]s among other
    things), and [ajv_compile] is [ajv.compile(schema)] on an instance in a
    given state: it throws or yields a validator returning the validation
    errors ([None] when the data is valid), and it leaves the instance in a
    new state.  Every test case brings a schema object of its own, as when
    the suite arrives as JSON. *)
Class Builtins : Type := {
  JSON_parse : jsstr -> option json;
  JSON_stringify : json -> jsstr;
  Ajv : Type;
  ajv_compile : Ajv -> json -> Exc (json -> option json) * Ajv
}.

(* ===================================================================== *)
(** ** utils/resolveUrl.js *)
(* ===================================================================== *)

Module ResolveUrl.

Definition slash : N := 47%N.
Definition isSlash (c : N) : bool := (c =? slash)%N.

(** [/^https?:\/\//i.test(endpoint)]. *)
Definition isAbsoluteHttp (endpoint : jsstr) : bool :=
  let l := toLowerCase endpoint in
  startsWith l (js "http://") || startsWith l (js "https://").

Definition joinUrl (base path : jsstr) : jsstr :=
  let b := dropTrailing isSlash base in
  let p := if startsWith path (js "/") then path else js "/" ++ path in
  b ++ p.

Definition resolveTestUrl (endpoint : jsstr) (targetUrl : option jsstr) : Exc jsstr :=
  if isAbsoluteHttp endpoint then Ok endpoint
  else
    match targetUrl with
    | None | Some [] =>
        Throw (js "Missing targetUrl for relative endpoint: " ++ endpoint)
    | Some base => Ok (joinUrl base endpoint)
    end.

(** Drops the leading run of units satisfying [p]. *)
Fixpoint dropLeading (p : N -> bool) (s : jsstr) : jsstr :=
  match s with
  | c :: r => if p c then dropLeading p r else s
  | [] => []
  end.

(** The join as the specification words it: the endpoint carries exactly
    one leading slash after the stripped base. *)
Definition joinUrl_exactly_one_slash (base path : jsstr) : jsstr :=
  dropTrailing isSlash base ++ js "/" ++ dropLeading isSlash path.

End ResolveUrl.
Export ResolveUrl.

(* ===================================================================== *)
(** ** services/runner.service.js: data *)
(* ===================================================================== *)

(** A test case as the runner receives it.  The expected status is a
    number or a list of numbers ([runTestsSchema] admits integers only, on
    which [parseInt(s, 10)] is the identity), or is absent or [null]. *)
Record Request : Type := {
  req_method : option jsstr;
  req_endpoint : jsstr;
  req_headers : option (list (jsstr * json));
  req_body : option json
}.

Inductive ExpectedStatus : Type :=
| StatusAbsent
| StatusNull
| StatusOne (s : Z)
| StatusMany (ss : list Z).

Record ExpectedResponse : Type := {
  exp_status : ExpectedStatus;
  exp_schema : option json
}.

Record TestCase : Type := {
  tc_id : jsstr;
  tc_category : jsstr;
  tc_description : option jsstr;
  tc_request : Request;
  tc_expected_response : option ExpectedResponse
}.

(** The request handed to [axios.request].  Both services accept every
    status code ([validateStatus] is [() => true] or [null]), so a response
    never becomes an exception because of its status. *)
Record AxiosConfig : Type := {
  cfg_method : jsstr;
  cfg_url : jsstr;
  cfg_headers : list (jsstr * json);
  cfg_data : option json;
  cfg_timeout : Z;
  cfg_maxRedirects : Z
}.

Record HttpResponse : Type := {
  resp_status : Z;
  resp_statusText : jsstr;
  resp_data : json;
  resp_headers : list (jsstr * json)
}.

(** What awaiting [axios.request] gives: a response, or a rejection with
    the [name], the [code] and the [message] of the error (timeout, refused
    connection, unknown host). *)
Inductive Transport : Type :=
| Responded (response : HttpResponse)
| Rejected (name : jsstr) (code : option jsstr) (message : jsstr).

Record Actual : Type := {
  act_status : Z;
  act_statusText : jsstr;
  act_data : json;
  act_headers : list (jsstr * json)
}.

Record Diagnostics : Type := {
  diag_resolvedUrl : jsstr;
  diag_requestHeaders : list (jsstr * json);
  diag_requestBody : option json;
  diag_curl : jsstr
}.

Record RunResult : Type := {
  rr_id : jsstr;
  rr_category : jsstr;
  rr_description : option jsstr;
  rr_status : jsstr;
  rr_error : option jsstr;
  rr_duration : jsstr;
  rr_actual : option Actual;
  rr_expected : list Z;
  rr_hint : option jsstr;
  rr_schemaValidation : option json;
  rr_diagnostics : option Diagnostics
}.

Record Suggestion : Type := {
  sg_id : jsstr;
  sg_description : option jsstr;
  sg_currentExpected : list Z;
  sg_observed : Z;
  sg_recommendedExpected : list Z;
  sg_hint : option jsstr;
  sg_curl : option jsstr
}.

Record Summary : Type := {
  sum_total : nat;
  sum_passed : nat;
  sum_failed : nat;
  sum_errors : nat;
  sum_target : option jsstr
}.

Record RunOptions : Type := {
  opt_writeSuggestions : option bool;
  opt_suggestionsFile : option jsstr
}.

(** The value [runTestSuite] resolves to, with the file it wrote (if any):
    the path and the suggestions serialised into it. *)
Record RunOutput : Type := {
  out_results : list RunResult;
  out_summary : Summary;
  out_suggestions : list Suggestion;
  out_written : option (jsstr * list Suggestion)
}.

Definition PASSED : jsstr := js "PASSED ✅".
Definition FAILED : jsstr := js "FAILED ❌".
Definition ERROR : jsstr := js "ERROR ❌".

(* ===================================================================== *)
(** ** services/runner.service.js: helpers *)
(* ===================================================================== *)

Section RunnerHelpers.
Context {B : Builtins}.

(** [!k] for the key [find] returned. *)
Definition noKey (k : option jsstr) : bool :=
  match k with
  | Some (_ :: _) => false
  | _ => true
  end.

Definition findHeaderKey (headers : list (jsstr * json)) (name : jsstr)
  : option jsstr :=
  let low := toLowerCase name in
  find (fun k => str_eqb (toLowerCase k) low) (map fst headers).

(** [if (!findHeaderKey(headers, name)) headers[name] = value]. *)
Definition defaultHeader (headers : list (jsstr * json)) (name value : jsstr)
  : list (jsstr * json) :=
  if noKey (findHeaderKey headers name)
  then setField name (JStr value) headers
  else headers.

Definition normalizeExpectedStatuses (expected : ExpectedStatus) : list Z :=
  match expected with
  | StatusMany ss => ss
  | StatusAbsent | StatusNull => [200]
  | StatusOne s => [s]
  end.

(** [test.expected_response?.status]. *)
Definition expectedStatusOf (test : TestCase) : ExpectedStatus :=
  match tc_expected_response test with
  | Some e => exp_status e
  | None => StatusAbsent
  end.

Definition buildCurl (method url : jsstr) (headers : list (jsstr * json))
    (body : option json) : jsstr :=
  let headerParts :=
    map (fun kv => js "-H "
                   ++ JSON_stringify (JStr (fst kv ++ js ": " ++ js_String (snd kv))))
        headers in
  let dataPart :=
    match body with
    | None | Some JNull => []
    | Some b =>
        let payload :=
          match b with
          | JObj _ | JArr _ => JSON_stringify b
          | _ => js_String b
          end in
        js "--data " ++ JSON_stringify (JStr payload)
    end in
  join (js " ")
    (List.filter (fun part => negb (str_eqb part []))
       ([js "curl -i"; js "-X " ++ method] ++ headerParts
        ++ [dataPart; JSON_stringify (JStr url)])).

(** [expectedArr.includes(observed)]. *)
Definition includesStatus (expected : list Z) (observed : Z) : bool :=
  existsb (Z.eqb observed) expected.

(** [Array.from(new Set(xs))]: first occurrences, in order. *)
Fixpoint uniq (seen xs : list Z) : list Z :=
  match xs with
  | [] => []
  | x :: r =>
      if existsb (Z.eqb x) seen then uniq seen r else x :: uniq (x :: seen) r
  end.

(** [xs.sort((a, b) => a - b)]. *)
Fixpoint insertAsc (x : Z) (sorted : list Z) : list Z :=
  match sorted with
  | [] => [x]
  | y :: r => if x <=? y then x :: y :: r else y :: insertAsc x r
  end.

Definition sortAsc (xs : list Z) : list Z := fold_right insertAsc [] xs.

Definition recommended (expectedArr : list Z) (observed : Z) : list Z :=
  sortAsc (uniq [] (expectedArr ++ [observed])).

(** [s || null] on an optional string. *)
Definition orNull (s : option jsstr) : option jsstr :=
  match s with
  | Some (_ :: _) => s
  | _ => None
  end.

Definition suggestExpectedStatusUpdates (results : list RunResult)
  : list Suggestion :=
  flat_map
    (fun r =>
       match rr_actual r with
       | None => []
       | Some actual =>
           let observed := act_status actual in
           let expectedArr := rr_expected r in
           if negb (includesStatus expectedArr observed) then
             [ {| sg_id := rr_id r;
                  sg_description := orNull (rr_description r);
                  sg_currentExpected := expectedArr;
                  sg_observed := observed;
                  sg_recommendedExpected := recommended expectedArr observed;
                  sg_hint := orNull (rr_hint r);
                  sg_curl := match rr_diagnostics r with
                             | Some d => orNull (Some (diag_curl d))
                             | None => None
                             end |} ]
           else []
       end)
    results.

End RunnerHelpers.

(* ===================================================================== *)
(** ** services/runner.service.js: single test execution *)
(* ===================================================================== *)

Section ExecuteSingleTest.
Context {B : Builtins}.

(** The target system: every request is answered by a response or by a
    transport failure. *)
Variable target : AxiosConfig -> Transport.

(** The payload and the headers after the body has been looked at. *)
Definition prepareBody (method : jsstr) (payload : option json)
    (headers : list (jsstr * json)) : option json * list (jsstr * json) :=
  if str_eqb method (js "GET") || str_eqb method (js "HEAD") then (None, headers)
  else
    match payload with
    | None | Some JNull => (None, headers)
    | Some (JObj _ as o) | Some (JArr _ as o) =>
        (Some o, defaultHeader headers (js "Content-Type") (js "application/json"))
    | Some (JStr text) =>
        match JSON_parse text with
        | Some parsed =>
            (Some parsed,
             defaultHeader headers (js "Content-Type") (js "application/json"))
        | None =>
            (Some (JStr text),
             defaultHeader headers (js "Content-Type") (js "text/plain"))
        end
    | Some other =>
        (Some other,
         defaultHeader headers (js "Content-Type") (js "application/json"))
    end.

Definition possibleKeys : list jsstr :=
  [js "error"; js "errors"; js "message"; js "detail"; js "validation"].

Definition bodyValidationHint (data : json) : option jsstr :=
  match data with
  | JObj fields =>
      let found :=
        List.filter
          (fun k => match lookupField k fields with Some _ => true | None => false end)
          possibleKeys in
      match found with
      | [] => None
      | _ => Some (js "Response contains keys: " ++ join (js ", ") found)
      end
  | JStr text =>
      if (length text <? 2000)%nat then
        if includes (toLowerCase text) (js "forbidden")
           || includes (toLowerCase text) (js "access denied")
        then Some (js "Response body contains 'forbidden'/'access denied' — possible WAF/proxy block")
        else None
      else None
  | _ => None
  end.

(** [schemaValidation = { ok, errors }] after the optional Ajv check, and
    the state the check leaves the shared Ajv instance in. *)
Definition checkSchema (test : TestCase) (data : json) (ajv : Ajv)
  : (bool * option json) * Ajv :=
  match tc_expected_response test with
  | Some e =>
      match exp_schema e with
      | Some schema =>
          if truthy schema then
            match ajv_compile ajv schema with
            | (Ok validate, ajv') =>
                match validate data with
                | None => ((true, None), ajv')
                | Some errors => ((false, Some errors), ajv')
                end
            | (Throw message, ajv') =>
                ((false,
                  Some (JArr [JObj [(js "message",
                                     JStr (js "Schema compile error: " ++ message))]])),
                 ajv')
            end
          else ((true, None), ajv)
      | None => ((true, None), ajv)
      end
  | None => ((true, None), ajv)
  end.

Definition truncateData (data : json) : json :=
  match data with
  | JStr text =>
      if (64 * 1024 <? length text)%nat
      then JStr (slice0 (64 * 1024) text ++ [10%N] ++ js "...TRUNCATED...")
      else data
  | _ => data
  end.

(** The request [executeSingleTest] sends for [test] once its URL is
    resolved: upper-cased method, headers with their defaults, payload. *)
Definition requestFor (test : TestCase) (fullUrl : jsstr) : AxiosConfig :=
  let method := toUpperCase (strOr (req_method (tc_request test)) (js "GET")) in
  let headers0 :=
    match req_headers (tc_request test) with Some h => assign h [] | None => [] end in
  let headers1 :=
    defaultHeader headers0 (js "User-Agent")
      (js "Mozilla/5.0 (compatible; API-Tester/1.0)") in
  let '(dataToSend, headers) :=
    prepareBody method (req_body (tc_request test)) headers1 in
  {| cfg_method := method; cfg_url := fullUrl; cfg_headers := headers;
     cfg_data := dataToSend; cfg_timeout := 10000; cfg_maxRedirects := 5 |}.

(** [elapsed] is the reading [Date.now() - startTime] takes, [ajv] the
    state of the shared Ajv instance when the answer arrives; the result
    comes with the state the instance is left in. *)
Definition executeSingleTest (test : TestCase) (baseUrl : option jsstr)
    (elapsed : nat) (ajv : Ajv) : RunResult * Ajv :=
  match resolveTestUrl (req_endpoint (tc_request test)) baseUrl with
  | Throw message =>
     ({| rr_id := tc_id test;
         rr_category := tc_category test;
         rr_description := tc_description test;
         rr_status := ERROR;
         rr_error := Some (js "URL Resolution Error: " ++ message);
         rr_duration := natToString elapsed ++ js "ms";
         rr_actual := None;
         rr_expected := normalizeExpectedStatuses (expectedStatusOf test);
         rr_hint := None;
         rr_schemaValidation := None;
         rr_diagnostics := None |}, ajv)
  | Ok fullUrl =>
      let expectedStatuses := normalizeExpectedStatuses (expectedStatusOf test) in
      let cfg := requestFor test fullUrl in
      let method := cfg_method cfg in
      let headers := cfg_headers cfg in
      let dataToSend := cfg_data cfg in
      match target cfg with
      | Responded response =>
          let actualStatus := resp_status response in
          let passedStatus := includesStatus expectedStatuses actualStatus in
          let hint := bodyValidationHint (resp_data response) in
          let '((schemaOk, schemaErrors), ajv') :=
            checkSchema test (resp_data response) ajv in
          let passed := passedStatus && schemaOk in
          let responseData := truncateData (resp_data response) in
          let curl := buildCurl method fullUrl headers dataToSend in
         ({| rr_id := tc_id test;
             rr_category := tc_category test;
             rr_description := tc_description test;
             rr_status := if passed then PASSED else FAILED;
             rr_error := None;
             rr_duration := natToString elapsed ++ js "ms";
             rr_actual :=
               Some {| act_status := actualStatus;
                       act_statusText := resp_statusText response;
                       act_data := responseData;
                       act_headers := resp_headers response |};
             rr_expected := expectedStatuses;
             rr_hint := hint;
             rr_schemaValidation := if schemaOk then None else schemaErrors;
             rr_diagnostics :=
               Some {| diag_resolvedUrl := fullUrl;
                       diag_requestHeaders := headers;
                       diag_requestBody := dataToSend;
                       diag_curl := curl |} |}, ajv')
      | Rejected _ code message =>
          let errorMsg :=
            match code with
            | Some c =>
                if str_eqb c (js "ECONNREFUSED") then js "Connection Refused (server down?)"
                else if str_eqb c (js "ENOTFOUND") then js "Invalid Host/URL"
                else message
            | None => message
            end in
         ({| rr_id := tc_id test;
             rr_category := tc_category test;
             rr_description := tc_description test;
             rr_status := ERROR;
             rr_error := Some errorMsg;
             rr_duration := natToString elapsed ++ js "ms";
             rr_actual := None;
             rr_expected := normalizeExpectedStatuses (expectedStatusOf test);
             rr_hint := None;
             rr_schemaValidation := None;
             rr_diagnostics :=
               Some {| diag_resolvedUrl := fullUrl;
                       diag_requestHeaders := headers;
                       diag_requestBody := dataToSend;
                       diag_curl := buildCurl method fullUrl headers dataToSend |} |},
          ajv)
      end
  end.

End ExecuteSingleTest.

(* ===================================================================== *)
(** ** services/runner.service.js: the public runner *)
(* ===================================================================== *)

(** [runTestSuite] hands every test case to a [p-limit] pool and awaits
    [Promise.all].  The pool keeps a FIFO queue of the tasks not yet started
    and starts one only while fewer than [concurrency] are active; a task
    that settles writes its result into the slot of its own index, which is
    how [Promise.all] assembles its array.  Which task settles next, and
    when, is the scheduler's choice: a run is driven by a list of events.
    A task that settles has received its answer and goes on to check it,
    compiling its schema on the shared Ajv instance: the instance passes
    from one settling task to the next. *)
Inductive PoolEvent : Type :=
| Launch (dt : nat)              (* the head of the queue starts *)
| Settle (index : nat) (dt : nat) (* the active task [index] settles *).

Section RunTestSuite.
Context {B : Builtins}.

Record Pool : Type := {
  pool_queue : list nat;
  pool_active : list (nat * nat);   (* index, clock at start *)
  pool_slots : list (option RunResult);
  pool_clock : nat;
  pool_ajv : Ajv
}.

Variable target : AxiosConfig -> Transport.

Definition startedAt (index : nat) (active : list (nat * nat)) : option nat :=
  option_map snd (find (fun a => Nat.eqb (fst a) index) active).

Definition poolStep (testCases : list TestCase) (targetUrl : option jsstr)
    (concurrency : nat) (st : Pool) (ev : PoolEvent) : option Pool :=
  match ev with
  | Launch dt =>
      match pool_queue st with
      | index :: queue =>
          if (length (pool_active st) <? concurrency)%nat then
            Some {| pool_queue := queue;
                    pool_active := pool_active st ++ [(index, (pool_clock st + dt)%nat)];
                    pool_slots := pool_slots st;
                    pool_clock := (pool_clock st + dt)%nat;
                    pool_ajv := pool_ajv st |}
          else None
      | [] => None
      end
  | Settle index dt =>
      match startedAt index (pool_active st), testCases !! index with
      | Some started, Some tc =>
          let now := (pool_clock st + dt)%nat in
          let '(result, ajv') :=
            executeSingleTest target tc targetUrl (now - started)%nat (pool_ajv st) in
          Some {| pool_queue := pool_queue st;
                  pool_active :=
                    List.filter (fun a => negb (Nat.eqb (fst a) index)) (pool_active st);
                  pool_slots := <[index := Some result]> (pool_slots st);
                  pool_clock := now;
                  pool_ajv := ajv' |}
      | _, _ => None
      end
  end.

Fixpoint poolRun (testCases : list TestCase) (targetUrl : option jsstr)
    (concurrency : nat) (st : Pool) (events : list PoolEvent) : option Pool :=
  match events with
  | [] => Some st
  | ev :: rest =>
      match poolStep testCases targetUrl concurrency st ev with
      | Some st' => poolRun testCases targetUrl concurrency st' rest
      | None => None
      end
  end.

Definition poolInit (n : nat) (ajv : Ajv) : Pool :=
  {| pool_queue := seq 0 n; pool_active := [];
     pool_slots := replicate n None; pool_clock := 0%nat; pool_ajv := ajv |}.

(** [Promise.all]: the array of results once every slot is filled. *)
Definition allSettled (st : Pool) : option (list RunResult) :=
  mapM (fun slot : option RunResult => slot) (pool_slots st).

(** [r.status && r.status.includes(word)]. *)
Definition hasWord (word : jsstr) (r : RunResult) : bool :=
  negb (str_eqb (rr_status r) []) && includes (rr_status r) word.

Definition countStatus (word : jsstr) (results : list RunResult) : nat :=
  length (List.filter (hasWord word) results).

Definition summarize (results : list RunResult) (targetUrl : option jsstr)
  : Summary :=
  {| sum_total := length results;
     sum_passed := countStatus (js "PASSED") results;
     sum_failed := countStatus (js "FAILED") results;
     sum_errors := countStatus (js "ERROR") results;
     sum_target := orNull targetUrl |}.

Definition defaultOptions : RunOptions :=
  {| opt_writeSuggestions := None; opt_suggestionsFile := None |}.

(** What [runTestSuite] does once [Promise.all] has resolved. *)
Definition report (results : list RunResult) (targetUrl : option jsstr)
    (opts : RunOptions) : RunOutput :=
  let summary := summarize results targetUrl in
  let suggestions := suggestExpectedStatusUpdates results in
  let written :=
    match suggestions, opt_writeSuggestions opts with
    | [], _ | _, Some false => None
    | _, _ =>
        Some (strOr (opt_suggestionsFile opts) (js "expected-suggestions.json"),
              suggestions)
    end in
  {| out_results := results; out_summary := summary;
     out_suggestions := suggestions; out_written := written |}.

(** [runTestSuite(testCases, targetUrl, concurrency, opts)] under the
    schedule [events], with the shared Ajv instance in the state [ajv] when
    the run begins.  [pLimit] throws unless the concurrency is a positive
    integer; the result is [None] when [events] is not a complete run of
    the pool (an event that cannot happen, or a task left unsettled). *)
Definition runTestSuite (testCases : list TestCase) (targetUrl : option jsstr)
    (concurrency : option Z) (opts : RunOptions) (ajv : Ajv)
    (events : list PoolEvent)
  : option (Exc RunOutput) :=
  let c := match concurrency with Some c => c | None => 5 end in
  if c <=? 0 then
    Some (Throw (js "Expected `concurrency` to be a number from 1 and up"))
  else
    match poolRun testCases targetUrl (Z.to_nat c)
            (poolInit (length testCases) ajv) events with
    | Some st =>
        match allSettled st with
        | Some results => Some (Ok (report results targetUrl opts))
        | None => None
        end
    | None => None
    end.

(** The schedule that runs the tasks one after the other. *)
Definition sequentialSchedule (n : nat) : list PoolEvent :=
  flat_map (fun i => [Launch 0; Settle i 1]) (seq 0 n).

(** The results of the test cases executed one after the other, each
    answer taking [elapsed] ms, and the state the shared instance is left
    in. *)
Fixpoint runInOrder (testCases : list TestCase) (targetUrl : option jsstr)
    (elapsed : nat) (ajv : Ajv) : list RunResult * Ajv :=
  match testCases with
  | [] => ([], ajv)
  | tc :: rest =>
      let '(r, ajv1) := executeSingleTest target tc targetUrl elapsed ajv in
      let '(rs, ajv2) := runInOrder rest targetUrl elapsed ajv1 in
      (r :: rs, ajv2)
  end.

(** The schedule that starts up to [c] tasks at once and settles each
    batch in reverse order of start. *)
Fixpoint batches (fuel : nat) (c : nat) (from n : nat) : list PoolEvent :=
  match fuel with
  | O => []
  | S fuel' =>
      let k := Nat.min c n in
      match k with
      | O => []
      | _ =>
          repeat (Launch 1) k
          ++ map (fun i => Settle i 2) (rev (seq from k))
          ++ batches fuel' c (from + k)%nat (n - k)%nat
      end
  end.

Definition batchSchedule (c n : nat) : list PoolEvent := batches n c 0 n.

End RunTestSuite.

(* ===================================================================== *)
(** ** Vocabulary of the runner's properties *)
(* ===================================================================== *)

Section RunnerVocabulary.
Context {B : Builtins}.


(** The response-schema constraint the runner enforces for [test]: an
    [expected_response.schema] that is truthy.  A schema that is supplied
    but falsy ([false], [null], [0], the empty string) is not enforced. *)
Definition enforcedSchema (test : TestCase) : option json :=
  match tc_expected_response test with
  | Some e =>
      match exp_schema e with
      | Some schema => if truthy schema then Some schema else None
      | None => None
      end
  | None => None
  end.

(** The body validates against the schema on the shared instance in the
    state [ajv]: the instance compiles the schema and the validator
    reports no error. *)
Definition validatesOn (ajv : Ajv) (schema data : json) : Prop :=
  exists validate,
    fst (ajv_compile ajv schema) = Ok validate /\ validate data = None.

(** A result that is not PASSED and whose observed status is not among
    its expected ones. *)
Definition needsSuggestion (r : RunResult) : bool :=
  negb (str_eqb (rr_status r) PASSED) &&
  match rr_actual r with
  | Some actual =>
      if List.in_dec Z.eq_dec (act_status actual) (rr_expected r) then false else true
  | None => false
  end.

(** The number of results that carry a given verdict. *)
Definition countVerdict (verdict : jsstr) (results : list RunResult) : nat :=
  length (List.filter (fun r => str_eqb (rr_status r) verdict) results).

(** The suggestion made for a result: same id, the result's expected set
    as the current one, the observed status, and as recommendation the
    strictly ascending list of the expected statuses and the observed one. *)
Definition suggestionFor (r : RunResult) (s : Suggestion) : Prop :=
  exists actual,
    rr_actual r = Some actual /\
    sg_id s = rr_id r /\
    sg_currentExpected s = rr_expected r /\
    sg_observed s = act_status actual /\
    StronglySorted Z.lt (sg_recommendedExpected s) /\
    forall x, In x (sg_recommendedExpected s)
              <-> In x (rr_expected r) \/ x = act_status actual.


(** [r] is what executing [tc] gives, for some reading of the clock and
    some state of the shared Ajv instance. *)
Definition resultOf (target : AxiosConfig -> Transport)
    (targetUrl : option jsstr) (tc : TestCase) (r : RunResult) : Prop :=
  exists elapsed ajv, r = fst (executeSingleTest target tc targetUrl elapsed ajv).



(** Every filled slot holds the result of the test case of its own index. *)
Definition slotsAligned (target : AxiosConfig -> Transport)
    (testCases : list TestCase) (targetUrl : option jsstr) (st : Pool) : Prop :=
  length (pool_slots st) = length testCases /\
  forall i r, pool_slots st !! i = Some (Some r) ->
              exists tc, testCases !! i = Some tc /\ resultOf target targetUrl tc r.

(** The three verdicts. *)
Definition isVerdict (status : jsstr) : Prop :=
  status = PASSED \/ status = FAILED \/ status = ERROR.

End RunnerVocabulary.

(* ===================================================================== *)
(** ** services/nvidia.service.js: the noisy-JSON extractor *)
(* ===================================================================== *)

Module Extractor.

Definition backtick : N := 96%N.
Definition comma : N := 44%N.
Definition lbrace : N := 123%N.
Definition rbrace : N := 125%N.
Definition lbracket : N := 91%N.
Definition rbracket : N := 93%N.
Definition fence : jsstr := [backtick; backtick; backtick].

(** The classes of [cleanGarbage]: the byte-order mark U+FEFF; the three
    characters of the mangled-ellipsis class (U+00E2, U+20AC, U+00A6); the
    C0 controls U+0000-U+001F; the zero-width range U+200B-U+200F. *)
Definition isBOM (c : N) : bool := (c =? 0xFEFF)%N.
Definition isMangledEllipsis (c : N) : bool :=
  ((c =? 0xE2) || (c =? 0x20AC) || (c =? 0xA6))%N.
Definition isC0 (c : N) : bool := (c <=? 0x1F)%N.
Definition isZeroWidth (c : N) : bool := ((0x200B <=? c) && (c <=? 0x200F))%N.

(** [text.replace(/[class]/g, empty)]: every unit of the class is deleted. *)
Definition removeAll (class : N -> bool) (text : jsstr) : jsstr :=
  List.filter (fun c => negb (class c)) text.

Definition cleanGarbage (text : jsstr) : jsstr :=
  trim
    (removeAll isZeroWidth
       (removeAll isC0
          (flat_map (fun c => if isMangledEllipsis c then js "..." else [c])
             (removeAll isBOM text)))).

(** The text before the first occurrence of [sep] and the text after it. *)
Fixpoint splitAtFirst (sep : jsstr) (s : jsstr) : option (jsstr * jsstr) :=
  if startsWith s sep then Some ([], skipn (length sep) s)
  else
    match s with
    | [] => None
    | c :: r =>
        match splitAtFirst sep r with
        | Some (before, after) => Some (c :: before, after)
        | None => None
        end
    end.

Definition isLetter (c : N) : bool :=
  ((65 <=? c) && (c <=? 90) || (97 <=? c) && (c <=? 122))%N.

Fixpoint countLeading (class : N -> bool) (s : jsstr) : nat :=
  match s with
  | c :: r => if class c then S (countLeading class r) else O
  | [] => O
  end.

(** The scanners below walk the text once; [skip] counts the units that
    belong to the match just replaced and are passed over. *)

(** [block.replace(/```[a-zA-Z]*/g, empty)]: fences go, with the letters
    that follow them. *)
Fixpoint dropFenceMarkers (skip : nat) (s : jsstr) : jsstr :=
  match s with
  | [] => []
  | c :: r =>
      match skip with
      | S k => dropFenceMarkers k r
      | O =>
          if startsWith s fence
          then dropFenceMarkers (2 + countLeading isLetter (skipn 3 s)) r
          else c :: dropFenceMarkers 0 r
      end
  end.

(** [block.replace(/```/g, empty)]. *)
Fixpoint dropFences (skip : nat) (s : jsstr) : jsstr :=
  match s with
  | [] => []
  | c :: r =>
      match skip with
      | S k => dropFences k r
      | O => if startsWith s fence then dropFences 2 r else c :: dropFences 0 r
      end
  end.

(** The callback: the fenced block without its markers, trimmed. *)
Definition unwrapBlock (block : jsstr) : jsstr :=
  trim (dropFences 0 (dropFenceMarkers 0 block)).

(** [cleaned.replace(/```[\s\S]*?```/g, unwrapBlock)]: a block runs from a
    fence to the nearest fence after it. *)
Fixpoint unwrapFences (skip : nat) (s : jsstr) : jsstr :=
  match s with
  | [] => []
  | c :: r =>
      match skip with
      | S k => unwrapFences k r
      | O =>
          if startsWith s fence then
            match splitAtFirst fence (skipn 3 s) with
            | Some (inner, _) =>
                unwrapBlock (fence ++ inner ++ fence)
                ++ unwrapFences (5 + length inner) r
            | None => c :: unwrapFences 0 r
            end
          else c :: unwrapFences 0 r
      end
  end.

(** The successive matches of [/\{[\s\S]*?\}/g] (or of the bracket
    regex): from an opening unit to the nearest closing unit after it. *)
Fixpoint scanBlocks (opening closing : N) (skip : nat) (s : jsstr) : list jsstr :=
  match s with
  | [] => []
  | c :: r =>
      match skip with
      | S k => scanBlocks opening closing k r
      | O =>
          if (c =? opening)%N then
            match splitAtFirst [closing] r with
            | Some (inner, _) =>
                (c :: inner ++ [closing])
                  :: scanBlocks opening closing (S (length inner)) r
            | None => scanBlocks opening closing 0 r
            end
          else scanBlocks opening closing 0 r
      end
  end.

(** [matches.sort((a, b) => b.length - a.length)]: longest first, and
    stable. *)
Fixpoint insertByLength (x : jsstr) (sorted : list jsstr) : list jsstr :=
  match sorted with
  | [] => [x]
  | y :: r =>
      if (length y <=? length x)%nat then x :: y :: r
      else y :: insertByLength x r
  end.

Definition sortByLengthDesc (matches : list jsstr) : list jsstr :=
  fold_right insertByLength [] matches.

(** [candidate.replace(/,\s*]/g, "]")] (or with the brace). *)
Fixpoint stripTrailingComma (closing : N) (skip : nat) (s : jsstr) : jsstr :=
  match s with
  | [] => []
  | c :: r =>
      match skip with
      | S k => stripTrailingComma closing k r
      | O =>
          if (c =? comma)%N then
            let white := countLeading isWhite r in
            match skipn white r with
            | d :: _ =>
                if (d =? closing)%N
                then closing :: stripTrailingComma closing (S white) r
                else c :: stripTrailingComma closing 0 r
            | [] => c :: stripTrailingComma closing 0 r
            end
          else c :: stripTrailingComma closing 0 r
      end
  end.

Definition extractJson (raw : jsstr) : option jsstr :=
  match raw with
  | [] => None
  | _ =>
      let cleaned := cleanGarbage raw in
      let txt := unwrapFences 0 cleaned in
      let matches :=
        scanBlocks lbrace rbrace 0 txt ++ scanBlocks lbracket rbracket 0 txt in
      match sortByLengthDesc matches with
      | [] => None
      | candidate :: _ =>
          Some (stripTrailingComma rbrace 0
                  (stripTrailingComma rbracket 0 candidate))
      end
  end.

(** Vocabulary of the extractor's properties. *)

(** A unit the cleaning steps keep as it is or, for a control character,
    just delete: not a byte-order mark, not of the mangled-ellipsis class,
    not zero-width, not a backtick. *)
Definition isClean (c : N) : bool :=
  negb (isBOM c || isMangledEllipsis c || isZeroWidth c || (c =? backtick)%N).

(** The text without its C0 control characters (line breaks and tabs
    among them). *)
Definition withoutControls (text : jsstr) : jsstr := removeAll isC0 text.

(** Some comma of the text is followed, after optional white space, by
    the closing unit. *)
Fixpoint hasTrailingComma (closing : N) (s : jsstr) : bool :=
  match s with
  | [] => false
  | c :: r =>
      ((c =? comma)%N &&
       match skipn (countLeading isWhite r) r with
       | d :: _ => (d =? closing)%N
       | [] => false
       end)
      || hasTrailingComma closing r
  end.

(** A flat block: it opens, closes with its last unit, and holds no other
    closing unit of its kind. *)
Definition flatBlock (opening closing : N) (text : jsstr) : Prop :=
  exists body, text = opening :: body ++ [closing] /\ ~ In closing body.

End Extractor.
Export Extractor.

(* ===================================================================== *)
(** ** services/nvidia.service.js: data *)
(* ===================================================================== *)

(** The status overrides: a field is [None] unless it holds a finite
    number ([Number.isFinite]). *)
Record Overrides : Type := {
  ov_authErrorStatus : option Z;
  ov_rateLimitStatus : option Z;
  ov_conflictStatus : option Z;
  ov_invalidStatus : option Z;
  ov_successStatus : option Z
}.

Definition noOverrides : Overrides :=
  {| ov_authErrorStatus := None; ov_rateLimitStatus := None;
     ov_conflictStatus := None; ov_invalidStatus := None;
     ov_successStatus := None |}.

(** [Object.assign({}, a, b)] on overrides. *)
Definition mergeOverrides (a b : Overrides) : Overrides :=
  let pick (x y : option Z) := match y with Some _ => y | None => x end in
  {| ov_authErrorStatus := pick (ov_authErrorStatus a) (ov_authErrorStatus b);
     ov_rateLimitStatus := pick (ov_rateLimitStatus a) (ov_rateLimitStatus b);
     ov_conflictStatus := pick (ov_conflictStatus a) (ov_conflictStatus b);
     ov_invalidStatus := pick (ov_invalidStatus a) (ov_invalidStatus b);
     ov_successStatus := pick (ov_successStatus a) (ov_successStatus b) |}.

(** The endpoint specification [generateTestCases] receives;
    [spec_expectedStatus] is [spec.expected_response?.status]. *)
Record EndpointSpec : Type := {
  spec_method : option jsstr;
  spec_endpoint : option jsstr;
  spec_headers : option (list (jsstr * json));
  spec_body : option json;
  spec_expectedStatus : option json;
  spec_overrides : option Overrides;
  spec_autoProbe : bool;
  spec_sampleValidToken : option jsstr;
  spec_sampleValidApiKey : option jsstr;
  spec_targetUrl : option jsstr;
  spec_baseUrl : option jsstr
}.

(** The credential header style the probes found to work. *)
Record Detected : Type := {
  det_validHeaderName : option jsstr;
  det_validHeaderValue : option jsstr
}.

Definition nothingDetected : Detected :=
  {| det_validHeaderName := None; det_validHeaderValue := None |}.

Record GenSummary : Type := {
  gs_total : nat;
  gs_valid : nat;
  gs_invalid : nat;
  gs_boundary : nat;
  gs_security : nat
}.

(** What is returned and cached; [gd_cached] and [gd_note] are absent from
    the cached copy. *)
Record GenData : Type := {
  gd_testCases : list json;
  gd_summary : GenSummary;
  gd_probeResults : option json;
  gd_inferred : option Overrides;
  gd_detected : option json
}.

Record GenResult : Type := {
  gr_data : GenData;
  gr_cached : bool;
  gr_note : option jsstr
}.

(* ===================================================================== *)
(** ** services/nvidia.service.js: pure helpers *)
(* ===================================================================== *)

Section GenerationHelpers.
Context {B : Builtins}.

(** A non-empty optional string ([s] is truthy). *)
Definition present (s : option jsstr) : option jsstr := orNull s.

Definition normalizeHeaders (value : option json) : list (jsstr * json) :=
  match value with
  | Some (JObj fields) =>
      fold_left
        (fun out kv =>
           match snd kv with
           | JNull => out
           | JObj _ | JArr _ => setField (fst kv) (JStr (JSON_stringify (snd kv))) out
           | v => setField (fst kv) (JStr (js_String v)) out
           end)
        fields []
  | _ => []
  end.

(** The key matches one of the token patterns (all case-insensitive):
    [token], [secret], [api[_-]?key], [authorization], [bearer],
    [x-?api-?key]. *)
Definition isSecretKey (k : jsstr) : bool :=
  let low := toLowerCase k in
  existsb (includes low)
    [js "token"; js "secret"; js "apikey"; js "api_key"; js "api-key";
     js "authorization"; js "bearer";
     js "xapikey"; js "x-apikey"; js "xapi-key"; js "x-api-key"].

(** [walk(clone)]: every matching key is redacted, anything else is
    walked into when it is an object or an array. *)
Fixpoint redact (v : json) : json :=
  match v with
  | JObj fields =>
      JObj (map (fun kv =>
                   let '(k, x) := kv in
                   if isSecretKey k then (k, JStr (js "[REDACTED]")) else (k, redact x))
                fields)
  | JArr items => JArr (map redact items)
  | other => other
  end.

(** [JSON.parse(JSON.stringify(obj))]: the copy has [null] for [NaN]. *)
Fixpoint jsonClone (v : json) : json :=
  match v with
  | JNaN => JNull
  | JObj fields => JObj (map (fun kv => let '(k, x) := kv in (k, jsonClone x)) fields)
  | JArr items => JArr (map jsonClone items)
  | other => other
  end.

Definition scrubSecrets (obj : option json) : option json :=
  match obj with
  | Some (JObj _ as o) | Some (JArr _ as o) => Some (redact (jsonClone o))
  | other => other
  end.

(** A test case object. *)
Definition caseObject (id category description method endpoint : json)
    (headers : list (jsstr * json)) (body status : json) : json :=
  JObj [(js "id", id); (js "category", category); (js "description", description);
        (js "request",
         JObj [(js "method", method); (js "endpoint", endpoint);
               (js "headers", JObj headers); (js "body", body)]);
        (js "expected_response", JObj [(js "status", status)])].

(** [spec.expected_response?.status || (method === "POST" ? 201 : 200)]. *)
Definition defaultSuccess (spec : EndpointSpec) : json :=
  orElse (spec_expectedStatus spec)
    (if str_eqb (toUpperCase (strOr (spec_method spec) (js "GET"))) (js "POST")
     then JNum 201 else JNum 200).

Definition specHeaders (spec : EndpointSpec) : list (jsstr * json) :=
  match spec_headers spec with Some h => h | None => [] end.

Definition jsonHeader : list (jsstr * json) :=
  [(js "Content-Type", JStr (js "application/json"))].

Definition generateFallbackTestCases (spec : EndpointSpec) (detected : Detected)
  : list json :=
  let endpoint := strOr (spec_endpoint spec) (js "/") in
  let method := toUpperCase (strOr (spec_method spec) (js "GET")) in
  let successStatus := defaultSuccess spec in
  let overrides :=
    match spec_overrides spec with Some o => o | None => noOverrides end in
  let status (field : Overrides -> option Z) (fallback : Z) : json :=
    JNum (match field overrides with Some n => n | None => fallback end) in
  let authErrorStatus := status ov_authErrorStatus 401 in
  let rateLimitStatus := status ov_rateLimitStatus 429 in
  let conflictStatus := status ov_conflictStatus 409 in
  let genericInvalidStatus := status ov_invalidStatus 400 in
  let validHeaders0 := assign (specHeaders spec) [] in
  let validHeaders :=
    match present (det_validHeaderName detected),
          present (det_validHeaderValue detected) with
    | Some name, Some value => setField name (JStr value) validHeaders0
    | _, _ =>
        if negb (truthyU (lookupField (js "Authorization") validHeaders0))
           && negb (truthyU (lookupField (js "x-api-key") validHeaders0))
        then setField (js "Authorization") (JStr (js "Bearer VALID")) validHeaders0
        else validHeaders0
    end in
  let sampleBody := nullish (spec_body spec) (JObj [(js "sample", JBool true)]) in
  let mk (id category description : string) (endpoint' : jsstr)
         (headers : list (jsstr * json)) (body status' : json) : json :=
    caseObject (JStr (js id)) (JStr (js category)) (JStr (js description))
      (JStr method) (JStr endpoint') headers body status' in
  let cases :=
    [ mk "TC_001" "valid" "Valid request with correct headers and auth" endpoint
         (normalizeHeaders (Some (JObj (assign validHeaders jsonHeader))))
         sampleBody successStatus;
      mk "TC_002" "invalid" "Missing required parameter or field"
         (endpoint ++ js "?missing=true")
         (normalizeHeaders (option_map JObj (spec_headers spec)))
         (if str_eqb method (js "POST") then JObj [] else JNull)
         genericInvalidStatus;
      mk "TC_003" "invalid" "Empty JSON body" endpoint jsonHeader (JObj [])
         genericInvalidStatus;
      mk "TC_004" "invalid" "Missing API key" endpoint
         (normalizeHeaders (Some (JObj (specHeaders spec)))) JNull authErrorStatus;
      mk "TC_005" "invalid" "Invalid API key" endpoint
         (assign (specHeaders spec) [(js "Authorization", JStr (js "Bearer WRONG"))])
         JNull authErrorStatus;
      mk "TC_006" "invalid" "Rate limit exceeded test" endpoint
         (assign (specHeaders spec) [(js "X-Test-Rate", JStr (js "true"))])
         JNull rateLimitStatus;
      mk "TC_007" "boundary" "Very long string field" endpoint jsonHeader
         (JObj [(js "name", JStr (repeat 120%N 2000))]) genericInvalidStatus;
      mk "TC_008" "security" "SQL injection attempt in body" endpoint jsonHeader
         (JObj [(js "name", JStr (js "' OR '1'='1"))]) genericInvalidStatus;
      mk "TC_009" "invalid" "Duplicate resource (simulate conflict)" endpoint
         (assign validHeaders jsonHeader)
         (JObj [(js "id", JStr (js "existing-id")); (js "name", JStr (js "dup"))])
         conflictStatus;
      mk "TC_010" "invalid" "Wrong Content-Type header" endpoint
         [(js "Content-Type", JStr (js "text/plain"))]
         (JStr (JSON_stringify sampleBody)) genericInvalidStatus;
      mk "TC_011" "valid" "Valid request with query params and auth"
         (endpoint ++ js "?q=test")
         (normalizeHeaders (Some (JObj (assign validHeaders jsonHeader))))
         JNull successStatus;
      mk "TC_012" "valid" "Valid request with optional X-Debug header" endpoint
         (normalizeHeaders
            (Some (JObj (assign validHeaders [(js "X-Debug", JStr (js "true"))]))))
         JNull successStatus ] in
  firstn 12 cases.

End GenerationHelpers.

(* ===================================================================== *)
(** ** services/nvidia.service.js: the world, probing and inference *)
(* ===================================================================== *)

(** An entry of the [NodeCache] store of [utils/cache.js]: the value and
    the time it expires ([stdTTL] is 300 seconds). *)
Record CacheEntry : Type := {
  ce_value : GenData;
  ce_expires : Z
}.

(** What the generation service can observe and change: the clock (ms),
    the cache, and the calls made so far to the target and to the model. *)
Record World : Type := {
  w_now : Z;
  w_cache : gmap (list N) CacheEntry;
  w_requests : list AxiosConfig;
  w_prompts : list jsstr
}.

Definition stdTTL : Z := 300.

(** [cache.get(key)]: the stored value unless its time has passed. *)
Definition cache_get (w : World) (key : jsstr) : option GenData :=
  match w_cache w !! key with
  | Some entry => if ce_expires entry <? w_now w then None else Some (ce_value entry)
  | None => None
  end.

Definition cacheEntry (value : GenData) (storedAt : Z) : CacheEntry :=
  {| ce_value := value; ce_expires := storedAt + stdTTL * 1000 |}.

(** [cache.set(key, value)]; the store is taken never to refuse a value. *)
Definition cache_set (key : jsstr) (value : GenData) (w : World) : World :=
  {| w_now := w_now w;
     w_cache := <[key := cacheEntry value (w_now w)]> (w_cache w);
     w_requests := w_requests w;
     w_prompts := w_prompts w |}.

(** What [model.generateContent(prompt)] and reading its text give. *)
Inductive ModelReply : Type :=
| ModelText (text : jsstr)
| ModelThrows (message : jsstr).

(** One probe request: its name, the headers sent, the headers shown in
    the curl line. *)
Record ProbeVariant : Type := {
  pv_name : jsstr;
  pv_requestHeaders : list (jsstr * json);
  pv_curlHeaders : list (jsstr * json)
}.

Section Probing.
Context {B : Builtins}.

(** The outside world: the [n]-th external call (target requests and model
    calls counted together) is answered by [http n] or [model n] and takes
    [elapse n] milliseconds. *)
Variable http : nat -> AxiosConfig -> Transport.
Variable model : nat -> jsstr -> ModelReply.
Variable elapse : nat -> Z.

Definition callNumber (w : World) : nat :=
  (length (w_requests w) + length (w_prompts w))%nat.

(** [await axios.request(cfg)]. *)
Definition request (cfg : AxiosConfig) (w : World) : Transport * World :=
  (http (callNumber w) cfg,
   {| w_now := w_now w + elapse (callNumber w);
      w_cache := w_cache w;
      w_requests := w_requests w ++ [cfg];
      w_prompts := w_prompts w |}).

(** [await model.generateContent(prompt)] and the reading of its text. *)
Definition generateContent (prompt : jsstr) (w : World) : ModelReply * World :=
  (model (callNumber w) prompt,
   {| w_now := w_now w + elapse (callNumber w);
      w_cache := w_cache w;
      w_requests := w_requests w;
      w_prompts := w_prompts w ++ [prompt] |}).

(** [String(e)] for the error of a rejected request:
    [Error.prototype.toString] puts the name of the error in front of its
    message ([AxiosError] for a timeout, [Error] for a refused connection). *)
Definition errorString (name message : jsstr) : jsstr :=
  match name, message with
  | [], _ => message
  | _, [] => name
  | _, _ => name ++ js ": " ++ message
  end.

Definition probeConfig (method url : jsstr) (body : option json)
    (v : ProbeVariant) : AxiosConfig :=
  {| cfg_method := method; cfg_url := url;
     cfg_headers := pv_requestHeaders v;
     cfg_data := Some (nullish body JNull);
     cfg_timeout := 4000; cfg_maxRedirects := 5 |}.

Definition probeOutcome (method url : jsstr) (body : option json)
    (v : ProbeVariant) (r : HttpResponse) : json :=
  JObj [(js "status", JNum (resp_status r));
        (js "body", resp_data r);
        (js "headers", JObj (resp_headers r));
        (js "curl", JStr (buildCurl method url (pv_curlHeaders v) body))].

(** The requests of [probeEndpoint]: they are awaited one after the other
    inside a single [try]; the first rejection ends the block and is stored
    under the key [error] of the results. *)
Fixpoint probeInOneTry (method url : jsstr) (body : option json)
    (variants : list ProbeVariant) (results : list (jsstr * json)) (w : World)
  : list (jsstr * json) * World :=
  match variants with
  | [] => (results, w)
  | v :: rest =>
      let '(answer, w1) := request (probeConfig method url body v) w in
      match answer with
      | Responded r =>
          probeInOneTry method url body rest
            (setField (pv_name v) (probeOutcome method url body v r) results) w1
      | Rejected name _ message =>
          (setField (js "error") (JStr (errorString name message)) results, w1)
      end
  end.

(** The loop of [probeAuthHeaderTypes]: each request has a [try] of its
    own; a rejection is stored under the variant's name and the loop goes
    on. *)
Fixpoint probeEachInOwnTry (method url : jsstr) (body : option json)
    (variants : list ProbeVariant) (results : list (jsstr * json)) (w : World)
  : list (jsstr * json) * World :=
  match variants with
  | [] => (results, w)
  | v :: rest =>
      let '(answer, w1) := request (probeConfig method url body v) w in
      let entry :=
        match answer with
        | Responded r => probeOutcome method url body v r
        | Rejected name _ message =>
            JObj [(js "error", JStr (errorString name message))]
        end in
      probeEachInOwnTry method url body rest (setField (pv_name v) entry results) w1
  end.

(** [spec.targetUrl || spec.baseUrl || undefined]. *)
Definition probeBase (spec : EndpointSpec) : option jsstr :=
  match present (spec_targetUrl spec) with
  | Some u => Some u
  | None => present (spec_baseUrl spec)
  end.

(** A variant whose headers are the base headers with [extra] assigned
    over them. *)
Definition variantWith (name : string) (baseHeaders extra : list (jsstr * json))
  : ProbeVariant :=
  {| pv_name := js name;
     pv_requestHeaders := normalizeHeaders (Some (JObj (assign baseHeaders extra)));
     pv_curlHeaders := assign baseHeaders extra |}.

Definition bearer (token : jsstr) : json := JStr (js "Bearer " ++ token).

Definition probeEndpoint (spec : EndpointSpec) (w : World) : json * World :=
  match present (spec_endpoint spec) with
  | None => (JObj [], w)
  | Some endpoint =>
      let method := toUpperCase (strOr (spec_method spec) (js "GET")) in
      match resolveTestUrl endpoint (probeBase spec) with
      | Throw message =>
          (JObj [(js "error", JStr (js "URL resolution error: " ++ message))], w)
      | Ok url =>
          let baseHeaders := normalizeHeaders (Some (JObj (specHeaders spec))) in
          let variants :=
            [ {| pv_name := js "noAuth"; pv_requestHeaders := baseHeaders;
                 pv_curlHeaders := baseHeaders |};
              variantWith "invalidAuth" baseHeaders
                [(js "Authorization", JStr (js "Bearer WRONG"))];
              variantWith "rateLimit" baseHeaders
                [(js "X-Test-Rate", JStr (js "true"))] ]
            ++ match present (spec_sampleValidToken spec) with
               | Some token =>
                   [variantWith "validAuth" baseHeaders
                      [(js "Authorization", bearer token)]]
               | None => []
               end
            ++ match present (spec_sampleValidApiKey spec) with
               | Some key =>
                   [variantWith "validApiKey" baseHeaders [(js "x-api-key", JStr key)]]
               | None => []
               end in
          let '(results, w') :=
            probeInOneTry method url (spec_body spec) variants [] w in
          (JObj results, w')
      end
  end.

Definition probeAuthHeaderTypes (spec : EndpointSpec) (w : World) : json * World :=
  match present (spec_endpoint spec) with
  | None => (JObj [], w)
  | Some endpoint =>
      let method := toUpperCase (strOr (spec_method spec) (js "GET")) in
      match resolveTestUrl endpoint (probeBase spec) with
      | Throw message =>
          (JObj [(js "error", JStr (js "URL resolution error: " ++ message))], w)
      | Ok url =>
          let baseHeaders := normalizeHeaders (Some (JObj (specHeaders spec))) in
          let variants :=
            [ variantWith "none" baseHeaders [];
              variantWith "authorization_wrong" baseHeaders
                [(js "Authorization", JStr (js "Bearer WRONG"))];
              variantWith "x_api_key_wrong" baseHeaders
                [(js "x-api-key", JStr (js "WRONG"))];
              variantWith "X-API-KEY_wrong" baseHeaders
                [(js "X-API-KEY", JStr (js "WRONG"))] ]
            ++ match present (spec_sampleValidToken spec) with
               | Some token =>
                   [variantWith "authorization_valid" baseHeaders
                      [(js "Authorization", bearer token)]]
               | None => []
               end
            ++ match present (spec_sampleValidApiKey spec) with
               | Some key =>
                   [variantWith "x_api_key_valid" baseHeaders
                      [(js "x-api-key", JStr key)]]
               | None => []
               end in
          let '(results, w') :=
            probeEachInOwnTry method url (spec_body spec) variants [] w in
          (JObj results, w')
      end
  end.

End Probing.

Section Inference.
Context {B : Builtins}.

Definition bodyHas (o : option json) (keywords : list jsstr) : bool :=
  match o with
  | Some v =>
      truthy v &&
      let s := match v with
               | JStr text => toLowerCase text
               | _ => toLowerCase (JSON_stringify v)
               end in
      existsb (includes s) keywords
  | None => false
  end.

(** [Number.isFinite(item.status)] for a truthy [item], with the status. *)
Definition finiteStatus (item : option json) : option Z :=
  if truthyU item then finiteNumber (getOpt item (js "status")) else None.

(** The status of [item] when it is one of [codes] or when the body holds
    one of [keywords]. *)
Definition statusSignal (item : option json) (codes : list Z)
    (keywords : list jsstr) : option Z :=
  match finiteStatus item with
  | Some status =>
      if existsb (Z.eqb status) codes then Some status
      else if bodyHas (getOpt item (js "body")) keywords then Some status
      else None
  | None => None
  end.

Definition later (earlier newer : option Z) : option Z :=
  match newer with Some _ => newer | None => earlier end.

Definition inferOverridesFromProbe (probe : list (jsstr * json)) : Overrides :=
  let fromNoAuth :=
    statusSignal (lookupField (js "noAuth") probe) [401; 403]
      [js "missing api"; js "missing token"; js "no api key"; js "unauthorized";
       js "auth required"] in
  let fromInvalid :=
    statusSignal (lookupField (js "invalidAuth") probe) [401; 403]
      [js "invalid api"; js "invalid token"; js "unauthorized"] in
  let fromRate :=
    statusSignal (lookupField (js "rateLimit") probe) [429]
      [js "rate"; js "rate limit"; js "too many requests"; js "limit exceeded"] in
  let conflict :=
    fold_left
      (fun found kv =>
         let item := Some (snd kv) in
         match finiteStatus item with
         | Some status =>
             let found1 :=
               if bodyHas (getOpt item (js "body"))
                    [js "duplicate"; js "already exists"; js "conflict";
                     js "duplicate entry"; js "unique constraint"]
               then Some status else found in
             if bodyHas (getOpt item (js "body"))
                  [js "content-type"; js "unsupported media type";
                   js "invalid content type"]
             then Some status else found1
         | None => found
         end)
      probe None in
  {| ov_authErrorStatus := later fromNoAuth fromInvalid;
     ov_rateLimitStatus := fromRate;
     ov_conflictStatus := conflict;
     ov_invalidStatus := None;
     ov_successStatus := None |}.

(** The status of a variant observed with a 2xx status. *)
Definition successOf (item : option json) : option Z :=
  match finiteStatus item with
  | Some status => if (200 <=? status) && (status <? 300) then Some status else None
  | None => None
  end.

Definition withSuccess (o : Overrides) (status : Z) : Overrides :=
  {| ov_authErrorStatus := ov_authErrorStatus o;
     ov_rateLimitStatus := ov_rateLimitStatus o;
     ov_conflictStatus := ov_conflictStatus o;
     ov_invalidStatus := ov_invalidStatus o;
     ov_successStatus := Some status |}.

Variable http : nat -> AxiosConfig -> Transport.
Variable elapse : nat -> Z.

Definition fieldsOf (v : json) : list (jsstr * json) :=
  match v with JObj fields => fields | _ => [] end.

Definition autoDetectOverridesAndAuth (spec : EndpointSpec) (w : World)
  : (json * Overrides * Detected) * World :=
  let '(baseProbe, w1) := probeEndpoint http elapse spec w in
  let '(headerVariants, w2) := probeAuthHeaderTypes http elapse spec w1 in
  let merged := assign (fieldsOf baseProbe) (fieldsOf headerVariants) in
  let inferred := inferOverridesFromProbe merged in
  let token := present (spec_sampleValidToken spec) in
  let apiKey := present (spec_sampleValidApiKey spec) in
  let found (name value : jsstr) (status : Z) :=
    (withSuccess inferred status,
     {| det_validHeaderName := Some name; det_validHeaderValue := Some value |}) in
  let '(inferred', detected) :=
    match successOf (lookupField (js "authorization_valid") (fieldsOf headerVariants)) with
    | Some status =>
        found (js "Authorization")
          (match token with Some t => js "Bearer " ++ t | None => js "[PROVIDED]" end)
          status
    | None =>
        match successOf (lookupField (js "x_api_key_valid") (fieldsOf headerVariants)) with
        | Some status =>
            found (js "x-api-key")
              (match apiKey with Some k => k | None => js "[PROVIDED]" end) status
        | None =>
            match successOf (lookupField (js "validAuth") (fieldsOf baseProbe)), token with
            | Some status, Some t => found (js "Authorization") (js "Bearer " ++ t) status
            | _, _ =>
                match successOf (lookupField (js "validApiKey") (fieldsOf baseProbe)),
                      apiKey with
                | Some status, Some k => found (js "x-api-key") k status
                | _, _ => (inferred, nothingDetected)
                end
            end
        end
    end in
  ((JObj merged, inferred', detected), w2).

End Inference.

(* ===================================================================== *)
(** ** services/nvidia.service.js: adjusting and generating test cases *)
(* ===================================================================== *)

Section Generation.
Context {B : Builtins}.

(** [a === b] on the values compared here: primitives by value.  Two
    arrays or objects are taken to be distinct objects. *)
Definition strictEq (a : option json) (b : json) : bool :=
  match a, b with
  | Some JNull, JNull => true
  | Some (JBool x), JBool y => Bool.eqb x y
  | Some (JNum x), JNum y => x =? y
  | Some (JStr x), JStr y => str_eqb x y
  | _, _ => false
  end.

Definition anyIncluded (desc : jsstr) (words : list string) : bool :=
  existsb (fun word => includes desc (js word)) words.

(** [(tc.description || empty).toLowerCase()]. *)
Definition descriptionOf (tc : json) : Exc jsstr :=
  description <- getProp tc (js "description") ;;
  lowerOf (orElse description (JStr [])).

(** [tc.expected_response.status = status]. *)
Definition setExpectedStatus (tc : json) (status : json) : Exc json :=
  expected <- getProp tc (js "expected_response") ;;
  expected' <- assignProp expected (js "status") status ;;
  assignProp (Some tc) (js "expected_response") expected'.

Definition nonZero (status : option Z) : option Z :=
  match status with
  | Some 0 | None => None
  | Some n => Some n
  end.

(** The body of the [forEach] of [applyProbeToTestCases]. *)
Definition applyProbeToTestCase (missingAuthStatus invalidAuthStatus
    rateLimitStatus conflictStatus : option Z) (observedSuccess defaultSuccess' : json)
    (tc : json) : Exc json :=
  desc <- descriptionOf tc ;;
  let setIf (status : option Z) :=
    match nonZero status with
    | Some n => setExpectedStatus tc (JNum n)
    | None => Ok tc
    end in
  if anyIncluded desc ["missing api key"; "missing api"; "missing auth"]
  then setIf missingAuthStatus
  else if anyIncluded desc ["invalid api key"; "invalid token"; "invalid auth"]
  then setIf invalidAuthStatus
  else if anyIncluded desc ["rate"; "rate limit"]
  then setIf rateLimitStatus
  else if anyIncluded desc ["duplicate"; "conflict"]
  then setIf conflictStatus
  else if anyIncluded desc ["valid"; "happy path"]
  then
    if truthy observedSuccess then setExpectedStatus tc observedSuccess
    else
      expected <- getProp tc (js "expected_response") ;;
      match expected with
      | Some JNull | None => Throw (js "TypeError: Cannot read properties")
      | Some _ =>
          setExpectedStatus tc (orElse (getOpt expected (js "status")) defaultSuccess')
      end
  else
    expected <- getProp tc (js "expected_response") ;;
    if truthyU expected
       && strictEq (getOpt expected (js "status")) defaultSuccess'
       && strictEq (Some observedSuccess) (JNum 409)
    then setExpectedStatus tc (JNum 409)
    else Ok tc.

Definition applyProbeToTestCases (testCases : list json)
    (probeResults : list (jsstr * json)) (spec : EndpointSpec)
    (inferred : Overrides) : Exc (list json) :=
  let probed (name : string) :=
    finiteNumber (getOpt (lookupField (js name) probeResults) (js "status")) in
  let fallbackSuccess :=
    if str_eqb (toUpperCase (strOr (spec_method spec) (js "GET"))) (js "POST")
    then JNum 201 else JNum 200 in
  let observedSuccess :=
    match ov_successStatus inferred with
    | Some n => JNum n
    | None => orElse (spec_expectedStatus spec) fallbackSuccess
    end in
  let defaultSuccess' := nullish (spec_expectedStatus spec) fallbackSuccess in
  mapE (applyProbeToTestCase (probed "noAuth") (probed "invalidAuth")
          (probed "rateLimit") (ov_conflictStatus inferred)
          observedSuccess defaultSuccess')
       testCases.

(** The detected credential header is put on every case that looks like a
    happy path. *)
Definition injectDetected (detected : Detected) (tc : json) : Exc json :=
  desc <- descriptionOf tc ;;
  match present (det_validHeaderName detected),
        present (det_validHeaderValue detected) with
  | Some name, Some value =>
      if anyIncluded desc ["valid"; "happy"] then
        req <- getProp tc (js "request") ;;
        match req with
        | Some JNull | None => Throw (js "TypeError: Cannot read properties")
        | Some _ =>
            let headers := orElse (getOpt req (js "headers")) (JObj []) in
            req' <- assignProp req (js "headers")
                      (JObj (assign (ownEntries headers) [(name, JStr value)])) ;;
            assignProp (Some tc) (js "request") req'
        end
      else Ok tc
  | _, _ => Ok tc
  end.

(** [String(tc.category || empty).toLowerCase() !== "invalid"]. *)
Definition notInvalid (tc : json) : Exc bool :=
  category <- getProp tc (js "category") ;;
  Ok (negb (str_eqb (toLowerCase (js_String (orElse category (JStr []))))
                    (js "invalid"))).

(** [list.filter(keep)] where [keep] may throw. *)
Fixpoint filterE {A : Type} (keep : A -> Exc bool) (items : list A) : Exc (list A) :=
  match items with
  | [] => Ok []
  | x :: r =>
      k <- keep x ;;
      rest <- filterE keep r ;;
      Ok (if k then x :: rest else rest)
  end.

(** What a template literal prints for a possibly undefined value. *)
Definition printed (v : option json) : jsstr :=
  match v with
  | Some x => js_String x
  | None => js "undefined"
  end.

(** The signature [`${tc.category}::${String(tc.description || '').slice(0,120)}`]. *)
Definition signature (tc : json) : Exc jsstr :=
  category <- getProp tc (js "category") ;;
  description <- getProp tc (js "description") ;;
  Ok (printed category ++ js "::"
      ++ slice0 120 (js_String (orElse description (JStr [])))).

(** The refill loop: candidates of the pool in order, skipping signatures
    already seen, until [wanted] extras are found. *)
Fixpoint refill (wanted : nat) (seen : list jsstr) (pool : list json)
  : Exc (list json) :=
  match pool with
  | [] => Ok []
  | candidate :: rest =>
      match wanted with
      | O => Ok []
      | S wanted' =>
          sig <- signature candidate ;;
          if existsb (str_eqb sig) seen then refill wanted seen rest
          else
            extras <- refill wanted' (sig :: seen) rest ;;
            Ok (candidate :: extras)
      end
  end.

Definition placeholder (spec : EndpointSpec) (number : nat) : json :=
  caseObject
    (JStr (js "TC_PLACEHOLDER_" ++ natToString number))
    (JStr (js "valid"))
    (JStr (js "Auto placeholder " ++ natToString number))
    (JStr (toUpperCase (strOr (spec_method spec) (js "GET"))))
    (JStr (strOr (spec_endpoint spec) (js "/")))
    (normalizeHeaders (Some (JObj (assign (specHeaders spec) jsonHeader))))
    (nullish (spec_body spec) (JObj [(js "sample", JBool true)]))
    (defaultSuccess spec).

(** The placeholders pushed while the list is shorter than 12. *)
Definition placeholders (spec : EndpointSpec) (have : nat) : list json :=
  map (fun i => placeholder spec (S i)) (seq have (12 - have)).

Definition optStr (s : option jsstr) : option json := option_map JStr s.

(** One element of [sanitized]; [i] counts from 0. *)
Definition sanitize (spec : EndpointSpec) (i : nat) (tc : json) : Exc json :=
  category <- getProp tc (js "category") ;;
  description <- getProp tc (js "description") ;;
  req <- getProp tc (js "request") ;;
  expected <- getProp tc (js "expected_response") ;;
  method <- upperOf (orElse (getOpt req (js "method"))
                       (orElse (optStr (spec_method spec)) (JStr (js "GET")))) ;;
  Ok (caseObject
        (JStr (js "TC_" ++ padStart0 3 (natToString (S i))))
        (orElse category (JStr (js "valid")))
        (orElse description (JStr (js "Auto-generated " ++ natToString (S i))))
        (JStr method)
        (orElse (getOpt req (js "endpoint"))
           (orElse (optStr (spec_endpoint spec)) (JStr (js "/"))))
        (normalizeHeaders (getOpt req (js "headers")))
        (nullish (getOpt req (js "body")) (nullish (spec_body spec) JNull))
        (parseInt10 (orElse (getOpt expected (js "status")) (defaultSuccess spec)))).

Fixpoint sanitizeAll (spec : EndpointSpec) (i : nat) (cases : list json)
  : Exc (list json) :=
  match cases with
  | [] => Ok []
  | tc :: rest =>
      c <- sanitize spec i tc ;;
      cs <- sanitizeAll spec (S i) rest ;;
      Ok (c :: cs)
  end.

(** [sanitized.filter((t) => t.category === name).length]. *)
Definition countCategory (name : string) (cases : list json) : nat :=
  length (List.filter
            (fun t => strictEq (getOpt (Some t) (js "category")) (JStr (js name)))
            cases).

Definition summaryOf (cases : list json) : GenSummary :=
  {| gs_total := length cases;
     gs_valid := countCategory "valid" cases;
     gs_invalid := countCategory "invalid" cases;
     gs_boundary := countCategory "boundary" cases;
     gs_security := countCategory "security" cases |}.

(** The prompt sent to the model. *)
Definition promptFor (spec : EndpointSpec) : jsstr :=
  join [10%N]
    [ js "You are a QA Engineer. Generate exactly 12 API test cases.";
      [];
      js "API SPEC:";
      js "- Method: " ++ printed (optStr (spec_method spec));
      js "- Endpoint: " ++ printed (optStr (spec_endpoint spec));
      js "- Headers: " ++ JSON_stringify (JObj (specHeaders spec));
      js "- Body: " ++ JSON_stringify (orElse (spec_body spec) JNull);
      js "- Success Status: " ++ js_String (defaultSuccess spec);
      [];
      js "REQUIREMENTS:";
      js "- Output strictly a valid JSON ARRAY ONLY.";
      js "- NO markdown, no explanation, no text before or after JSON.";
      [];
      js "Each testcase:";
      doubleQuoted (js "{ 'id':'TC_001', 'category':'valid|invalid|boundary|security', 'description':'...', 'request':{ 'method':'...','endpoint':'...','headers':{},'body':{} }, 'expected_response':{ 'status': number } }");
      [] ].

Definition cacheKeyOf (spec : EndpointSpec) : jsstr :=
  js "gen_" ++ strOr (spec_method spec) (js "GET")
  ++ js "_" ++ strOr (spec_endpoint spec) (js "/")
  ++ js "_" ++ JSON_stringify (JObj (specHeaders spec)).

Definition withOverrides (spec : EndpointSpec) (o : Overrides) : EndpointSpec :=
  {| spec_method := spec_method spec; spec_endpoint := spec_endpoint spec;
     spec_headers := spec_headers spec; spec_body := spec_body spec;
     spec_expectedStatus := spec_expectedStatus spec;
     spec_overrides := Some o; spec_autoProbe := spec_autoProbe spec;
     spec_sampleValidToken := spec_sampleValidToken spec;
     spec_sampleValidApiKey := spec_sampleValidApiKey spec;
     spec_targetUrl := spec_targetUrl spec; spec_baseUrl := spec_baseUrl spec |}.

Definition withTargetUrl (spec : EndpointSpec) (url : option jsstr) : EndpointSpec :=
  {| spec_method := spec_method spec; spec_endpoint := spec_endpoint spec;
     spec_headers := spec_headers spec; spec_body := spec_body spec;
     spec_expectedStatus := spec_expectedStatus spec;
     spec_overrides := spec_overrides spec; spec_autoProbe := spec_autoProbe spec;
     spec_sampleValidToken := spec_sampleValidToken spec;
     spec_sampleValidApiKey := spec_sampleValidApiKey spec;
     spec_targetUrl := url; spec_baseUrl := spec_baseUrl spec |}.

(** [JSON.parse] inside a [try]: [null] ([None]) when it throws. *)
Definition safeParse (text : jsstr) : option json := JSON_parse text.

(** The array the model's answer is read as: the parsed value, or its
    [testCases] or [data] array, or nothing. *)
Definition parsedList (responseText : jsstr) : list json :=
  let parsed :=
    match extractJson responseText with
    | Some extracted => safeParse extracted
    | None => None
    end in
  match parsed with
  | Some (JArr items) => items
  | Some (JObj fields) =>
      match lookupField (js "testCases") fields, lookupField (js "data") fields with
      | Some (JArr items), _ => items
      | _, Some (JArr items) => items
      | _, _ => []
      end
  | _ => []
  end.

(** The body of the [try] of [generateTestCases], from the model's reply
    to the data that is returned and cached. *)
Definition assemble (spec : EndpointSpec) (probeResults : list (jsstr * json))
    (inferred : Overrides) (detected : Detected) (reply : ModelReply)
  : Exc GenData :=
  match reply with
  | ModelThrows message => Throw message
  | ModelText responseText =>
      let rawList0 :=
        match parsedList responseText with
        | [] => generateFallbackTestCases spec detected
        | items => items
        end in
      let rawList1 :=
        if (length rawList0 <? 12)%nat
        then rawList0
             ++ firstn (12 - length rawList0) (generateFallbackTestCases spec detected)
        else rawList0 in
      rawList2 <-
        (if spec_autoProbe spec then
           adjusted <- applyProbeToTestCases rawList1 probeResults spec inferred ;;
           mapE (injectDetected detected) adjusted
         else Ok rawList1) ;;
      rawList3 <- filterE notInvalid rawList2 ;;
      rawList4 <-
        (if (length rawList3 <? 12)%nat then
           pool <- filterE notInvalid (generateFallbackTestCases spec detected) ;;
           existing <- mapE signature rawList3 ;;
           extras <- refill (12 - length rawList3) existing pool ;;
           Ok (rawList3 ++ extras)
         else Ok rawList3) ;;
      let rawList5 := rawList4 ++ placeholders spec (length rawList4) in
      sanitized <- sanitizeAll spec 0 (firstn 12 rawList5) ;;
      Ok {| gd_testCases := sanitized;
            gd_summary := summaryOf sanitized;
            gd_probeResults :=
              if spec_autoProbe spec then scrubSecrets (Some (JObj probeResults))
              else None;
            gd_inferred := if spec_autoProbe spec then Some inferred else None;
            gd_detected :=
              if spec_autoProbe spec then
                match present (det_validHeaderName detected) with
                | Some name =>
                    Some (JObj [(js "validHeaderName", JStr name);
                                (js "validHeaderValue", JStr (js "[REDACTED]"))])
                | None => None
                end
              else None |}
  end.

Definition safeToCache (data : GenData) : GenData :=
  {| gd_testCases := gd_testCases data;
     gd_summary := gd_summary data;
     gd_probeResults := scrubSecrets (gd_probeResults data);
     gd_inferred := gd_inferred data;
     gd_detected := scrubSecrets (gd_detected data) |}.

Variable http : nat -> AxiosConfig -> Transport.
Variable model : nat -> jsstr -> ModelReply.
Variable elapse : nat -> Z.

Definition generateTestCases (spec : EndpointSpec) (w : World) : GenResult * World :=
  let cacheKey := cacheKeyOf spec in
  match cache_get w cacheKey with
  | Some cached => ({| gr_data := cached; gr_cached := true; gr_note := None |}, w)
  | None =>
      let prompt := promptFor spec in
      let '(probeResults, inferred, detected, spec1, w1) :=
        if spec_autoProbe spec then
          let '((probe, inferred, detected), w1) :=
            autoDetectOverridesAndAuth http elapse
              (withTargetUrl spec (probeBase spec)) w in
          (fieldsOf probe, inferred, detected,
           withOverrides spec
             (mergeOverrides
                (match spec_overrides spec with Some o => o | None => noOverrides end)
                inferred),
           w1)
        else ([], noOverrides, nothingDetected, spec, w) in
      let '(reply, w2) := generateContent model elapse prompt w1 in
      match assemble spec1 probeResults inferred detected reply with
      | Ok data =>
          ({| gr_data := data; gr_cached := false; gr_note := None |},
           cache_set cacheKey (safeToCache data) w2)
      | Throw _ =>
          let fallback := generateFallbackTestCases spec1 detected in
          ({| gr_data := {| gd_testCases := fallback;
                            gd_summary := summaryOf fallback;
                            gd_probeResults := None;
                            gd_inferred := None;
                            gd_detected := None |};
              gr_cached := false;
              gr_note := Some (js "Returned fallback due to generation error") |},
           w2)
      end
  end.

End Generation.

(* ===================================================================== *)
(** ** Concrete collaborators for the examples *)
(* ===================================================================== *)

Module Examples.

(** A small Ajv: boolean schemas, and object schemas whose ["type"] is
    checked against the kind of the data. *)
Definition kindOf (data : json) : jsstr :=
  match data with
  | JNull => js "null"
  | JBool _ => js "boolean"
  | JNum _ | JNaN => js "number"
  | JStr _ => js "string"
  | JArr _ => js "array"
  | JObj _ => js "object"
  end.

Definition validatorOf (schema : json) : Exc (json -> option json) :=
  match schema with
  | JBool true => Ok (fun _ => None)
  | JBool false =>
      Ok (fun _ => Some (JArr [JObj [(js "message", JStr (js "boolean schema is false"))]]))
  | JObj fields =>
      match lookupField (js "type") fields with
      | Some (JStr t) =>
          Ok (fun data =>
                if str_eqb (kindOf data) t then None
                else Some (JArr [JObj [(js "message", JStr (js "must be " ++ t))]]))
      | Some _ => Throw (js "type must be a string")
      | None => Ok (fun _ => None)
      end
  | _ => Throw (js "schema must be object or boolean")
  end.

(** The identifier under which an instance registers a schema: its [$id],
    when that is a non-empty string. *)
Definition schemaId (schema : json) : option jsstr :=
  match schema with
  | JObj fields =>
      match lookupField (js "$id") fields with
      | Some (JStr id) => match id with [] => None | _ => Some id end
      | _ => None
      end
  | _ => None
  end.

(** [compile] on an instance that remembers the identifiers of the schemas
    it has compiled: a second schema object with a known identifier is
    refused. *)
Definition miniAjv (ids : list jsstr) (schema : json)
  : Exc (json -> option json) * list jsstr :=
  match schemaId schema with
  | Some id =>
      if existsb (str_eqb id) ids
      then (Throw (js "schema with key or id " ++ [34%N] ++ id ++ [34%N]
                   ++ js " already exists"),
            ids)
      else (validatorOf schema, id :: ids)
  | None => (validatorOf schema, ids)
  end.

(** An instance that has compiled nothing yet. *)
Definition freshAjv : list jsstr := [].

(** A strict reader for the JSON of the examples: arrays, objects,
    integers, [null], [true], [false], and strings whose only escapes are
    the quote, the backslash and the slash.  Duplicate keys are kept as
    written.  It accepts only well-formed text. *)
Definition isJsonWhite (c : N) : bool :=
  ((c =? 32) || (c =? 9) || (c =? 10) || (c =? 13))%N.
Fixpoint skipWhite (s : jsstr) : jsstr :=
  match s with
  | c :: r => if isJsonWhite c then skipWhite r else s
  | [] => []
  end.

(** The rest of a string literal after its opening quote. *)
Fixpoint readString (s : jsstr) : option (jsstr * jsstr) :=
  match s with
  | [] => None
  | c :: r =>
      if (c =? 34)%N then Some ([], r)
      else if (c =? 92)%N then
        match r with
        | e :: r' =>
            if ((e =? 34) || (e =? 92) || (e =? 47))%N then
              match readString r' with
              | Some (str, rest) => Some (e :: str, rest)
              | None => None
              end
            else None
        | [] => None
        end
      else if (c <? 32)%N then None
      else
        match readString r with
        | Some (str, rest) => Some (c :: str, rest)
        | None => None
        end
  end.

Fixpoint readValue (fuel : nat) (s : jsstr) : option (json * jsstr) :=
  match fuel with
  | O => None
  | S f =>
      let s := skipWhite s in
      if startsWith s (js "null") then Some (JNull, skipn 4 s)
      else if startsWith s (js "true") then Some (JBool true, skipn 4 s)
      else if startsWith s (js "false") then Some (JBool false, skipn 5 s)
      else
        match s with
        | [] => None
        | c :: r =>
            if (c =? 34)%N then
              match readString r with
              | Some (str, rest) => Some (JStr str, rest)
              | None => None
              end
            else if (c =? lbracket)%N then
              match skipWhite r with
              | d :: r' =>
                  if (d =? rbracket)%N then Some (JArr [], r')
                  else
                    match readItems f r with
                    | Some (items, rest) => Some (JArr items, rest)
                    | None => None
                    end
              | [] => None
              end
            else if (c =? lbrace)%N then
              match skipWhite r with
              | d :: r' =>
                  if (d =? rbrace)%N then Some (JObj [], r')
                  else
                    match readMembers f r with
                    | Some (members, rest) => Some (JObj members, rest)
                    | None => None
                    end
              | [] => None
              end
            else if (c =? 45)%N then
              match r with
              | d :: _ =>
                  if isDigit d
                  then let '(n, rest) := readDigits 0 r in Some (JNum (- n), rest)
                  else None
              | [] => None
              end
            else if isDigit c
            then let '(n, rest) := readDigits 0 s in Some (JNum n, rest)
            else None
        end
  end
with readItems (fuel : nat) (s : jsstr) : option (list json * jsstr) :=
  match fuel with
  | O => None
  | S f =>
      match readValue f s with
      | Some (v, rest) =>
          match skipWhite rest with
          | d :: r' =>
              if (d =? comma)%N then
                match readItems f r' with
                | Some (items, rest') => Some (v :: items, rest')
                | None => None
                end
              else if (d =? rbracket)%N then Some ([v], r')
              else None
          | [] => None
          end
      | None => None
      end
  end
with readMembers (fuel : nat) (s : jsstr)
  : option (list (jsstr * json) * jsstr) :=
  match fuel with
  | O => None
  | S f =>
      match skipWhite s with
      | q :: r =>
          if (q =? 34)%N then
            match readString r with
            | Some (key, rest) =>
                match skipWhite rest with
                | colon :: r2 =>
                    if (colon =? 58)%N then
                      match readValue f r2 with
                      | Some (v, rest2) =>
                          match skipWhite rest2 with
                          | d :: r3 =>
                              if (d =? comma)%N then
                                match readMembers f r3 with
                                | Some (members, rest3) =>
                                    Some ((key, v) :: members, rest3)
                                | None => None
                                end
                              else if (d =? rbrace)%N then Some ([(key, v)], r3)
                              else None
                          | [] => None
                          end
                      | None => None
                      end
                    else None
                | [] => None
                end
            | None => None
            end
          else None
      | [] => None
      end
  end.

Definition parseJson (text : jsstr) : option json :=
  match readValue (2 * length text + 2) text with
  | Some (v, rest) =>
      match skipWhite rest with
      | [] => Some v
      | _ => None
      end
  | None => None
  end.

Definition quote (s : jsstr) : jsstr :=
  [34%N]
  ++ flat_map (fun c => if ((c =? 34) || (c =? 92))%N then [92%N; c] else [c]) s
  ++ [34%N].

Fixpoint stringifyJson (v : json) : jsstr :=
  match v with
  | JNull | JNaN => js "null"
  | JBool true => js "true"
  | JBool false => js "false"
  | JNum n => numToString n
  | JStr s => quote s
  | JArr items => js "[" ++ join (js ",") (map stringifyJson items) ++ js "]"
  | JObj fields =>
      js "{"
      ++ join (js ",")
           (map (fun kv => let '(k, x) := kv in quote k ++ js ":" ++ stringifyJson x)
                fields)
      ++ js "}"
  end.

Definition builtins : Builtins :=
  {| JSON_parse := parseJson;
     JSON_stringify := stringifyJson;
     Ajv := list jsstr;
     ajv_compile := miniAjv |}.

(** A static target answering every request with the same status. *)
Definition staticTarget (status : Z) (data : json) : AxiosConfig -> Transport :=
  fun _ =>
    Responded {| resp_status := status; resp_statusText := [];
                 resp_data := data; resp_headers := [] |}.

(** A target that is down. *)
Definition deadTarget : AxiosConfig -> Transport :=
  fun _ =>
    Rejected (js "Error") (Some (js "ECONNREFUSED"))
      (js "connect ECONNREFUSED 127.0.0.1:80").

Definition getCase (id endpoint : jsstr) (expected : ExpectedStatus)
    (schema : option json) : TestCase :=
  {| tc_id := id; tc_category := js "valid"; tc_description := Some (js "example");
     tc_request := {| req_method := Some (js "get"); req_endpoint := endpoint;
                      req_headers := None; req_body := None |};
     tc_expected_response := Some {| exp_status := expected; exp_schema := schema |} |}.

(** Twelve test cases: the expected status cycles through 200, 201 and
    absent; every fourth endpoint is relative. *)
Definition suiteCase (i : nat) : TestCase :=
  getCase (js "TC_" ++ padStart0 3 (natToString (S i)))
    (if (i mod 4 =? 3)%nat then js "/users" else js "http://x.com/users")
    (match (i mod 3)%nat with
     | O => StatusOne 200
     | 1%nat => StatusOne 201
     | _ => StatusAbsent
     end)
    None.

Definition suite : list TestCase := map suiteCase (seq 0 12).





Definition noOutput : RunOutput :=
  {| out_results := [];
     out_summary := {| sum_total := 0; sum_passed := 0; sum_failed := 0;
                       sum_errors := 0; sum_target := None |};
     out_suggestions := []; out_written := None |}.

Definition outputOf (run : option (Exc RunOutput)) : RunOutput :=
  match run with
  | Some (Ok out) => out
  | _ => noOutput
  end.

(** The suite against a static target answering 200, without a base URL,
    on an instance that has compiled nothing yet: one task at a time, and
    up to ten at once. *)
Definition runOneByOne : option (Exc RunOutput) :=
  runTestSuite (B := builtins) (staticTarget 200 JNull) suite None (Some 1)
    defaultOptions freshAjv (sequentialSchedule 12).

Definition runTenAtOnce : option (Exc RunOutput) :=
  runTestSuite (B := builtins) (staticTarget 200 JNull) suite None (Some 10)
    defaultOptions freshAjv (batchSchedule 10 12).





(** A specification for the generation examples, a world with an empty
    cache, and outside worlds: a model that is down, a model answering
    with an array holding [null], a model answering three cases inside a
    code fence, a target that answers 401, and one whose first request
    fails. *)
Definition usersSpec (autoProbe : bool) : EndpointSpec :=
  {| spec_method := Some (js "GET"); spec_endpoint := Some (js "/users");
     spec_headers := Some []; spec_body := None;
     spec_expectedStatus := Some (JNum 200); spec_overrides := None;
     spec_autoProbe := autoProbe; spec_sampleValidToken := None;
     spec_sampleValidApiKey := None;
     spec_targetUrl := Some (js "http://x.com"); spec_baseUrl := None |}.

Definition freshWorld : World :=
  {| w_now := 1000; w_cache := ∅; w_requests := []; w_prompts := [] |}.

Definition modelDown : nat -> jsstr -> ModelReply :=
  fun _ _ => ModelThrows (js "503 Service Unavailable").

Definition modelNullItem : nat -> jsstr -> ModelReply :=
  fun _ _ => ModelText (js "[null]").

Definition modelThreeCases : nat -> jsstr -> ModelReply :=
  fun _ _ =>
    ModelText
      (js "Sure! ```json" ++ [10%N]
       ++ doubleQuoted (js "[{'category':'valid','description':'List users'},{'category':'Invalid','description':'No token'},{'category':'security','description':'XSS probe','request':{'method':'post'},'expected_response':{'status':'400'}},]")
       ++ [10%N] ++ js "``` Let me know if you need more.").

Definition answers (status : Z) : nat -> AxiosConfig -> Transport :=
  fun _ cfg => staticTarget status (JStr (js "unauthorized")) cfg.

Definition firstRequestFails : nat -> AxiosConfig -> Transport :=
  fun n cfg =>
    match n with
    | O => Rejected (js "AxiosError") (Some (js "ECONNABORTED"))
             (js "timeout of 4000ms exceeded")
    | _ => staticTarget 401 (JStr (js "unauthorized")) cfg
    end.

Definition instant : nat -> Z := fun _ => 0.

(** A first generation that fills the cache, and the world four minutes
    after it. *)
Definition firstGeneration : GenResult * World :=
  generateTestCases (B := builtins) (answers 401) modelThreeCases instant
    (usersSpec false) freshWorld.

Definition fourMinutesLater (w : World) : World :=
  {| w_now := w_now w + 240000; w_cache := w_cache w;
     w_requests := w_requests w; w_prompts := w_prompts w |}.

End Examples.


(* ===================================================================== *)
(** ** utils/resolveUrl.js: the URL of a test case *)
(* ===================================================================== *)


(* ===================================================================== *)
(** ** Vocabulary of the further properties of the runner *)
(* ===================================================================== *)

(** The headers of the test case as the runner copies them:
    [{ ...(test.request.headers || {}) }]. *)
Definition ownHeaders (test : TestCase) : list (jsstr * json) :=
  match req_headers (tc_request test) with Some h => assign h [] | None => [] end.

Definition defaultUserAgent : jsstr := js "Mozilla/5.0 (compatible; API-Tester/1.0)".

(* ===================================================================== *)
(** ** Vocabulary of the further properties of the generation service *)
(* ===================================================================== *)

(** From [w] to [w'] the requests [sent] went to the target and nothing
    else happened but the passing of time: the cache and the log of the
    model calls are as they were. *)
Definition sendsOnly (w w' : World) (sent : list AxiosConfig) : Prop :=
  w_cache w' = w_cache w /\ w_prompts w' = w_prompts w /\
  w_requests w' = w_requests w ++ sent.

(** A probe request: upper-cased method of the specification, timeout of
    four seconds, at most five redirects. *)
Definition isProbeOf (spec : EndpointSpec) (cfg : AxiosConfig) : Prop :=
  cfg_method cfg = toUpperCase (strOr (spec_method spec) (js "GET")) /\
  cfg_timeout cfg = 4000 /\ cfg_maxRedirects cfg = 5.

(* ===================================================================== *)
(** ** Vocabulary of the further properties of the text utilities *)
(* ===================================================================== *)

(** A unit that belongs to none of the classes [cleanGarbage] removes or
    replaces. *)
Definition garbageFree (c : N) : bool :=
  negb (isBOM c || isMangledEllipsis c || isC0 c || isZeroWidth c).


(* ===================================================================== *)
(** ** schemas/validation.js: the endpoint of a request *)
(* ===================================================================== *)

Module Validation.

(** The callback of [z.preprocess]: [null] is passed on; anything else is
    turned into a string and trimmed, and a string that is neither empty,
    nor an absolute URL, nor a path starting with a slash gets a slash in
    front. *)
Definition preprocessEndpoint (val : json) : json :=
  match val with
  | JNull => JNull
  | _ =>
      let s := trim (js_String val) in
      JStr (if isAbsoluteHttp s then s
            else if str_eqb s [] then s
            else if startsWith s (js "/") then s
            else js "/" ++ s)
  end.

(** A line terminator: what the [.] of a regex does not match. *)
Definition isLineTerminator (c : N) : bool :=
  ((c =? 10) || (c =? 13) || (c =? 0x2028) || (c =? 0x2029))%N.

(** [.+] at the start of [s]. *)
Definition someUnit (s : jsstr) : bool :=
  match s with
  | c :: _ => negb (isLineTerminator c)
  | [] => false
  end.

(** The callback of [refine]:
    [/^\/.+/.test(val) || /^https?:\/\/.+/i.test(val)]. *)
Definition endpointPattern (val : jsstr) : bool :=
  match val with
  | c :: r => isSlash c && someUnit r
  | [] => false
  end
  || startsWith (toLowerCase val) (js "http://") && someUnit (skipn 7 val)
  || startsWith (toLowerCase val) (js "https://") && someUnit (skipn 8 val).

End Validation.
Export Validation.

(* ===================================================================== *)
(** ** Further sample data *)
(* ===================================================================== *)

Module Samples.



(** Two test cases that a target answering 200 satisfies, and their run
    with both requests in flight at once. *)
Definition cleanSuite : list TestCase :=
  [ Examples.getCase (js "TC_001") (js "http://x.com/a") (StatusOne 200) None;
    Examples.getCase (js "TC_002") (js "/b") StatusAbsent None ].

Definition cleanRun : option (Exc RunOutput) :=
  runTestSuite (B := Examples.builtins) (Examples.staticTarget 200 JNull) cleanSuite
    (Some (js "http://x.com")) (Some 2) defaultOptions Examples.freshAjv
    [Launch 0; Launch 0; Settle 0 1; Settle 1 2].

(** A generation with probing, against a target that answers 200. *)
Definition probedGeneration : GenResult * World :=
  generateTestCases (B := Examples.builtins) (Examples.answers 200)
    Examples.modelThreeCases Examples.instant (Examples.usersSpec true)
    Examples.freshWorld.

End Samples.

(* ===================================================================== *)
(** * Properties *)
(* ===================================================================== *)

(** ** Strings *)

Lemma str_eqb_eq (a b : jsstr) : str_eqb a b = true <-> a = b.
Proof.
  revert b; induction a as [|x a IH]; intros [|y b]; simpl; split;
    try congruence; try reflexivity.
  - intros H. apply andb_true_iff in H as [Hx Hr].
    apply N.eqb_eq in Hx. apply IH in Hr. congruence.
  - intros H. injection H as -> ->. rewrite N.eqb_refl. simpl. now apply IH.
Qed.

Lemma str_eqb_refl (a : jsstr) : str_eqb a a = true.
Proof. now apply str_eqb_eq. Qed.

Lemma str_eqb_neq (a b : jsstr) : str_eqb a b = false <-> a <> b.
Proof.
  destruct (str_eqb a b) eqn:E; split; try congruence.
  - apply str_eqb_eq in E. intros H. contradiction.
  - intros _ H. apply str_eqb_eq in H. congruence.
Qed.

(** ** resolveTestUrl *)

(** What [base.replace(/\/+$/, empty)] leaves: a prefix of [base] that does not
    end with a unit of the stripped class, the rest being such units. *)
Lemma dropTrailing_split (p : N -> bool) (s : jsstr) :
  exists t, s = dropTrailing p s ++ t /\ forallb p t = true /\
            forall b' y, p y = true -> dropTrailing p s <> b' ++ [y].
Proof.
  induction s as [|c r IH]; simpl.
  - exists []. split; [reflexivity | split; [reflexivity |]].
    intros [|? ?] y _; discriminate.
  - destruct IH as (t & Hr & Ht & Hend).
    destruct (dropTrailing p r) as [|x d] eqn:E.
    + simpl in Hr. subst t. destruct (p c) eqn:Pc.
      * exists (c :: r). split; [reflexivity | split].
        -- simpl. now rewrite Pc, Ht.
        -- intros [|? ?] y _; discriminate.
      * exists r. split; [reflexivity | split; [exact Ht |]].
        intros [|z b'] y Py H; simpl in H.
        -- injection H as ->. congruence.
        -- injection H as _ H. destruct b'; discriminate.
    + exists t. split; [simpl; now rewrite Hr at 1 | split; [exact Ht |]].
      intros [|z b'] y Py H; simpl in H.
      * discriminate.
      * injection H as _ H. now apply (Hend b' y).
Qed.

Lemma forallb_isSlash_repeat (t : jsstr) :
  forallb isSlash t = true -> t = repeat slash (length t).
Proof.
  induction t as [|c t IH]; simpl; auto.
  intros H. apply andb_true_iff in H as [Hc Ht].
  apply N.eqb_eq in Hc. subst c. f_equal. now apply IH.
Qed.

(** C7, counterexample: an endpoint that already starts with two slashes
    keeps both, so the joined URL does not carry exactly one leading slash
    on the endpoint part. *)
Lemma resolveTestUrl_keeps_double_slash :
  resolveTestUrl (js "//users") (Some (js "http://x.com"))
    = Ok (js "http://x.com//users")
  /\ joinUrl_exactly_one_slash (js "http://x.com") (js "//users")
    = js "http://x.com/users"
  /\ resolveTestUrl (js "//users") (Some (js "http://x.com"))
    <> Ok (joinUrl_exactly_one_slash (js "http://x.com") (js "//users")).
Proof. repeat split; try reflexivity. vm_compute. discriminate. Qed.

(** C7 (amended): an endpoint matching the absolute [http(s)://] pattern is
    returned unchanged; a relative endpoint throws when the base URL is
    absent or empty; otherwise the result is the base with all its trailing
    slashes stripped, followed by the endpoint, which gets one slash in
    front only when it does not already start with one. *)
Theorem resolveTestUrl_contract :
  (forall endpoint targetUrl,
      isAbsoluteHttp endpoint = true ->
      resolveTestUrl endpoint targetUrl = Ok endpoint) /\
  (forall endpoint targetUrl,
      isAbsoluteHttp endpoint = false ->
      targetUrl = None \/ targetUrl = Some [] ->
      exists msg, resolveTestUrl endpoint targetUrl = Throw msg) /\
  (forall endpoint base,
      isAbsoluteHttp endpoint = false -> base <> [] ->
      exists b k,
        base = b ++ repeat slash k /\
        (forall b', b <> b' ++ [slash]) /\
        resolveTestUrl endpoint (Some base)
          = Ok (b ++ (if startsWith endpoint (js "/") then endpoint
                      else js "/" ++ endpoint))) /\
  resolveTestUrl (js "/users") (Some (js "http://x.com/"))
    = Ok (js "http://x.com/users") /\
  resolveTestUrl (js "http://y.com/a") (Some (js "http://x.com"))
    = Ok (js "http://y.com/a") /\
  (exists msg, resolveTestUrl (js "users") None = Throw msg).
Proof.
  repeat split.
  - intros endpoint targetUrl H. unfold resolveTestUrl. now rewrite H.
  - intros endpoint targetUrl H [-> | ->]; unfold resolveTestUrl; rewrite H;
      eexists; reflexivity.
  - intros endpoint base H Hne. unfold resolveTestUrl. rewrite H.
    destruct base as [|c base']; [congruence|].
    destruct (dropTrailing_split isSlash (c :: base')) as (t & Hs & Ht & Hend).
    exists (dropTrailing isSlash (c :: base')), (length t).
    split; [|split].
    + rewrite <- (forallb_isSlash_repeat t Ht). exact Hs.
    + intros b'. apply Hend. apply N.eqb_refl.
    + reflexivity.
  - eexists; reflexivity.
Qed.

Lemma resolveTestUrl_contract_witness :
  exists b k,
    js "http://x.com///" = b ++ repeat slash k /\
    (forall b', b <> b' ++ [slash]) /\
    resolveTestUrl (js "users") (Some (js "http://x.com///"))
    = Ok (b ++ (if startsWith (js "users") (js "/") then js "users"
                else js "/" ++ js "users")).
Proof.
  destruct resolveTestUrl_contract as (_ & _ & Hjoin & _).
  apply (Hjoin (js "users") (js "http://x.com///")).
  - reflexivity.
  - vm_compute. discriminate.
Defined.

(** ** executeSingleTest *)

Section RunnerFacts.
Context {B : Builtins}.
Variable target : AxiosConfig -> Transport.

Lemma statuses_distinct : PASSED <> FAILED /\ PASSED <> ERROR /\ FAILED <> ERROR.
Proof. repeat split; vm_compute; discriminate. Qed.

Lemma includesStatus_In (expected : list Z) (observed : Z) :
  includesStatus expected observed = true <-> In observed expected.
Proof.
  unfold includesStatus. rewrite existsb_exists. split.
  - intros (x & Hin & Heq). apply Z.eqb_eq in Heq. now subst.
  - intros Hin. exists observed. split; [exact Hin | apply Z.eqb_refl].
Qed.

(** The three shapes of a result, by what happened to the request. *)
Lemma executeSingleTest_unresolved test baseUrl elapsed ajv message :
  resolveTestUrl (req_endpoint (tc_request test)) baseUrl = Throw message ->
  let r := fst (executeSingleTest target test baseUrl elapsed ajv) in
  rr_status r = ERROR /\ rr_actual r = None /\
  rr_expected r = normalizeExpectedStatuses (expectedStatusOf test).
Proof. intros Hres. unfold executeSingleTest. rewrite Hres. simpl. auto. Qed.

Lemma executeSingleTest_rejected test baseUrl elapsed ajv fullUrl name code message :
  resolveTestUrl (req_endpoint (tc_request test)) baseUrl = Ok fullUrl ->
  target (requestFor test fullUrl) = Rejected name code message ->
  let r := fst (executeSingleTest target test baseUrl elapsed ajv) in
  rr_status r = ERROR /\ rr_actual r = None /\
  rr_expected r = normalizeExpectedStatuses (expectedStatusOf test).
Proof.
  intros Hres Hreq. unfold executeSingleTest. rewrite Hres. simpl.
  rewrite Hreq. simpl. auto.
Qed.

Lemma executeSingleTest_responded test baseUrl elapsed ajv fullUrl response :
  resolveTestUrl (req_endpoint (tc_request test)) baseUrl = Ok fullUrl ->
  target (requestFor test fullUrl) = Responded response ->
  let r := fst (executeSingleTest target test baseUrl elapsed ajv) in
  rr_status r =
    (if includesStatus (normalizeExpectedStatuses (expectedStatusOf test))
          (resp_status response)
        && fst (fst (checkSchema test (resp_data response) ajv))
     then PASSED else FAILED) /\
  (exists actual, rr_actual r = Some actual /\
                  act_status actual = resp_status response) /\
  rr_expected r = normalizeExpectedStatuses (expectedStatusOf test).
Proof.
  intros Hres Hreq. unfold executeSingleTest. rewrite Hres. simpl.
  rewrite Hreq. destruct (checkSchema test (resp_data response) ajv) as [[ok errs] ajv'].
  simpl. repeat split. eexists. split; reflexivity.
Qed.

Lemma executeSingleTest_cases test baseUrl :
  (exists message,
      resolveTestUrl (req_endpoint (tc_request test)) baseUrl = Throw message) \/
  (exists fullUrl name code message,
      resolveTestUrl (req_endpoint (tc_request test)) baseUrl = Ok fullUrl /\
      target (requestFor test fullUrl) = Rejected name code message) \/
  (exists fullUrl response,
      resolveTestUrl (req_endpoint (tc_request test)) baseUrl = Ok fullUrl /\
      target (requestFor test fullUrl) = Responded response).
Proof.
  destruct (resolveTestUrl (req_endpoint (tc_request test)) baseUrl)
    as [fullUrl | message] eqn:Hres.
  - right. destruct (target (requestFor test fullUrl))
      as [response | name code msg] eqn:Hreq.
    + right. eauto.
    + left. eauto 7.
  - left. eauto.
Qed.

Lemma executeSingleTest_status test baseUrl elapsed ajv :
  let r := fst (executeSingleTest target test baseUrl elapsed ajv) in
  rr_status r = PASSED \/ rr_status r = FAILED \/ rr_status r = ERROR.
Proof.
  destruct (executeSingleTest_cases test baseUrl)
    as [(m & Hres) | [(u & n & c & m & Hres & Hreq) | (u & resp & Hres & Hreq)]].
  - right; right. now apply (executeSingleTest_unresolved _ _ elapsed ajv) in Hres.
  - right; right.
    now apply (executeSingleTest_rejected _ _ elapsed ajv _ _ _ _ Hres) in Hreq.
  - destruct (executeSingleTest_responded _ _ elapsed ajv _ _ Hres Hreq) as (Hst & _).
    simpl in *. rewrite Hst.
    destruct (_ && _); auto.
Qed.

(** A result says PASSED only when its observed status was expected. *)
Lemma executeSingleTest_passed_expected test baseUrl elapsed ajv actual :
  let r := fst (executeSingleTest target test baseUrl elapsed ajv) in
  rr_actual r = Some actual ->
  rr_status r = PASSED ->
  includesStatus (rr_expected r) (act_status actual) = true.
Proof.
  simpl. intros Hact Hpass.
  destruct (executeSingleTest_cases test baseUrl)
    as [(m & Hres) | [(u & n & c & m & Hres & Hreq) | (u & resp & Hres & Hreq)]].
  - apply (executeSingleTest_unresolved _ _ elapsed ajv) in Hres.
    simpl in Hres. destruct Hres as (_ & Hnone & _). congruence.
  - apply (executeSingleTest_rejected _ _ elapsed ajv _ _ _ _ Hres) in Hreq.
    simpl in Hreq. destruct Hreq as (_ & Hnone & _). congruence.
  - destruct (executeSingleTest_responded _ _ elapsed ajv _ _ Hres Hreq)
      as (Hst & (a & Ha & Hobs) & Hexp).
    simpl in *. rewrite Hexp. assert (a = actual) by congruence. subst a.
    rewrite Hobs. rewrite Hst in Hpass.
    destruct (includesStatus _ _); [reflexivity |].
    simpl in Hpass. destruct statuses_distinct as (Hpf & _). congruence.
Qed.

End RunnerFacts.

(** ** Classification *)

Section ClassificationFacts.
Context {B : Builtins}.
Variable target : AxiosConfig -> Transport.


Lemma checkSchema_ok test data ajv :
  fst (fst (checkSchema test data ajv)) = true <->
  (forall schema, enforcedSchema test = Some schema -> validatesOn ajv schema data).
Proof.
  unfold checkSchema, enforcedSchema, validatesOn.
  destruct (tc_expected_response test) as [e|]; [|split; [discriminate | reflexivity]].
  destruct (exp_schema e) as [schema|]; [|split; [discriminate | reflexivity]].
  destruct (truthy schema); [|split; [discriminate | reflexivity]].
  destruct (ajv_compile ajv schema) as [[validate | msg] ajv'] eqn:Hc.
  - destruct (validate data) as [errs|] eqn:Hv; simpl; split.
    + discriminate.
    + intros Hall. destruct (Hall schema eq_refl) as (v & Hv1 & Hv2).
      rewrite Hc in Hv1. simpl in Hv1.
      assert (v = validate) by congruence. subst v. congruence.
    + intros _ s' Hs'. injection Hs' as <-. exists validate.
      split; [now rewrite Hc | exact Hv].
    + reflexivity.
  - simpl. split; [discriminate |].
    intros Hall. destruct (Hall schema eq_refl) as (v & Hv1 & _).
    rewrite Hc in Hv1. discriminate.
Qed.


(** C10: with [expected_response.status] absent or [null] the expected set
    is the default [200]; every result reports it, ERROR results included,
    and a completed request is classified against it. *)
Theorem executeSingleTest_default_expected test baseUrl elapsed ajv :
  expectedStatusOf test = StatusAbsent \/ expectedStatusOf test = StatusNull ->
  let r := fst (executeSingleTest target test baseUrl elapsed ajv) in
  rr_expected r = [200] /\
  (forall message,
      resolveTestUrl (req_endpoint (tc_request test)) baseUrl = Throw message ->
      rr_status r = ERROR) /\
  (forall fullUrl name code message,
      resolveTestUrl (req_endpoint (tc_request test)) baseUrl = Ok fullUrl ->
      target (requestFor test fullUrl) = Rejected name code message ->
      rr_status r = ERROR) /\
  (forall fullUrl response,
      resolveTestUrl (req_endpoint (tc_request test)) baseUrl = Ok fullUrl ->
      target (requestFor test fullUrl) = Responded response ->
      (rr_status r = PASSED <->
         resp_status response = 200 /\
         (forall schema, enforcedSchema test = Some schema ->
                         validatesOn ajv schema (resp_data response)))).
Proof.
  intros Hdef. cbv zeta.
  assert (Hnorm : normalizeExpectedStatuses (expectedStatusOf test) = [200])
    by (destruct Hdef as [-> | ->]; reflexivity).
  split; [|split; [|split]].
  - destruct (executeSingleTest_cases target test baseUrl)
      as [(m & Hres) | [(u & n & c & m & Hres & Hreq) | (u & resp & Hres & Hreq)]].
    + apply (executeSingleTest_unresolved target _ _ elapsed ajv) in Hres.
      destruct Hres as (_ & _ & ->). exact Hnorm.
    + apply (executeSingleTest_rejected target _ _ elapsed ajv _ _ _ _ Hres) in Hreq.
      destruct Hreq as (_ & _ & ->). exact Hnorm.
    + destruct (executeSingleTest_responded target _ _ elapsed ajv _ _ Hres Hreq)
        as (_ & _ & ->). exact Hnorm.
  - intros message Hres.
    now apply (executeSingleTest_unresolved target _ _ elapsed ajv) in Hres.
  - intros fullUrl name code message Hres Hreq.
    now apply (executeSingleTest_rejected target _ _ elapsed ajv _ _ _ _ Hres) in Hreq.
  - intros fullUrl response Hres Hreq.
    destruct (executeSingleTest_responded target _ _ elapsed ajv _ _ Hres Hreq)
      as (Hst & _).
    cbv zeta in Hst. rewrite Hst, Hnorm, <- checkSchema_ok.
    destruct statuses_distinct as (Hpf & _).
    unfold includesStatus. simpl. rewrite orb_false_r.
    destruct (Z.eqb_spec (resp_status response) 200) as [H200 | H200];
      destruct (fst (fst (checkSchema test (resp_data response) ajv))); simpl;
      split; try tauto; try congruence; intros [? ?]; congruence.
Qed.

End ClassificationFacts.

(** ** The pool and [runTestSuite] *)

Section PoolFacts.
Context {B : Builtins}.
Variable target : AxiosConfig -> Transport.
Variable testCases : list TestCase.
Variable targetUrl : option jsstr.

Local Abbreviation resultOf := (resultOf target targetUrl).
Local Abbreviation slotsAligned := (slotsAligned target testCases targetUrl).

Lemma slotsAligned_init ajv : slotsAligned (poolInit (length testCases) ajv).
Proof.
  split; simpl.
  - apply length_replicate.
  - intros i r Hi. apply lookup_replicate in Hi as [Hi _]. discriminate.
Qed.

Lemma slotsAligned_step concurrency st ev st' :
  slotsAligned st ->
  poolStep target testCases targetUrl concurrency st ev = Some st' ->
  slotsAligned st'.
Proof.
  intros [Hlen Hslots] Hstep. destruct ev as [dt | index dt]; simpl in Hstep.
  - destruct (pool_queue st) as [|i q]; [discriminate |].
    destruct (_ <? _)%nat; [|discriminate].
    injection Hstep as <-. split; assumption.
  - destruct (startedAt index (pool_active st)) as [started|]; [|discriminate].
    destruct (testCases !! index) as [tc|] eqn:Htc; [|discriminate].
    destruct (executeSingleTest _ _ _ _ _) as [result ajv'] eqn:Hexec.
    injection Hstep as <-. split; simpl.
    + rewrite length_insert. exact Hlen.
    + intros i r Hi. apply list_lookup_insert_Some in Hi
        as [(-> & Heq & _) | (Hne & Hi)].
      * injection Heq as <-. exists tc. split; [exact Htc |].
        eexists. eexists. now rewrite Hexec.
      * now apply Hslots.
Qed.

Lemma slotsAligned_run concurrency events st st' :
  slotsAligned st ->
  poolRun target testCases targetUrl concurrency st events = Some st' ->
  slotsAligned st'.
Proof.
  revert st. induction events as [|ev rest IH]; simpl; intros st Hinv Hrun.
  - now injection Hrun as <-.
  - destruct (poolStep target testCases targetUrl concurrency st ev) as [st1|] eqn:Hstep;
      [|discriminate].
    eapply IH; [|exact Hrun]. eapply slotsAligned_step; eauto.
Qed.

Lemma allSettled_aligned st results :
  slotsAligned st -> allSettled st = Some results ->
  Forall2 resultOf testCases results.
Proof.
  intros [Hlen Hslots] Hall. unfold allSettled in Hall.
  apply mapM_Some in Hall.
  apply Forall2_same_length_lookup_2.
  - rewrite <- Hlen. now apply Forall2_length in Hall.
  - intros i tc r Htc Hr.
    destruct (Forall2_lookup_r _ _ _ _ _ Hall Hr) as (slot & Hslot & ->).
    destruct (Hslots i r Hslot) as (tc' & Htc' & Hres).
    assert (tc' = tc) by congruence. now subst tc'.
Qed.

(** Whatever the schedule, the concurrency and the state of the shared
    Ajv instance, a run that resolves returns the report over the results
    of the test cases, in their order. *)
Lemma runTestSuite_results concurrency opts ajv events out :
  runTestSuite target testCases targetUrl concurrency opts ajv events = Some (Ok out) ->
  out = report (out_results out) targetUrl opts /\
  Forall2 resultOf testCases (out_results out).
Proof.
  unfold runTestSuite. destruct (_ <=? 0); [discriminate |].
  destruct (poolRun _ _ _ _ _ _) as [st|] eqn:Hrun; [|discriminate].
  destruct (allSettled st) as [results|] eqn:Hall; [|discriminate].
  intros Hout. injection Hout as <-. split; [reflexivity |]. simpl.
  eapply allSettled_aligned; [|exact Hall].
  eapply slotsAligned_run; [apply slotsAligned_init | exact Hrun].
Qed.




Lemma resultOf_trichotomy tc r :
  resultOf tc r ->
  rr_status r = PASSED \/ rr_status r = FAILED \/ rr_status r = ERROR.
Proof. intros (elapsed & ajv & ->). apply executeSingleTest_status. Qed.

Lemma hasWord_verdict r :
  (rr_status r = PASSED ->
     hasWord (js "PASSED") r = true /\ hasWord (js "FAILED") r = false
     /\ hasWord (js "ERROR") r = false) /\
  (rr_status r = FAILED ->
     hasWord (js "PASSED") r = false /\ hasWord (js "FAILED") r = true
     /\ hasWord (js "ERROR") r = false) /\
  (rr_status r = ERROR ->
     hasWord (js "PASSED") r = false /\ hasWord (js "FAILED") r = false
     /\ hasWord (js "ERROR") r = true).
Proof.
  unfold hasWord. repeat split; rewrite H; vm_compute; reflexivity.
Qed.

Lemma countStatus_partition (results : list RunResult) :
  Forall (fun r => isVerdict (rr_status r)) results ->
  length results
  = (countStatus (js "PASSED") results + countStatus (js "FAILED") results
     + countStatus (js "ERROR") results)%nat.
Proof.
  unfold countStatus. induction 1 as [|r rest Hr _ IH]; [reflexivity |].
  simpl. destruct (hasWord_verdict r) as (Hp & Hf & He).
  destruct Hr as [Hr | [Hr | Hr]];
    [destruct (Hp Hr) as (-> & -> & ->)
    | destruct (Hf Hr) as (-> & -> & ->)
    | destruct (He Hr) as (-> & -> & ->)];
    simpl; lia.
Qed.

(** On results that carry a verdict, the word search of the summary
    counts the results of that verdict. *)
Lemma countStatus_countVerdict (results : list RunResult) :
  Forall (fun r => isVerdict (rr_status r)) results ->
  countStatus (js "PASSED") results = countVerdict PASSED results /\
  countStatus (js "FAILED") results = countVerdict FAILED results /\
  countStatus (js "ERROR") results = countVerdict ERROR results.
Proof.
  unfold countStatus, countVerdict. induction 1 as [|r rest Hr _ IH];
    [repeat split |].
  destruct IH as (IHp & IHf & IHe).
  simpl. destruct (hasWord_verdict r) as (Hp & Hf & He).
  destruct Hr as [Hr | [Hr | Hr]];
    [destruct (Hp Hr) as (-> & -> & ->)
    | destruct (Hf Hr) as (-> & -> & ->)
    | destruct (He Hr) as (-> & -> & ->)];
    rewrite Hr; simpl; rewrite IHp, IHf, IHe; repeat split.
Qed.

Lemma results_verdicts (results : list RunResult) :
  Forall2 resultOf testCases results ->
  Forall (fun r => isVerdict (rr_status r)) results.
Proof.
  induction 1 as [|tc r tcs rs Hr _ IH]; constructor; [|exact IH].
  eapply resultOf_trichotomy; eauto.
Qed.

(** C9: in every run each result carries exactly one of the three
    verdicts PASSED, FAILED and ERROR, and the summary counts them all:
    [total] is the number of test cases and equals
    [passed + failed + errors], where [passed], [failed] and [errors] are
    the numbers of results of each verdict. *)
Theorem runTestSuite_summary_partition concurrency opts ajv events out :
  runTestSuite target testCases targetUrl concurrency opts ajv events = Some (Ok out) ->
  Forall (fun r => isVerdict (rr_status r)) (out_results out) /\
  (PASSED <> FAILED /\ PASSED <> ERROR /\ FAILED <> ERROR) /\
  sum_total (out_summary out) = length testCases /\
  sum_total (out_summary out)
  = (sum_passed (out_summary out) + sum_failed (out_summary out)
     + sum_errors (out_summary out))%nat /\
  sum_passed (out_summary out) = countVerdict PASSED (out_results out) /\
  sum_failed (out_summary out) = countVerdict FAILED (out_results out) /\
  sum_errors (out_summary out) = countVerdict ERROR (out_results out).
Proof.
  intros Hrun. apply runTestSuite_results in Hrun as [Hout Hall].
  pose proof (results_verdicts _ Hall) as Hv.
  split; [exact Hv | split; [exact statuses_distinct |]].
  rewrite Hout. simpl. split; [|split].
  - symmetry. now apply Forall2_length in Hall.
  - now apply countStatus_partition.
  - now apply countStatus_countVerdict.
Qed.



(** *** Suggestions *)

Lemma uniq_In seen xs x :
  In x (uniq seen xs) <-> In x xs /\ ~ In x seen.
Proof.
  revert seen. induction xs as [|y r IH]; intros seen; simpl; [tauto |].
  destruct (existsb (Z.eqb y) seen) eqn:E.
  - apply existsb_exists in E as (z & Hz & Hyz). apply Z.eqb_eq in Hyz. subst z.
    rewrite IH. split; [tauto |]. intros [[-> | Hin] Hn]; [contradiction | tauto].
  - assert (Hy : ~ In y seen).
    { intros Hin. apply not_true_iff_false in E. apply E.
      apply existsb_exists. exists y. split; [exact Hin | apply Z.eqb_refl]. }
    simpl. rewrite IH. simpl. split.
    + intros [<- | (Hin & Hn)]; [tauto |]. split; [tauto |]. tauto.
    + intros [[<- | Hin] Hn]; [tauto |].
      destruct (Z.eq_dec y x) as [-> | Hne]; [tauto |]. right. split; [exact Hin |].
      intros [Heq | Hs]; [contradiction | contradiction].
Qed.

Lemma uniq_NoDup seen xs : List.NoDup (uniq seen xs).
Proof.
  revert seen. induction xs as [|y r IH]; intros seen; simpl; [constructor |].
  destruct (existsb (Z.eqb y) seen); [apply IH |].
  constructor; [|apply IH]. rewrite uniq_In. simpl. tauto.
Qed.

Lemma insertAsc_In x y sorted : In y (insertAsc x sorted) <-> y = x \/ In y sorted.
Proof.
  induction sorted as [|z r IH]; simpl; [intuition |].
  destruct (x <=? z); simpl; [intuition |]. rewrite IH. intuition.
Qed.

Lemma sortAsc_In xs y : In y (sortAsc xs) <-> In y xs.
Proof.
  induction xs as [|x r IH]; simpl; [tauto |].
  rewrite insertAsc_In, IH. intuition.
Qed.

Lemma insertAsc_sorted x sorted :
  StronglySorted Z.lt sorted -> ~ In x sorted ->
  StronglySorted Z.lt (insertAsc x sorted).
Proof.
  induction 1 as [|z r Hs IH Hall]; intros Hn; simpl.
  - repeat constructor.
  - destruct (x <=? z) eqn:E.
    + apply Z.leb_le in E. assert (x < z) by (simpl in Hn; lia).
      constructor; [now constructor |]. constructor; [assumption |].
      eapply List.Forall_impl; [|exact Hall]. simpl. intros; lia.
    + apply Z.leb_gt in E. constructor.
      * apply IH. simpl in Hn. tauto.
      * apply List.Forall_forall. intros y Hy.
        apply insertAsc_In in Hy as [-> | Hy]; [exact E |].
        rewrite List.Forall_forall in Hall. now apply Hall.
Qed.

Lemma sortAsc_sorted xs : List.NoDup xs -> StronglySorted Z.lt (sortAsc xs).
Proof.
  induction 1 as [|x r Hn _ IH]; simpl; [constructor |].
  apply insertAsc_sorted; [exact IH |]. now rewrite sortAsc_In.
Qed.

(** The recommended set: strictly ascending (so free of duplicates) and
    holding exactly the expected statuses and the observed one. *)
Lemma recommended_spec expectedArr observed :
  StronglySorted Z.lt (recommended expectedArr observed) /\
  forall x, In x (recommended expectedArr observed)
            <-> In x expectedArr \/ x = observed.
Proof.
  unfold recommended. split.
  - apply sortAsc_sorted, uniq_NoDup.
  - intros x. rewrite sortAsc_In, uniq_In, in_app_iff. simpl. intuition.
Qed.

(** The relation between a result and the suggestion made for it. *)
Lemma suggestions_filter (results : list RunResult) :
  Forall (fun r => forall actual, rr_actual r = Some actual ->
                   rr_status r = PASSED ->
                   includesStatus (rr_expected r) (act_status actual) = true)
         results ->
  Forall2 (suggestionFor)
          (List.filter needsSuggestion results)
          (suggestExpectedStatusUpdates results).
Proof.
  induction 1 as [|r rest Hr _ IH]; simpl; [constructor |].
  unfold needsSuggestion at 1.
  destruct (rr_actual r) as [actual|] eqn:Hact.
  - destruct (includesStatus (rr_expected r) (act_status actual)) eqn:Hinc; simpl.
    + apply includesStatus_In in Hinc.
      destruct (List.in_dec Z.eq_dec (act_status actual) (rr_expected r));
        [|contradiction].
      rewrite andb_false_r. exact IH.
    + assert (Hnin : ~ In (act_status actual) (rr_expected r)).
      { intros Hin. apply includesStatus_In in Hin. congruence. }
      destruct (List.in_dec Z.eq_dec (act_status actual) (rr_expected r));
        [contradiction |].
      assert (Hnp : str_eqb (rr_status r) PASSED = false).
      { apply str_eqb_neq. intros Hp. specialize (Hr actual eq_refl Hp). congruence. }
      rewrite Hnp. simpl. constructor; [|exact IH].
      unfold suggestionFor. simpl. rewrite Hact.
      exists actual. repeat split; try reflexivity.
      * apply recommended_spec.
      * apply recommended_spec.
      * apply recommended_spec.
  - rewrite andb_false_r. simpl. exact IH.
Qed.

(** C6: the suggestions of a run are made exactly for the results that are
    not PASSED and whose observed status is not among the expected ones, in
    order; each recommends the expected statuses together with the
    observed one, without duplicates and in ascending order.  In particular
    a case expecting 200 that observes 201 is FAILED and its suggestion
    recommends [200; 201]. *)
Theorem runTestSuite_suggestions concurrency opts ajv events out :
  runTestSuite target testCases targetUrl concurrency opts ajv events = Some (Ok out) ->
  Forall2 suggestionFor
          (List.filter needsSuggestion (out_results out))
          (out_suggestions out) /\
  (forall tc r actual,
      resultOf tc r ->
      expectedStatusOf tc = StatusOne 200 ->
      rr_actual r = Some actual -> act_status actual = 201 ->
      rr_status r = FAILED /\
      map sg_recommendedExpected (suggestExpectedStatusUpdates [r]) = [[200; 201]]).
Proof.
  intros Hrun. apply runTestSuite_results in Hrun as [Hout Hall]. split.
  - rewrite Hout at 2. simpl. apply suggestions_filter.
    clear Hout. induction Hall as [|tc r tcs rs Hr _ IH]; constructor; [|exact IH].
    destruct Hr as (elapsed & a & ->). intros actual.
    apply executeSingleTest_passed_expected.
  - intros tc r actual (elapsed & a & ->) Hexp Hact Hobs.
    destruct (executeSingleTest_cases target tc targetUrl)
      as [(m & Hres) | [(u & n & c & m & Hres & Hreq) | (u & resp & Hres & Hreq)]].
    + apply (executeSingleTest_unresolved target _ _ elapsed a) in Hres.
      destruct Hres as (_ & Hnone & _). congruence.
    + apply (executeSingleTest_rejected target _ _ elapsed a _ _ _ _ Hres) in Hreq.
      destruct Hreq as (_ & Hnone & _). congruence.
    + destruct (executeSingleTest_responded target _ _ elapsed a _ _ Hres Hreq)
        as (Hst & (act & Ha & Hobs') & Hexp').
      cbv zeta in *. assert (act = actual) by congruence. subst act.
      rewrite Hexp in *. simpl in Hexp', Hst.
      rewrite <- Hobs', Hobs in Hst. simpl in Hst. split; [exact Hst |].
      unfold suggestExpectedStatusUpdates. simpl.
      rewrite Hact, Hexp', Hobs. reflexivity.
Qed.

(** *** Every run can complete *)

Lemma allSettled_filled (results : list RunResult) st :
  pool_slots st = map Some results -> allSettled st = Some results.
Proof.
  unfold allSettled. intros ->. induction results as [|r rs IH]; [reflexivity |].
  simpl. now rewrite IH.
Qed.

Lemma poolRun_sequential (c : nat) :
  (0 < c)%nat ->
  forall m k t filled ajv,
    (k + m)%nat = length testCases -> length filled = k ->
    exists t',
    poolRun target testCases targetUrl c
      {| pool_queue := seq k m; pool_active := [];
         pool_slots := filled ++ replicate m None; pool_clock := t;
         pool_ajv := ajv |}
      (flat_map (fun i => [Launch 0; Settle i 1]) (seq k m))
    = Some {| pool_queue := []; pool_active := [];
              pool_slots :=
                filled ++ map Some (fst (runInOrder target (drop k testCases)
                                           targetUrl 1 ajv));
              pool_clock := t';
              pool_ajv := snd (runInOrder target (drop k testCases) targetUrl 1 ajv) |}.
Proof.
  intros Hc. induction m as [|m IH]; intros k t filled ajv Hlen Hfilled.
  - exists t. simpl. rewrite drop_ge by lia. reflexivity.
  - assert (Hk : (k < length testCases)%nat) by lia.
    destruct (lookup_lt_is_Some_2 testCases k Hk) as [tc Htc].
    rewrite (drop_S _ _ _ Htc). cbn [runInOrder].
    destruct (executeSingleTest target tc targetUrl 1 ajv) as [r ajv1] eqn:Hexec.
    destruct (IH (S k) (t + 0 + 1)%nat (filled ++ [Some r]) ajv1)
      as [t' Hrun]; [lia | rewrite length_app; simpl; lia |].
    destruct (runInOrder target (drop (S k) testCases) targetUrl 1 ajv1)
      as [rs ajv2] eqn:Hrest.
    exists t'. cbn [seq flat_map app poolRun poolStep pool_queue pool_active].
    destruct c as [|c']; [lia |]. cbn [length Nat.ltb Nat.leb].
    cbn [poolStep pool_queue pool_active pool_slots pool_clock pool_ajv app].
    unfold startedAt. cbn [find fst snd option_map]. rewrite Nat.eqb_refl.
    cbn [option_map snd]. rewrite Htc.
    replace (t + 0 + 1 - (t + 0))%nat with 1%nat by lia.
    rewrite Hexec.
    cbn [List.filter fst negb]. rewrite Nat.eqb_refl. cbn [negb].
    replace (<[k:=Some r]> (filled ++ replicate (S m) None))
      with ((filled ++ [Some r]) ++ replicate m None).
    + rewrite Hrun. simpl. now rewrite <- app_assoc.
    + rewrite <- Hfilled. rewrite insert_app_r_alt by lia.
      rewrite Nat.sub_diag. simpl. now rewrite <- app_assoc.
Qed.

(** X18: for every admissible concurrency the run in which the test cases
    are executed one after the other resolves, with the results of executing
    them in order on the shared Ajv instance. *)
Lemma runTestSuite_sequential_completes (c : Z) opts ajv :
  1 <= c ->
  runTestSuite target testCases targetUrl (Some c) opts ajv
    (sequentialSchedule (length testCases))
  = Some (Ok (report (fst (runInOrder target testCases targetUrl 1 ajv))
                     targetUrl opts)).
Proof.
  intros Hc. unfold runTestSuite, sequentialSchedule, poolInit.
  destruct (c <=? 0) eqn:E; [apply Z.leb_le in E; lia |].
  destruct (poolRun_sequential (Z.to_nat c) ltac:(lia)
              (length testCases) 0%nat 0%nat [] ajv eq_refl eq_refl) as [t' Hrun].
  simpl in Hrun. rewrite Hrun.
  erewrite allSettled_filled; [reflexivity |]. reflexivity.
Qed.

End PoolFacts.

(** ** extractJson *)

Section ExtractorFacts.

Lemma removeAll_id (class : N -> bool) (text : jsstr) :
  forallb (fun c => negb (class c)) text = true -> removeAll class text = text.
Proof.
  unfold removeAll. induction text as [|c r IH]; simpl; [reflexivity |].
  intros H. apply andb_true_iff in H as [Hc Hr]. rewrite Hc. f_equal. now apply IH.
Qed.

Lemma isClean_classes (text : jsstr) :
  forallb isClean text = true ->
  forallb (fun c => negb (isBOM c)) text = true /\
  forallb (fun c => negb (isMangledEllipsis c)) text = true /\
  forallb (fun c => negb (isZeroWidth c)) text = true /\
  ~ In backtick text.
Proof.
  induction text as [|c r IH]; simpl; [tauto |].
  intros H. apply andb_true_iff in H as [Hc Hr].
  destruct (IH Hr) as (H1 & H2 & H3 & H4).
  unfold isClean in Hc. apply negb_true_iff in Hc.
  repeat (apply orb_false_iff in Hc as [Hc ?]).
  rewrite H1, H2, H3. rewrite Hc. simpl.
  repeat match goal with E : _ = false |- _ => rewrite E; clear E end.
  simpl. repeat split; auto.
  intros [Heq | Hin]; [|contradiction].
  subst c. vm_compute in H. discriminate.
Qed.

Lemma forallb_removeAll (p class : N -> bool) (text : jsstr) :
  forallb p text = true -> forallb p (removeAll class text) = true.
Proof.
  unfold removeAll. induction text as [|c r IH]; simpl; [reflexivity |].
  intros H. apply andb_true_iff in H as [Hc Hr].
  destruct (negb (class c)); simpl; [rewrite Hc |]; now apply IH.
Qed.

Lemma removeAll_In (class : N -> bool) (text : jsstr) (c : N) :
  In c (removeAll class text) -> In c text.
Proof. unfold removeAll. intros H. now apply filter_In in H. Qed.

Lemma mangled_id (text : jsstr) :
  forallb (fun c => negb (isMangledEllipsis c)) text = true ->
  flat_map (fun c => if isMangledEllipsis c then js "..." else [c]) text = text.
Proof.
  induction text as [|c r IH]; simpl; [reflexivity |].
  intros H. apply andb_true_iff in H as [Hc Hr]. apply negb_true_iff in Hc.
  rewrite Hc. simpl. f_equal. now apply IH.
Qed.

Lemma dropTrailing_keep (p : N -> bool) (b : jsstr) (y : N) :
  p y = false -> dropTrailing p (b ++ [y]) = b ++ [y].
Proof.
  intros Hy. induction b as [|c b IH]; simpl.
  - now rewrite Hy.
  - rewrite IH. destruct b; reflexivity.
Qed.

Lemma trim_keep (c y : N) (body : jsstr) :
  isWhite c = false -> isWhite y = false ->
  trim (c :: body ++ [y]) = c :: body ++ [y].
Proof.
  intros Hc Hy. unfold trim. simpl. rewrite Hc.
  now apply (dropTrailing_keep isWhite (c :: body) y).
Qed.

Lemma startsWith_head (s p : jsstr) (c : N) :
  startsWith s (c :: p) = true -> exists r, s = c :: r.
Proof.
  destruct s as [|x r]; simpl; [discriminate |].
  intros H. apply andb_true_iff in H as [Hx _]. apply N.eqb_eq in Hx.
  subst x. eauto.
Qed.

Lemma unwrapFences_id (text : jsstr) :
  ~ In backtick text -> unwrapFences 0 text = text.
Proof.
  induction text as [|c r IH]; [reflexivity |].
  intros Hn. cbn [unwrapFences].
  destruct (startsWith (c :: r) fence) eqn:E.
  - apply startsWith_head in E as [r' Heq]. injection Heq as -> _.
    exfalso. apply Hn. now left.
  - f_equal. apply IH. intros Hin. apply Hn. now right.
Qed.

Lemma splitAtFirst_unit (c : N) (body rest : jsstr) :
  ~ In c body -> splitAtFirst [c] (body ++ c :: rest) = Some (body, rest).
Proof.
  induction body as [|x body IH]; intros Hn.
  - simpl. rewrite N.eqb_refl. reflexivity.
  - assert (Hx : (x =? c)%N = false)
      by (apply N.eqb_neq; intros ->; apply Hn; now left).
    cbn [app splitAtFirst startsWith]. rewrite Hx. simpl.
    rewrite IH; [reflexivity |]. intros Hin. apply Hn. now right.
Qed.

Lemma splitAtFirst_unit_length (c : N) (s inner rest : jsstr) :
  splitAtFirst [c] s = Some (inner, rest) -> (S (length inner) <= length s)%nat.
Proof.
  revert inner rest. induction s as [|x s IH]; intros inner rest.
  - simpl. discriminate.
  - cbn [splitAtFirst startsWith]. destruct (x =? c)%N; simpl.
    + intros H. injection H as <- _. simpl. lia.
    + destruct (splitAtFirst [c] s) as [[b a]|] eqn:E; [|discriminate].
      intros H. injection H as <- _. simpl. specialize (IH _ _ eq_refl). lia.
Qed.

Lemma scanBlocks_skip_all (opening closing : N) (s : jsstr) (skip : nat) :
  (length s <= skip)%nat -> scanBlocks opening closing skip s = [].
Proof.
  revert skip. induction s as [|c r IH]; intros skip Hlen; [reflexivity |].
  simpl in Hlen. destruct skip as [|k]; [lia |]. simpl. apply IH. lia.
Qed.

Lemma scanBlocks_bound (opening closing : N) (s : jsstr) (skip : nat) (m : jsstr) :
  In m (scanBlocks opening closing skip s) -> (length m <= length s)%nat.
Proof.
  revert skip. induction s as [|c r IH]; intros skip; [simpl; tauto |].
  destruct skip as [|k]; cbn [scanBlocks].
  - destruct (c =? opening)%N.
    + destruct (splitAtFirst [closing] r) as [[inner rest]|] eqn:E.
      * apply splitAtFirst_unit_length in E.
        intros [<- | Hin].
        -- simpl. rewrite length_app. simpl. lia.
        -- apply IH in Hin. simpl. lia.
      * intros Hin. apply IH in Hin. simpl. lia.
    + intros Hin. apply IH in Hin. simpl. lia.
  - intros Hin. apply IH in Hin. simpl. lia.
Qed.

(** A flat block is the single match of its own regex. *)
Lemma scanBlocks_flat (opening closing : N) (body : jsstr) :
  ~ In closing body ->
  scanBlocks opening closing 0 (opening :: body ++ [closing])
  = [opening :: body ++ [closing]].
Proof.
  intros Hn. cbn [scanBlocks]. rewrite N.eqb_refl.
  rewrite (splitAtFirst_unit closing body [] Hn).
  f_equal. apply scanBlocks_skip_all. rewrite length_app. simpl. lia.
Qed.

(** Under the other regex a text scans like its tail when it does not
    start with that regex's opening unit. *)
Lemma scanBlocks_other (opening closing c : N) (r m : jsstr) :
  (c =? opening)%N = false ->
  In m (scanBlocks opening closing 0 (c :: r)) -> (length m < length (c :: r))%nat.
Proof.
  intros Hc. cbn [scanBlocks]. rewrite Hc. intros Hin.
  apply scanBlocks_bound in Hin. simpl. lia.
Qed.

Lemma insertByLength_In (x y : jsstr) (sorted : list jsstr) :
  In y (insertByLength x sorted) -> y = x \/ In y sorted.
Proof.
  induction sorted as [|z r IH]; simpl; [intuition |].
  destruct (_ <=? _)%nat; simpl; intuition.
Qed.

Lemma sortByLengthDesc_In (matches : list jsstr) (y : jsstr) :
  In y (sortByLengthDesc matches) -> In y matches.
Proof.
  induction matches as [|x r IH]; simpl; [tauto |].
  intros H. apply insertByLength_In in H. intuition.
Qed.

(** The strictly longest match comes first after the sort. *)
Lemma sortByLengthDesc_longest (before after : list jsstr) (t : jsstr) :
  (forall m, In m (before ++ after) -> (length m < length t)%nat) ->
  exists rest, sortByLengthDesc (before ++ t :: after) = t :: rest.
Proof.
  induction before as [|x before IH]; intros Hshort.
  - simpl. destruct (sortByLengthDesc after) as [|y r] eqn:E; [eauto |].
    assert (Hy : In y after)
      by (apply sortByLengthDesc_In; rewrite E; now left).
    apply Hshort in Hy. simpl.
    destruct (Nat.leb_spec (length y) (length t)); [eauto | lia].
  - destruct IH as [rest Hrest].
    { intros m Hm. apply Hshort. now right. }
    change (sortByLengthDesc ((x :: before) ++ t :: after))
      with (insertByLength x (sortByLengthDesc (before ++ t :: after))).
    rewrite Hrest. simpl.
    assert (Hx : (length x < length t)%nat) by (apply Hshort; now left).
    destruct (Nat.leb_spec (length t) (length x)); [lia | eauto].
Qed.

Lemma stripTrailingComma_id (closing : N) (s : jsstr) :
  hasTrailingComma closing s = false -> stripTrailingComma closing 0 s = s.
Proof.
  induction s as [|c r IH]; [reflexivity |].
  cbn [hasTrailingComma stripTrailingComma]. intros H.
  apply orb_false_iff in H as [Hhere Hrest]. rewrite (IH Hrest).
  destruct (c =? comma)%N; [|reflexivity]. simpl in Hhere.
  destruct (skipn (countLeading isWhite r) r) as [|d rest]; [reflexivity |].
  now rewrite Hhere.
Qed.

(** The extraction of a text that is, control characters apart, a flat
    and clean block: the block without the control characters. *)
Lemma extractJson_flat_block (opening closing : N) (text : jsstr) :
  (opening = lbracket /\ closing = rbracket) \/
  (opening = lbrace /\ closing = rbrace) ->
  flatBlock opening closing (withoutControls text) ->
  forallb isClean text = true ->
  hasTrailingComma rbracket (withoutControls text) = false ->
  hasTrailingComma rbrace (withoutControls text) = false ->
  extractJson text = Some (withoutControls text).
Proof.
  intros Hkind (body & Hshape & Hbody) Hclean Hc1 Hc2.
  destruct (isClean_classes text Hclean) as (H1 & H2 & H3 & H4).
  assert (Hcleaned : cleanGarbage text = withoutControls text).
  { unfold cleanGarbage. rewrite (removeAll_id isBOM) by exact H1.
    rewrite mangled_id by exact H2.
    rewrite (removeAll_id isZeroWidth) by (now apply forallb_removeAll).
    fold (withoutControls text). rewrite Hshape. apply trim_keep;
      destruct Hkind as [[-> ->] | [-> ->]]; reflexivity. }
  assert (Hticks : ~ In backtick (withoutControls text))
    by (intros Hin; apply H4; eapply removeAll_In; exact Hin).
  unfold extractJson. destruct text as [|c0 text0]; [discriminate |].
  rewrite Hcleaned, (unwrapFences_id _ Hticks).
  remember (withoutControls (c0 :: text0)) as t eqn:Ht. clear Ht.
  assert (Hsorted : exists rest,
             sortByLengthDesc
               (scanBlocks lbrace rbrace 0 t ++ scanBlocks lbracket rbracket 0 t)
             = t :: rest).
  { assert (Hown : scanBlocks opening closing 0 t = [t])
      by (rewrite Hshape; now apply scanBlocks_flat).
    destruct Hkind as [[-> ->] | [-> ->]]; rewrite Hown.
    - apply sortByLengthDesc_longest.
      intros m Hm. rewrite app_nil_r in Hm. rewrite Hshape in Hm |- *.
      now apply (scanBlocks_other lbrace rbrace lbracket) in Hm.
    - apply (sortByLengthDesc_longest []).
      intros m Hm. simpl in Hm. rewrite Hshape in Hm |- *.
      now apply (scanBlocks_other lbracket rbracket lbrace) in Hm. }
  destruct Hsorted as [rest ->].
  now rewrite (stripTrailingComma_id rbracket t Hc1),
              (stripTrailingComma_id rbrace t Hc2).
Qed.

End ExtractorFacts.

(** C3, counterexample: the non-greedy scan cuts a nested array at its
    first closing bracket, and a nested object at its first closing brace;
    what is extracted from well-formed JSON no longer parses. *)
Lemma extractJson_truncates_nested :
  Examples.parseJson (js "[[1],[2]]") = Some (JArr [JArr [JNum 1]; JArr [JNum 2]]) /\
  extractJson (js "[[1],[2]]") = Some (js "[[1]") /\
  Examples.parseJson (js "[[1]") = None /\
  Examples.parseJson (doubleQuoted (js "{'a':{'b':1}}"))
  = Some (JObj [(js "a", JObj [(js "b", JNum 1)])]) /\
  extractJson (doubleQuoted (js "{'a':{'b':1}}"))
  = Some (doubleQuoted (js "{'a':{'b':1}")) /\
  Examples.parseJson (doubleQuoted (js "{'a':{'b':1}")) = None.
Proof. repeat split; vm_compute; reflexivity. Qed.

(** C3 (amended): extraction returns a JSON array or object text with only
    its control characters (line breaks, tabs) removed, so that it parses
    back to the same structure, when the remaining text is flat, that is,
    its only closing bracket (for an array) or closing brace (for an
    object) is its last character, and when the text holds no byte-order
    mark, mangled-ellipsis or zero-width character, no backtick, and no
    comma followed, after optional white space, by a closing bracket or
    brace. *)
Theorem extractJson_idempotent_on_flat_json (text : jsstr) :
  flatBlock lbracket rbracket (withoutControls text)
  \/ flatBlock lbrace rbrace (withoutControls text) ->
  forallb isClean text = true ->
  hasTrailingComma rbracket (withoutControls text) = false ->
  hasTrailingComma rbrace (withoutControls text) = false ->
  extractJson text = Some (withoutControls text) /\
  (forallb (fun c => negb (isC0 c)) text = true -> extractJson text = Some text).
Proof.
  intros Hflat Hclean Hc1 Hc2.
  assert (Hext : extractJson text = Some (withoutControls text)).
  { destruct Hflat as [Hflat | Hflat].
    - apply (extractJson_flat_block lbracket rbracket); auto.
    - apply (extractJson_flat_block lbrace rbrace); auto. }
  split; [exact Hext |].
  intros Hplain. rewrite Hext. unfold withoutControls.
  now rewrite removeAll_id.
Qed.

Lemma extractJson_idempotent_on_flat_json_witness :
  extractJson (doubleQuoted (js "[{'id':'TC_001','body':{'n':1}}," ++ [10%N]
                                 ++ js " {'id':'TC_002'}]"))
  = Some (doubleQuoted (js "[{'id':'TC_001','body':{'n':1}}, {'id':'TC_002'}]")).
Proof.
  apply extractJson_idempotent_on_flat_json; try reflexivity.
  left.
  exists (doubleQuoted (js "{'id':'TC_001','body':{'n':1}}, {'id':'TC_002'}")).
  split; [reflexivity |]. vm_compute. intuition discriminate.
Defined.

(** ** Examples of runs *)



Lemma executeSingleTest_default_expected_witness :
  let r := fst (executeSingleTest (B := Examples.builtins) Examples.deadTarget
                  (Examples.getCase (js "TC_001") (js "/users") StatusNull None)
                  (Some (js "http://x.com")) 3 Examples.freshAjv) in
  rr_expected r = [200] /\ rr_status r = ERROR.
Proof.
  destruct (executeSingleTest_default_expected (B := Examples.builtins)
              Examples.deadTarget
              (Examples.getCase (js "TC_001") (js "/users") StatusNull None)
              (Some (js "http://x.com")) 3 Examples.freshAjv (or_intror eq_refl))
    as (Hexp & _ & Hrej & _).
  split; [exact Hexp |].
  exact (Hrej (js "http://x.com/users") _ _ _ eq_refl eq_refl).
Defined.

Lemma runTestSuite_summary_partition_witness :
  let out := Examples.outputOf Examples.runTenAtOnce in
  sum_total (out_summary out) = 12%nat /\
  sum_total (out_summary out)
  = (sum_passed (out_summary out) + sum_failed (out_summary out)
     + sum_errors (out_summary out))%nat /\
  sum_passed (out_summary out) = countVerdict PASSED (out_results out).
Proof.
  destruct (runTestSuite_summary_partition (B := Examples.builtins)
              (Examples.staticTarget 200 JNull) Examples.suite None (Some 10)
              defaultOptions Examples.freshAjv (batchSchedule 10 12)
              (Examples.outputOf Examples.runTenAtOnce))
    as (_ & _ & Htotal & Hsum & Hpassed & _).
  - vm_compute. reflexivity.
  - split; [exact Htotal | split; [exact Hsum | exact Hpassed]].
Defined.




Lemma runTestSuite_suggestions_witness :
  Forall2 suggestionFor
    (List.filter needsSuggestion (out_results (Examples.outputOf Examples.runOneByOne)))
    (out_suggestions (Examples.outputOf Examples.runOneByOne)) /\
  map sg_recommendedExpected (out_suggestions (Examples.outputOf Examples.runOneByOne))
  = [[200; 201]; [200; 201]; [200; 201]].
Proof.
  split; [|reflexivity].
  apply (runTestSuite_suggestions (B := Examples.builtins)
           (Examples.staticTarget 200 JNull) Examples.suite None (Some 1)
           defaultOptions Examples.freshAjv (sequentialSchedule 12)
           (Examples.outputOf Examples.runOneByOne)).
  vm_compute. reflexivity.
Defined.

(** ** generateTestCases: the cache *)

Section CacheFacts.
Context {B : Builtins}.
Variable http : nat -> AxiosConfig -> Transport.
Variable model : nat -> jsstr -> ModelReply.
Variable elapse : nat -> Z.

(** The cache key depends on the method, the endpoint and the headers
    only. *)
Lemma cacheKeyOf_fingerprint (spec spec' : EndpointSpec) :
  spec_method spec = spec_method spec' ->
  spec_endpoint spec = spec_endpoint spec' ->
  spec_headers spec = spec_headers spec' ->
  cacheKeyOf spec = cacheKeyOf spec'.
Proof.
  intros Hm He Hh. unfold cacheKeyOf, specHeaders. now rewrite Hm, He, Hh.
Qed.

Lemma cache_get_live (w : World) (key : jsstr) (data : GenData) (storedAt : Z) :
  w_cache w !! key = Some (cacheEntry data storedAt) ->
  w_now w <= storedAt + 300000 ->
  cache_get w key = Some data.
Proof.
  intros Hlookup Hnow. unfold cache_get. rewrite Hlookup. simpl.
  unfold stdTTL. destruct (Z.ltb_spec (storedAt + 300 * 1000) (w_now w)); [lia | reflexivity].
Qed.

Lemma generateTestCases_hit (spec : EndpointSpec) (w : World) (data : GenData) :
  cache_get w (cacheKeyOf spec) = Some data ->
  generateTestCases http model elapse spec w
  = ({| gr_data := data; gr_cached := true; gr_note := None |}, w).
Proof. intros Hget. unfold generateTestCases. now rewrite Hget. Qed.

(** C4: when an entry for the same method, endpoint and headers was stored
    no more than five minutes (300000 ms) ago, [generateTestCases] returns
    that entry tagged [cached: true] and leaves the world as it was: no
    request is sent to the target and the model is not called, whether or
    not the specification asks for probing. *)
Theorem generateTestCases_cache_hit
    (stored spec : EndpointSpec) (data : GenData) (storedAt : Z) (w : World) :
  spec_method spec = spec_method stored ->
  spec_endpoint spec = spec_endpoint stored ->
  spec_headers spec = spec_headers stored ->
  w_cache w !! cacheKeyOf stored = Some (cacheEntry data storedAt) ->
  w_now w <= storedAt + 300000 ->
  let '(result, w') := generateTestCases http model elapse spec w in
  gr_cached result = true /\
  gr_data result = data /\
  w_requests w' = w_requests w /\
  w_prompts w' = w_prompts w /\
  w' = w.
Proof.
  intros Hm He Hh Hlookup Hnow.
  rewrite <- (cacheKeyOf_fingerprint spec stored Hm He Hh) in Hlookup.
  rewrite (generateTestCases_hit spec w data (cache_get_live _ _ _ _ Hlookup Hnow)).
  repeat split.
Qed.

(** A generation that completes without falling back stores what it
    returns (secrets scrubbed) under the key of its specification, at the
    time it ends. *)
Lemma generateTestCases_stores (spec : EndpointSpec) (w w' : World) (result : GenResult) :
  generateTestCases http model elapse spec w = (result, w') ->
  gr_cached result = false -> gr_note result = None ->
  w_cache w' !! cacheKeyOf spec
  = Some (cacheEntry (safeToCache (gr_data result)) (w_now w')).
Proof.
  unfold generateTestCases.
  destruct (cache_get w (cacheKeyOf spec)) as [cached|].
  - intros Heq. injection Heq as <- <-. discriminate.
  - destruct (spec_autoProbe spec).
    + destruct (autoDetectOverridesAndAuth _ _ _ _) as [[[probe inferred] detected] w1].
      destruct (generateContent _ _ _ _) as [reply w2].
      destruct (assemble _ _ _ _ _) as [data | msg];
        intros Heq; injection Heq as <- <-; [|discriminate].
      intros _ _. simpl. apply lookup_insert_eq.
    + destruct (generateContent _ _ _ _) as [reply w2].
      destruct (assemble _ _ _ _ _) as [data | msg];
        intros Heq; injection Heq as <- <-; [|discriminate].
      intros _ _. simpl. apply lookup_insert_eq.
Qed.

(** X17: regeneration within the TTL window.  After a generation that
    completed, a call for a specification with the same method, endpoint
    and headers, made no later than five minutes after it, returns the
    stored data, cached, and performs no call. *)
Lemma regeneration_within_ttl
    (spec spec' : EndpointSpec) (w w1 w2 : World) (result : GenResult) :
  generateTestCases http model elapse spec w = (result, w1) ->
  gr_cached result = false -> gr_note result = None ->
  spec_method spec' = spec_method spec ->
  spec_endpoint spec' = spec_endpoint spec ->
  spec_headers spec' = spec_headers spec ->
  w_cache w2 = w_cache w1 -> w_now w2 <= w_now w1 + 300000 ->
  generateTestCases http model elapse spec' w2
  = ({| gr_data := safeToCache (gr_data result); gr_cached := true; gr_note := None |},
     w2).
Proof.
  intros Hgen Hc Hn Hm He Hh Hcache Hnow.
  apply generateTestCases_hit.
  rewrite (cacheKeyOf_fingerprint spec' spec Hm He Hh).
  eapply cache_get_live; [|exact Hnow].
  rewrite Hcache. eapply generateTestCases_stores; eauto.
Qed.

End CacheFacts.

(** ** generateTestCases: the sanitized path and the fallback path *)

Section GenerationFacts.
Context {B : Builtins}.

Lemma bindE_Ok {A C : Type} (e : Exc A) (k : A -> Exc C) (c : C) :
  bindE e k = Ok c -> exists a, e = Ok a /\ k a = Ok c.
Proof. destruct e as [a | m]; simpl; [eauto | discriminate]. Qed.

Lemma filterE_kept {A : Type} (keep : A -> Exc bool) (items kept : list A) :
  filterE keep items = Ok kept -> Forall (fun x => keep x = Ok true) kept.
Proof.
  revert kept. induction items as [|x r IH]; simpl; intros kept H.
  - injection H as <-. constructor.
  - apply bindE_Ok in H as (k & Hk & H). apply bindE_Ok in H as (rest & Hr & H).
    injection H as <-. specialize (IH _ Hr).
    destruct k; [constructor; assumption | assumption].
Qed.

Lemma refill_from_pool (P : json -> Prop) (pool : list json) :
  Forall P pool ->
  forall wanted seen extras,
    refill wanted seen pool = Ok extras -> Forall P extras.
Proof.
  induction 1 as [|candidate rest Hc _ IH]; intros wanted seen extras H.
  - simpl in H. injection H as <-. constructor.
  - simpl in H. destruct wanted as [|wanted'].
    + injection H as <-. constructor.
    + apply bindE_Ok in H as (sig & _ & H).
      destruct (existsb (str_eqb sig) seen).
      * eapply IH; eauto.
      * apply bindE_Ok in H as (more & Hmore & H). injection H as <-.
        constructor; [exact Hc | eapply IH; eauto].
Qed.

Lemma placeholders_notInvalid (spec : EndpointSpec) (have : nat) :
  Forall (fun tc => notInvalid tc = Ok true) (placeholders spec have).
Proof.
  unfold placeholders. apply List.Forall_forall. intros tc Hin.
  apply in_map_iff in Hin as (i & <- & _). reflexivity.
Qed.

Lemma placeholders_length (spec : EndpointSpec) (have : nat) :
  length (placeholders spec have) = (12 - have)%nat.
Proof. unfold placeholders. now rewrite length_map, length_seq. Qed.

(** The identifier and the category of a sanitized case. *)
Lemma sanitize_fields (spec : EndpointSpec) (i : nat) (tc c : json) :
  sanitize spec i tc = Ok c ->
  getOpt (Some c) (js "id") = Some (JStr (js "TC_" ++ padStart0 3 (natToString (S i)))) /\
  (notInvalid tc = Ok true ->
   getOpt (Some c) (js "category") <> Some (JStr (js "invalid"))).
Proof.
  unfold sanitize, notInvalid. intros H.
  apply bindE_Ok in H as (category & Hcat & H). rewrite Hcat.
  apply bindE_Ok in H as (description & _ & H).
  apply bindE_Ok in H as (req & _ & H).
  apply bindE_Ok in H as (expected & _ & H).
  apply bindE_Ok in H as (method & _ & H).
  injection H as <-. split; [reflexivity |].
  simpl. intros Hkeep Hinv. injection Hkeep as Hkeep. injection Hinv as Hinv.
  unfold orElse in *. destruct category as [x|].
  - destruct (truthy x).
    + subst x. vm_compute in Hkeep. discriminate.
    + vm_compute in Hinv. discriminate.
  - vm_compute in Hinv. discriminate.
Qed.

Lemma sanitizeAll_fields (spec : EndpointSpec) (cases : list json) :
  forall i out,
    sanitizeAll spec i cases = Ok out ->
    length out = length cases /\
    map (fun c => getOpt (Some c) (js "id")) out
    = map (fun k => Some (JStr (js "TC_" ++ padStart0 3 (natToString (S k)))))
          (seq i (length cases)) /\
    (Forall (fun tc => notInvalid tc = Ok true) cases ->
     Forall (fun c => getOpt (Some c) (js "category") <> Some (JStr (js "invalid"))) out).
Proof.
  induction cases as [|tc rest IH]; intros i out H; simpl in H.
  - injection H as <-. repeat split; constructor.
  - apply bindE_Ok in H as (c & Hc & H). apply bindE_Ok in H as (cs & Hcs & H).
    injection H as <-. destruct (IH _ _ Hcs) as (Hlen & Hids & Hcats).
    destruct (sanitize_fields _ _ _ _ Hc) as (Hid & Hcat).
    split; [simpl; now rewrite Hlen | split].
    + cbn [map seq length]. now rewrite Hid, Hids.
    + intros Hall. inversion Hall as [|? ? Hk Hrest]; subst.
      constructor; [now apply Hcat | now apply Hcats].
Qed.

(** When the body of the [try] completes, the data holds exactly twelve
    cases, numbered [TC_001] to [TC_012] in order, none of category
    [invalid]. *)
Lemma assemble_sanitized (spec : EndpointSpec) (probeResults : list (jsstr * json))
    (inferred : Overrides) (detected : Detected) (reply : ModelReply) (data : GenData) :
  assemble spec probeResults inferred detected reply = Ok data ->
  length (gd_testCases data) = 12%nat /\
  map (fun c => getOpt (Some c) (js "id")) (gd_testCases data)
  = map (fun k => Some (JStr (js "TC_" ++ padStart0 3 (natToString (S k))))) (seq 0 12) /\
  Forall (fun c => getOpt (Some c) (js "category") <> Some (JStr (js "invalid")))
         (gd_testCases data).
Proof.
  unfold assemble. destruct reply as [responseText | message]; [|discriminate].
  set (rawList1 := if (_ <? 12)%nat then _ else _).
  intros H.
  apply bindE_Ok in H as (rawList2 & _ & H).
  apply bindE_Ok in H as (rawList3 & H3 & H).
  apply bindE_Ok in H as (rawList4 & H4 & H).
  apply bindE_Ok in H as (sanitized & Hs & H).
  injection H as <-. simpl.
  assert (Hkept3 : Forall (fun tc => notInvalid tc = Ok true) rawList3)
    by (eapply filterE_kept; eauto).
  assert (Hkept4 : Forall (fun tc => notInvalid tc = Ok true) rawList4).
  { destruct (length rawList3 <? 12)%nat.
    - apply bindE_Ok in H4 as (pool & Hpool & H4).
      apply bindE_Ok in H4 as (existing & _ & H4).
      apply bindE_Ok in H4 as (extras & Hextras & H4).
      injection H4 as <-. apply Forall_app. split; [exact Hkept3 |].
      eapply refill_from_pool; [|exact Hextras].
      eapply filterE_kept; eauto.
    - now injection H4 as <-. }
  assert (Hkept5 : Forall (fun tc => notInvalid tc = Ok true)
                          (firstn 12 (rawList4 ++ placeholders spec (length rawList4)))).
  { apply Forall_take, Forall_app. split;
      [exact Hkept4 | apply placeholders_notInvalid]. }
  assert (Hlen5 : length (firstn 12 (rawList4 ++ placeholders spec (length rawList4)))
                  = 12%nat).
  { rewrite length_take, length_app, placeholders_length. lia. }
  destruct (sanitizeAll_fields _ _ _ _ Hs) as (Hlen & Hids & Hcats).
  rewrite Hlen5 in Hlen, Hids. auto.
Qed.

(** The categories of the fallback battery do not depend on the
    specification: seven of its twelve cases are [invalid]. *)
Lemma generateFallbackTestCases_categories (spec : EndpointSpec) (detected : Detected) :
  map (fun tc => getOpt (Some tc) (js "category"))
      (generateFallbackTestCases spec detected)
  = map (fun c => Some (JStr (js c)))
        ["valid"; "invalid"; "invalid"; "invalid"; "invalid"; "invalid";
         "boundary"; "security"; "invalid"; "invalid"; "valid"; "valid"].
Proof. reflexivity. Qed.

End GenerationFacts.

Section GenerationPaths.
Context {B : Builtins}.
Variable http : nat -> AxiosConfig -> Transport.
Variable model : nat -> jsstr -> ModelReply.
Variable elapse : nat -> Z.

(** A generation that neither hits the cache nor falls back returns the
    sanitized battery. *)
Lemma generateTestCases_sanitized (spec : EndpointSpec) (w w' : World)
    (result : GenResult) :
  generateTestCases http model elapse spec w = (result, w') ->
  gr_cached result = false -> gr_note result = None ->
  length (gd_testCases (gr_data result)) = 12%nat /\
  map (fun c => getOpt (Some c) (js "id")) (gd_testCases (gr_data result))
  = map (fun k => Some (JStr (js "TC_" ++ padStart0 3 (natToString (S k))))) (seq 0 12) /\
  Forall (fun c => getOpt (Some c) (js "category") <> Some (JStr (js "invalid")))
         (gd_testCases (gr_data result)).
Proof.
  unfold generateTestCases.
  destruct (cache_get w (cacheKeyOf spec)) as [cached|].
  - intros Heq. injection Heq as <- <-. discriminate.
  - destruct (spec_autoProbe spec).
    + destruct (autoDetectOverridesAndAuth _ _ _ _) as [[[probe inferred] detected] w1].
      destruct (generateContent _ _ _ _) as [reply w2].
      destruct (assemble _ _ _ _ _) as [data | msg] eqn:Hdata;
        intros Heq; injection Heq as <- <-; [|discriminate].
      intros _ _. simpl. eapply assemble_sanitized; eauto.
    + destruct (generateContent _ _ _ _) as [reply w2].
      destruct (assemble _ _ _ _ _) as [data | msg] eqn:Hdata;
        intros Heq; injection Heq as <- <-; [|discriminate].
      intros _ _. simpl. eapply assemble_sanitized; eauto.
Qed.

(** A generation that falls back returns the fallback battery as it is,
    its seven [invalid] cases included. *)
Lemma generateTestCases_fell_back (spec : EndpointSpec) (w w' : World)
    (result : GenResult) (note : jsstr) :
  generateTestCases http model elapse spec w = (result, w') ->
  gr_note result = Some note ->
  map (fun tc => getOpt (Some tc) (js "category")) (gd_testCases (gr_data result))
  = map (fun c => Some (JStr (js c)))
        ["valid"; "invalid"; "invalid"; "invalid"; "invalid"; "invalid";
         "boundary"; "security"; "invalid"; "invalid"; "valid"; "valid"].
Proof.
  unfold generateTestCases.
  destruct (cache_get w (cacheKeyOf spec)) as [cached|].
  - intros Heq. injection Heq as <- <-. discriminate.
  - destruct (spec_autoProbe spec).
    + destruct (autoDetectOverridesAndAuth _ _ _ _) as [[[probe inferred] detected] w1].
      destruct (generateContent _ _ _ _) as [reply w2].
      destruct (assemble _ _ _ _ _) as [data | msg] eqn:Hdata;
        intros Heq; injection Heq as <- <-; [discriminate |].
      intros _. apply generateFallbackTestCases_categories.
    + destruct (generateContent _ _ _ _) as [reply w2].
      destruct (assemble _ _ _ _ _) as [data | msg] eqn:Hdata;
        intros Heq; injection Heq as <- <-; [discriminate |].
      intros _. apply generateFallbackTestCases_categories.
Qed.

(** The model call failing is enough to fall back. *)
Lemma generateTestCases_model_failure (spec : EndpointSpec) (w : World) :
  cache_get w (cacheKeyOf spec) = None ->
  (forall n prompt, exists message, model n prompt = ModelThrows message) ->
  gr_note (fst (generateTestCases http model elapse spec w))
  = Some (js "Returned fallback due to generation error").
Proof.
  intros Hmiss Hdown. unfold generateTestCases. rewrite Hmiss.
  destruct (spec_autoProbe spec).
  - destruct (autoDetectOverridesAndAuth _ _ _ _) as [[[probe inferred] detected] w1].
    unfold generateContent.
    destruct (Hdown (callNumber w1) (promptFor spec)) as [message ->]. reflexivity.
  - unfold generateContent.
    destruct (Hdown (callNumber w) (promptFor spec)) as [message ->]. reflexivity.
Qed.

(** *** Probing *)

Lemma lookupField_setField_eq (k : jsstr) (x : json) (fields : list (jsstr * json)) :
  lookupField k (setField k x fields) = Some x.
Proof.
  induction fields as [|[k' x'] rest IH]; simpl.
  - now rewrite str_eqb_refl.
  - destruct (str_eqb k' k) eqn:E; simpl; rewrite E; [reflexivity | exact IH].
Qed.

Lemma lookupField_setField_present (k k2 : jsstr) (x : json)
    (fields : list (jsstr * json)) :
  (exists e, lookupField k fields = Some e) ->
  exists e, lookupField k (setField k2 x fields) = Some e.
Proof.
  induction fields as [|[k' x'] rest IH]; simpl; intros [e He]; [discriminate |].
  destruct (str_eqb k' k2) eqn:E2; simpl; destruct (str_eqb k' k) eqn:E; eauto.
Qed.

Lemma probeEachInOwnTry_keeps (method url : jsstr) (body : option json)
    (variants : list ProbeVariant) (k : jsstr) :
  forall results w,
    (exists e, lookupField k results = Some e) ->
    exists e,
      lookupField k
        (fst (probeEachInOwnTry http elapse method url body variants results w))
      = Some e.
Proof.
  induction variants as [|v rest IH]; intros results w Hk; simpl; [exact Hk |].
  apply IH. now apply lookupField_setField_present.
Qed.

(** In [probeAuthHeaderTypes] every variant is requested and gets its
    entry, whatever the outcome of the others. *)
Lemma probeEachInOwnTry_attempts_all (method url : jsstr) (body : option json)
    (variants : list ProbeVariant) :
  forall results w,
    w_requests (snd (probeEachInOwnTry http elapse method url body variants results w))
    = w_requests w ++ map (probeConfig method url body) variants /\
    Forall (fun v =>
              exists entry,
                lookupField (pv_name v)
                  (fst (probeEachInOwnTry http elapse method url body variants results w))
                = Some entry)
           variants.
Proof.
  induction variants as [|v rest IH]; intros results w; simpl.
  - split; [now rewrite app_nil_r | constructor].
  - match goal with
    | |- context [probeEachInOwnTry _ _ _ _ _ rest ?r ?w1] =>
        destruct (IH r w1) as (Hreq & Hall)
    end.
    split; [rewrite Hreq; simpl; now rewrite <- app_assoc |].
    constructor; [|exact Hall].
    apply probeEachInOwnTry_keeps. eexists. apply lookupField_setField_eq.
Qed.

(** In [probeEndpoint] the first rejected request ends the probing: its
    error is stored under [error] and no later variant is requested. *)
Lemma probeInOneTry_stops (method url : jsstr) (body : option json)
    (v : ProbeVariant) (rest : list ProbeVariant) (results : list (jsstr * json))
    (w : World) (name : jsstr) (code : option jsstr) (message : jsstr) :
  http (callNumber w) (probeConfig method url body v) = Rejected name code message ->
  let '(results', w') :=
    probeInOneTry http elapse method url body (v :: rest) results w in
  results' = setField (js "error") (JStr (errorString name message)) results /\
  w_requests w' = w_requests w ++ [probeConfig method url body v].
Proof. intros Hrej. simpl. rewrite Hrej. split; reflexivity. Qed.

End GenerationPaths.

(** ** Examples of generations *)

Lemma generateTestCases_cache_hit_witness :
  let '(result, w') :=
    generateTestCases (B := Examples.builtins) (Examples.answers 401)
      Examples.modelThreeCases Examples.instant (Examples.usersSpec true)
      (Examples.fourMinutesLater (snd Examples.firstGeneration)) in
  gr_cached result = true /\
  gr_data result = safeToCache (gr_data (fst Examples.firstGeneration)) /\
  w_requests w' = w_requests (Examples.fourMinutesLater (snd Examples.firstGeneration)) /\
  w_prompts w' = w_prompts (Examples.fourMinutesLater (snd Examples.firstGeneration)) /\
  w' = Examples.fourMinutesLater (snd Examples.firstGeneration).
Proof.
  apply (generateTestCases_cache_hit (B := Examples.builtins) (Examples.answers 401)
           Examples.modelThreeCases Examples.instant
           (Examples.usersSpec false) (Examples.usersSpec true)
           (safeToCache (gr_data (fst Examples.firstGeneration))) 1000
           (Examples.fourMinutesLater (snd Examples.firstGeneration))
           eq_refl eq_refl eq_refl).
  - vm_compute. reflexivity.
  - vm_compute. discriminate.
Defined.

(** C1, failing input: when the model call fails, or when the model's
    array holds a [null], the [catch] returns the fallback battery
    unfiltered: twelve cases numbered in order, seven of which are of
    category [invalid]. *)
Lemma generateTestCases_fallback_keeps_invalid :
  let down :=
    fst (generateTestCases (B := Examples.builtins) (Examples.answers 401)
           Examples.modelDown Examples.instant (Examples.usersSpec false)
           Examples.freshWorld) in
  let nullItem :=
    fst (generateTestCases (B := Examples.builtins) (Examples.answers 401)
           Examples.modelNullItem Examples.instant (Examples.usersSpec false)
           Examples.freshWorld) in
  gr_note down = Some (js "Returned fallback due to generation error") /\
  gr_cached down = false /\
  map (fun tc => getOpt (Some tc) (js "id")) (gd_testCases (gr_data down))
  = map (fun k => Some (JStr (js "TC_" ++ padStart0 3 (natToString (S k))))) (seq 0 12) /\
  map (fun tc => getOpt (Some tc) (js "category")) (gd_testCases (gr_data down))
  = map (fun c => Some (JStr (js c)))
        ["valid"; "invalid"; "invalid"; "invalid"; "invalid"; "invalid";
         "boundary"; "security"; "invalid"; "invalid"; "valid"; "valid"] /\
  gs_invalid (gd_summary (gr_data down)) = 7%nat /\
  gr_data nullItem = gr_data down.
Proof. vm_compute. repeat split. Qed.

(** C2, failing input: the first request of [probeEndpoint] times out.
    The error is stored under the key [error] of the whole result, not
    under [noAuth], and the [invalidAuth] and [rateLimit] requests are
    never sent; [probeAuthHeaderTypes], against the same target, requests
    all four of its variants and stores the error under the failed one. *)
Lemma probeEndpoint_first_failure_aborts :
  let '(results, w) :=
    probeEndpoint (B := Examples.builtins) Examples.firstRequestFails Examples.instant
      (Examples.usersSpec true) Examples.freshWorld in
  let '(styles, w') :=
    probeAuthHeaderTypes (B := Examples.builtins) Examples.firstRequestFails
      Examples.instant (Examples.usersSpec true) Examples.freshWorld in
  results = JObj [(js "error", JStr (js "AxiosError: timeout of 4000ms exceeded"))] /\
  length (w_requests w) = 1%nat /\
  map fst (fieldsOf styles)
  = [js "none"; js "authorization_wrong"; js "x_api_key_wrong"; js "X-API-KEY_wrong"] /\
  lookupField (js "none") (fieldsOf styles)
  = Some (JObj [(js "error", JStr (js "AxiosError: timeout of 4000ms exceeded"))]) /\
  length (w_requests w') = 4%nat.
Proof. vm_compute. repeat split. Qed.


(* ===================================================================== *)
(** * Further properties *)
(* ===================================================================== *)

(** ** The request the runner sends *)

Lemma lookupField_setField_other (k k2 : jsstr) (x : json)
    (fields : list (jsstr * json)) :
  str_eqb k2 k = false ->
  lookupField k (setField k2 x fields) = lookupField k fields.
Proof.
  intros Hne. induction fields as [|[k' x'] rest IH]; simpl.
  - now rewrite Hne.
  - destruct (str_eqb k' k2) eqn:E2; simpl.
    + apply str_eqb_eq in E2. subst k'. now rewrite Hne.
    + destruct (str_eqb k' k); [reflexivity | exact IH].
Qed.

Lemma find_keys_setField_found (p : jsstr -> bool) (k k2 : jsstr) (x : json)
    (fields : list (jsstr * json)) :
  find p (map fst fields) = Some k ->
  find p (map fst (setField k2 x fields)) = Some k.
Proof.
  induction fields as [|[k' x'] rest IH]; simpl; [discriminate |].
  destruct (str_eqb k' k2); simpl; destruct (p k'); auto.
Qed.

Lemma find_keys_setField_miss (p : jsstr -> bool) (k2 : jsstr) (x : json)
    (fields : list (jsstr * json)) :
  p k2 = false ->
  find p (map fst (setField k2 x fields)) = find p (map fst fields).
Proof.
  intros Hp. induction fields as [|[k' x'] rest IH]; simpl.
  - now rewrite Hp.
  - destruct (str_eqb k' k2); simpl; destruct (p k'); auto.
Qed.

Lemma find_keys_setField_hit (p : jsstr -> bool) (k2 : jsstr) (x : json)
    (fields : list (jsstr * json)) :
  p k2 = true ->
  exists k, find p (map fst (setField k2 x fields)) = Some k /\ p k = true.
Proof.
  intros Hp. induction fields as [|[k' x'] rest IH]; simpl.
  - rewrite Hp. eauto.
  - destruct (str_eqb k' k2) eqn:E; simpl.
    + apply str_eqb_eq in E. subst k'. rewrite Hp. eauto.
    + destruct (p k') eqn:Hk; eauto.
Qed.

Lemma findHeaderKey_Some (headers : list (jsstr * json)) (name k : jsstr) :
  findHeaderKey headers name = Some k -> toLowerCase k = toLowerCase name.
Proof.
  unfold findHeaderKey. intros H. apply find_some in H as [_ H].
  now apply str_eqb_eq in H.
Qed.

Lemma toLowerCase_nil (k : jsstr) : toLowerCase k = [] -> k = [].
Proof. destruct k; [reflexivity | discriminate]. Qed.

(** After [if (!findHeaderKey(headers, name)) headers[name] = value] a
    header of that name is there, and a header that was there is kept
    with its value. *)
Lemma defaultHeader_present (headers : list (jsstr * json)) (name value : jsstr) :
  name <> [] ->
  exists k, findHeaderKey (defaultHeader headers name value) name = Some k.
Proof.
  intros Hname. unfold defaultHeader.
  destruct (findHeaderKey headers name) as [k|] eqn:E.
  - pose proof (findHeaderKey_Some _ _ _ E) as Hk.
    destruct k as [|c k'].
    + symmetry in Hk. apply toLowerCase_nil in Hk. contradiction.
    + simpl. eauto.
  - simpl. unfold findHeaderKey.
    destruct (find_keys_setField_hit
                (fun k => str_eqb (toLowerCase k) (toLowerCase name))
                name (JStr value) headers (str_eqb_refl _)) as (k & Hk & _).
    eauto.
Qed.

Lemma defaultHeader_keeps_key (headers : list (jsstr * json))
    (name value other k : jsstr) :
  findHeaderKey headers other = Some k ->
  findHeaderKey (defaultHeader headers name value) other = Some k.
Proof.
  unfold defaultHeader. intros H. destruct (noKey _); [|exact H].
  unfold findHeaderKey in *. now apply find_keys_setField_found.
Qed.

Lemma defaultHeader_keeps_value (headers : list (jsstr * json))
    (name value k : jsstr) :
  str_eqb name k = false ->
  lookupField k (defaultHeader headers name value) = lookupField k headers.
Proof.
  unfold defaultHeader. intros H. destruct (noKey _); [|reflexivity].
  now apply lookupField_setField_other.
Qed.

Section RequestFacts.
Context {B : Builtins}.
Variable target : AxiosConfig -> Transport.

(** The branch taken on the method and the body: no payload and the
    headers as they are, or a payload and a default [Content-Type]. *)
Lemma prepareBody_cases (method : jsstr) (payload : option json)
    (headers : list (jsstr * json)) :
  prepareBody method payload headers = (None, headers) \/
  (method <> js "GET" /\ method <> js "HEAD" /\
   exists data value,
     prepareBody method payload headers
     = (Some data, defaultHeader headers (js "Content-Type") value) /\
     value <> []).
Proof.
  unfold prepareBody.
  destruct (str_eqb method (js "GET")) eqn:Eg; [left; reflexivity |].
  destruct (str_eqb method (js "HEAD")) eqn:Eh; [left; reflexivity |].
  apply str_eqb_neq in Eg, Eh. cbn [orb].
  assert (Hjson : js "application/json" <> []) by (vm_compute; discriminate).
  assert (Htext : js "text/plain" <> []) by (vm_compute; discriminate).
  destruct payload as [body|]; [|left; reflexivity].
  destruct body as [| b | n | | text | items | fields].
  - left; reflexivity.
  - right. split; [exact Eg | split; [exact Eh |]].
    eexists. eexists. split; [reflexivity | exact Hjson].
  - right. split; [exact Eg | split; [exact Eh |]].
    eexists. eexists. split; [reflexivity | exact Hjson].
  - right. split; [exact Eg | split; [exact Eh |]].
    eexists. eexists. split; [reflexivity | exact Hjson].
  - right. split; [exact Eg | split; [exact Eh |]].
    destruct (JSON_parse text).
    + eexists. eexists. split; [reflexivity | exact Hjson].
    + eexists. eexists. split; [reflexivity | exact Htext].
  - right. split; [exact Eg | split; [exact Eh |]].
    eexists. eexists. split; [reflexivity | exact Hjson].
  - right. split; [exact Eg | split; [exact Eh |]].
    eexists. eexists. split; [reflexivity | exact Hjson].
Qed.

Lemma requestFor_cases (test : TestCase) (fullUrl : jsstr) :
  let cfg := requestFor test fullUrl in
  let headers1 := defaultHeader (ownHeaders test) (js "User-Agent") defaultUserAgent in
  cfg_method cfg = toUpperCase (strOr (req_method (tc_request test)) (js "GET")) /\
  cfg_url cfg = fullUrl /\
  ((cfg_data cfg = None /\ cfg_headers cfg = headers1) \/
   (cfg_method cfg <> js "GET" /\ cfg_method cfg <> js "HEAD" /\
    exists data value,
      cfg_data cfg = Some data /\
      cfg_headers cfg = defaultHeader headers1 (js "Content-Type") value /\
      value <> [])).
Proof.
  unfold requestFor, ownHeaders, defaultUserAgent.
  destruct (prepareBody _ _ _) as [dataToSend headers] eqn:E.
  cbn [cfg_method cfg_url cfg_data cfg_headers].
  split; [reflexivity | split; [reflexivity |]].
  match type of E with
  | prepareBody ?m ?p ?h = _ =>
      destruct (prepareBody_cases m p h) as [H | (Hg & Hh & data & value & H & Hv)];
      rewrite E in H; injection H as -> ->
  end.
  - left. split; reflexivity.
  - right. split; [exact Hg | split; [exact Hh |]].
    exists data, value. repeat split. exact Hv.
Qed.

(** X1: every request the runner sends carries a [User-Agent] header.
    A header of that name given by the test case, in whatever letter case,
    is sent under its own key with its own value; otherwise the header
    [User-Agent] is added with the runner's default value. *)
Theorem requestFor_user_agent (test : TestCase) (fullUrl : jsstr) :
  let sent := cfg_headers (requestFor test fullUrl) in
  match findHeaderKey (ownHeaders test) (js "User-Agent") with
  | Some k =>
      findHeaderKey sent (js "User-Agent") = Some k /\
      lookupField k sent = lookupField k (ownHeaders test)
  | None =>
      lookupField (js "User-Agent") sent = Some (JStr defaultUserAgent)
  end.
Proof.
  destruct (requestFor_cases test fullUrl) as (_ & _ & Hcases). cbv zeta in *.
  destruct (findHeaderKey (ownHeaders test) (js "User-Agent")) as [k|] eqn:E.
  - pose proof (findHeaderKey_Some _ _ _ E) as Hk.
    assert (Hsame : defaultHeader (ownHeaders test) (js "User-Agent") defaultUserAgent
                    = ownHeaders test).
    { unfold defaultHeader. rewrite E. destruct k; [discriminate | reflexivity]. }
    assert (Hct : str_eqb (js "Content-Type") k = false).
    { apply str_eqb_neq. intros <-. vm_compute in Hk. discriminate. }
    rewrite Hsame in Hcases.
    destruct Hcases as [(_ & ->) | (_ & _ & data & value & _ & -> & _)].
    + split; [exact E | reflexivity].
    + split; [now apply defaultHeader_keeps_key |
              now apply defaultHeader_keeps_value].
  - assert (Hadded : defaultHeader (ownHeaders test) (js "User-Agent") defaultUserAgent
                     = setField (js "User-Agent") (JStr defaultUserAgent)
                         (ownHeaders test)).
    { unfold defaultHeader. now rewrite E. }
    rewrite Hadded in Hcases.
    destruct Hcases as [(_ & ->) | (_ & _ & data & value & _ & -> & _)].
    + apply lookupField_setField_eq.
    + rewrite defaultHeader_keeps_value by reflexivity.
      apply lookupField_setField_eq.
Qed.

(** X2: a GET or HEAD request never carries a payload, whatever body the
    test case holds, and gets no [Content-Type] of the runner's; a request
    that does carry a payload always has a [Content-Type] header. *)
Theorem requestFor_payload_rules (test : TestCase) (fullUrl : jsstr) :
  let cfg := requestFor test fullUrl in
  (cfg_method cfg = js "GET" \/ cfg_method cfg = js "HEAD" ->
   cfg_data cfg = None /\
   cfg_headers cfg
   = defaultHeader (ownHeaders test) (js "User-Agent") defaultUserAgent) /\
  (cfg_data cfg <> None ->
   exists k, findHeaderKey (cfg_headers cfg) (js "Content-Type") = Some k).
Proof.
  destruct (requestFor_cases test fullUrl) as (_ & _ & Hcases). cbv zeta in *.
  split.
  - intros Hm.
    destruct Hcases as [(Hd & Hh) | (Hg & Hh & _)]; [auto | tauto].
  - intros Hd.
    destruct Hcases as [(Hn & _) | (_ & _ & data & value & _ & -> & _)];
      [contradiction |].
    apply defaultHeader_present. discriminate.
Qed.

End RequestFacts.

(** ** The fields of a result *)

Section ResultFacts.
Context {B : Builtins}.
Variable target : AxiosConfig -> Transport.


Lemma checkSchema_errors (test : TestCase) (data : json) (ajv ajv' : Ajv)
    (errors : option json) :
  checkSchema test data ajv = ((false, errors), ajv') -> errors <> None.
Proof.
  unfold checkSchema.
  destruct (tc_expected_response test) as [e|]; [|discriminate].
  destruct (exp_schema e) as [schema|]; [|discriminate].
  destruct (truthy schema); [|discriminate].
  destruct (ajv_compile ajv schema) as [[validate | m] a];
    [destruct (validate data) |]; congruence.
Qed.

(** X4: the fields of a result go together.  A result is an ERROR exactly
    when it has no observed response, and exactly when it has an error
    message; a PASSED result has no schema errors; a FAILED result is
    explained: its observed status is not among the expected ones, or it
    carries the schema errors. *)
Theorem executeSingleTest_verdict_fields (test : TestCase) (baseUrl : option jsstr)
    (elapsed : nat) (ajv : Ajv) :
  let r := fst (executeSingleTest target test baseUrl elapsed ajv) in
  (rr_status r = ERROR <-> rr_actual r = None) /\
  (rr_status r = ERROR <-> rr_error r <> None) /\
  (rr_status r = PASSED -> rr_schemaValidation r = None) /\
  (rr_status r = FAILED ->
   (exists actual, rr_actual r = Some actual /\
                   ~ In (act_status actual) (rr_expected r))
   \/ rr_schemaValidation r <> None).
Proof.
  destruct statuses_distinct as (Hpf & Hpe & Hfe).
  unfold executeSingleTest.
  destruct (resolveTestUrl _ _) as [url | message].
  - cbv zeta. destruct (target _) as [response | name code msg].
    + destruct (checkSchema test (resp_data response) ajv) as [[ok errors] ajv'] eqn:Hs.
      cbn [fst rr_status rr_actual rr_error rr_schemaValidation rr_expected act_status].
      destruct (includesStatus _ (resp_status response)) eqn:Hinc;
        destruct ok; cbn [andb];
        (split; [split; intros; congruence |]);
        (split; [split; intros; congruence |]);
        (split; [intros; congruence |]); intros Hfailed.
      * congruence.
      * right. eapply checkSchema_errors; eauto.
      * left. eexists. split; [reflexivity |].
        intros Hin. apply includesStatus_In in Hin. cbn [act_status] in Hin.
        congruence.
      * left. eexists. split; [reflexivity |].
        intros Hin. apply includesStatus_In in Hin. cbn [act_status] in Hin.
        congruence.
    + cbn [fst rr_status rr_actual rr_error rr_schemaValidation].
      repeat split; intros; congruence.
  - cbn [fst rr_status rr_actual rr_error rr_schemaValidation].
    repeat split; intros; congruence.
Qed.


End ResultFacts.

(** ** Runs without surprises *)

Section CleanRunFacts.
Context {B : Builtins}.
Variable target : AxiosConfig -> Transport.
Variable testCases : list TestCase.
Variable targetUrl : option jsstr.

Lemma filter_length_all {A : Type} (p : A -> bool) (l : list A) :
  length (List.filter p l) = length l -> Forall (fun x => p x = true) l.
Proof.
  induction l as [|x l IH]; simpl; intros H; [constructor |].
  destruct (p x) eqn:E; simpl in H.
  - constructor; [exact E | apply IH; lia].
  - pose proof (List.filter_length_le p l). lia.
Qed.

Lemma suggestions_cons (r : RunResult) (rs : list RunResult) :
  suggestExpectedStatusUpdates (r :: rs)
  = suggestExpectedStatusUpdates [r] ++ suggestExpectedStatusUpdates rs.
Proof.
  unfold suggestExpectedStatusUpdates. cbn [flat_map]. now rewrite app_nil_r.
Qed.

Lemma passed_no_suggestion (tc : TestCase) (r : RunResult) :
  resultOf target targetUrl tc r -> rr_status r = PASSED ->
  suggestExpectedStatusUpdates [r] = [].
Proof.
  intros (elapsed & ajv & ->) Hpassed.
  unfold suggestExpectedStatusUpdates. cbn [flat_map app].
  destruct (rr_actual _) as [actual|] eqn:Hactual; [|reflexivity].
  rewrite (executeSingleTest_passed_expected target _ _ _ _ _ Hactual Hpassed).
  reflexivity.
Qed.

(** X6: a run in which every test case passed makes no suggestion and
    writes no file; and a file is written only with the suggestions of the
    run, when there are some and writing them was not disabled. *)
Theorem runTestSuite_clean_run concurrency opts ajv events out :
  runTestSuite target testCases targetUrl concurrency opts ajv events = Some (Ok out) ->
  (sum_passed (out_summary out) = sum_total (out_summary out) ->
   out_suggestions out = [] /\ out_written out = None) /\
  (forall file content,
      out_written out = Some (file, content) ->
      content = out_suggestions out /\ content <> [] /\
      opt_writeSuggestions opts <> Some false).
Proof.
  intros Hrun. apply runTestSuite_results in Hrun as [Hout Hall].
  rewrite Hout. cbn [report out_suggestions out_summary out_written summarize
                     sum_passed sum_total].
  split.
  - intros Hcount. apply filter_length_all in Hcount.
    assert (Hnone : suggestExpectedStatusUpdates (out_results out) = []).
    { clear Hout. induction Hall as [|tc r tcs rs Hr _ IH]; [reflexivity |].
      inversion Hcount as [|? ? Hword Hrest]; subst.
      rewrite suggestions_cons, (IH Hrest), app_nil_r.
      apply (passed_no_suggestion tc); [exact Hr |].
      destruct (hasWord_verdict r) as (_ & Hf & He).
      destruct (resultOf_trichotomy target targetUrl tc r Hr) as [Hp | [Hp | Hp]];
        [exact Hp | |].
      - destruct (Hf Hp) as (Hno & _). congruence.
      - destruct (He Hp) as (Hno & _). congruence. }
    rewrite Hnone. split; reflexivity.
  - intros file content.
    destruct (suggestExpectedStatusUpdates (out_results out)) as [|s rest];
      [discriminate |].
    destruct (opt_writeSuggestions opts) as [[|]|]; try discriminate;
      intros H; injection H as <- <-; repeat split; discriminate.
Qed.

End CleanRunFacts.

(** ** What a generation does to the world *)

Section GenerationEffects.
Context {B : Builtins}.
Variable http : nat -> AxiosConfig -> Transport.
Variable model : nat -> jsstr -> ModelReply.
Variable elapse : nat -> Z.

Lemma sendsOnly_refl (w : World) : sendsOnly w w [].
Proof. unfold sendsOnly. now rewrite app_nil_r. Qed.

Lemma sendsOnly_trans (w1 w2 w3 : World) (s1 s2 : list AxiosConfig) :
  sendsOnly w1 w2 s1 -> sendsOnly w2 w3 s2 -> sendsOnly w1 w3 (s1 ++ s2).
Proof.
  unfold sendsOnly. intros (Hc1 & Hp1 & Hr1) (Hc2 & Hp2 & Hr2).
  rewrite Hc2, Hc1, Hp2, Hp1, Hr2, Hr1, app_assoc. auto.
Qed.

Lemma request_sendsOnly (cfg : AxiosConfig) (w : World) :
  sendsOnly w (snd (request http elapse cfg w)) [cfg].
Proof. unfold sendsOnly, request. simpl. auto. Qed.

Lemma probeInOneTry_sendsOnly (method url : jsstr) (body : option json)
    (variants : list ProbeVariant) :
  forall results w,
    exists sent,
      sendsOnly w (snd (probeInOneTry http elapse method url body variants results w))
        sent /\
      (length sent <= length variants)%nat /\
      Forall (fun cfg => In cfg (map (probeConfig method url body) variants)) sent.
Proof.
  induction variants as [|v rest IH]; intros results w.
  - exists []. split; [apply sendsOnly_refl | split; [simpl; lia | constructor]].
  - cbn [probeInOneTry].
    pose proof (request_sendsOnly (probeConfig method url body v) w) as Hfirst.
    destruct (request http elapse (probeConfig method url body v) w) as [answer w1].
    cbn [snd] in Hfirst. destruct answer as [r | name code message].
    + destruct (IH (setField (pv_name v) (probeOutcome method url body v r) results) w1)
        as (sent & Hsent & Hlen & Hall).
      exists (probeConfig method url body v :: sent). split; [|split].
      * apply (sendsOnly_trans _ _ _ [_] sent Hfirst Hsent).
      * simpl. lia.
      * constructor; [now left |].
        eapply List.Forall_impl; [|exact Hall]. intros cfg Hin. now right.
    + exists [probeConfig method url body v]. split; [exact Hfirst | split].
      * simpl. lia.
      * constructor; [now left | constructor].
Qed.

Lemma probeEachInOwnTry_sendsOnly (method url : jsstr) (body : option json)
    (variants : list ProbeVariant) :
  forall results w,
    sendsOnly w (snd (probeEachInOwnTry http elapse method url body variants results w))
      (map (probeConfig method url body) variants).
Proof.
  induction variants as [|v rest IH]; intros results w.
  - apply sendsOnly_refl.
  - cbn [probeEachInOwnTry map].
    pose proof (request_sendsOnly (probeConfig method url body v) w) as Hfirst.
    destruct (request http elapse (probeConfig method url body v) w) as [answer w1].
    cbn [snd] in Hfirst.
    apply (sendsOnly_trans _ _ _ [_] _ Hfirst). apply IH.
Qed.

Lemma probeConfig_isProbeOf (spec : EndpointSpec) (url : jsstr) (v : ProbeVariant)
    (cfg : AxiosConfig) (variants : list ProbeVariant) :
  In cfg (map (probeConfig (toUpperCase (strOr (spec_method spec) (js "GET"))) url
                 (spec_body spec)) variants) ->
  isProbeOf spec cfg.
Proof.
  intros Hin. apply in_map_iff in Hin as (v' & <- & _). repeat split.
Qed.

Lemma probeEndpoint_sendsOnly (spec : EndpointSpec) (w : World) :
  exists sent,
    sendsOnly w (snd (probeEndpoint http elapse spec w)) sent /\
    (length sent <= 5)%nat /\ Forall (isProbeOf spec) sent.
Proof.
  unfold probeEndpoint.
  destruct (present (spec_endpoint spec)) as [endpoint|];
    [|exists []; split; [apply sendsOnly_refl | split; [simpl; lia | constructor]]].
  destruct (resolveTestUrl endpoint (probeBase spec)) as [url | message];
    [|exists []; split; [apply sendsOnly_refl | split; [simpl; lia | constructor]]].
  match goal with
  | |- context [probeInOneTry _ _ ?m ?u ?b ?vs ?rs ?w0] =>
      destruct (probeInOneTry_sendsOnly m u b vs rs w0) as (sent & Hsent & Hlen & Hall);
      destruct (probeInOneTry http elapse m u b vs rs w0) as [results w'];
      assert (Hvs : (length vs <= 5)%nat)
        by (destruct (present (spec_sampleValidToken spec));
            destruct (present (spec_sampleValidApiKey spec)); simpl; lia)
  end.
  exists sent. split; [exact Hsent | split; [lia |]].
  eapply List.Forall_impl; [|exact Hall].
  intros cfg Hin. now apply (probeConfig_isProbeOf spec url) in Hin.
Qed.

Lemma probeAuthHeaderTypes_sendsOnly (spec : EndpointSpec) (w : World) :
  exists sent,
    sendsOnly w (snd (probeAuthHeaderTypes http elapse spec w)) sent /\
    (length sent <= 6)%nat /\ Forall (isProbeOf spec) sent.
Proof.
  unfold probeAuthHeaderTypes.
  destruct (present (spec_endpoint spec)) as [endpoint|];
    [|exists []; split; [apply sendsOnly_refl | split; [simpl; lia | constructor]]].
  destruct (resolveTestUrl endpoint (probeBase spec)) as [url | message];
    [|exists []; split; [apply sendsOnly_refl | split; [simpl; lia | constructor]]].
  match goal with
  | |- context [probeEachInOwnTry _ _ ?m ?u ?b ?vs ?rs ?w0] =>
      pose proof (probeEachInOwnTry_sendsOnly m u b vs rs w0) as Hsent;
      destruct (probeEachInOwnTry http elapse m u b vs rs w0) as [results w'];
      assert (Hvs : (length vs <= 6)%nat)
        by (destruct (present (spec_sampleValidToken spec));
            destruct (present (spec_sampleValidApiKey spec)); simpl; lia);
      exists (map (probeConfig m u b) vs)
  end.
  split; [exact Hsent | split; [now rewrite length_map |]].
  apply List.Forall_forall. intros cfg Hin.
  now apply (probeConfig_isProbeOf spec url) in Hin.
Qed.

Lemma autoDetect_world (spec : EndpointSpec) (w : World) :
  snd (autoDetectOverridesAndAuth http elapse spec w)
  = snd (probeAuthHeaderTypes http elapse spec (snd (probeEndpoint http elapse spec w))).
Proof.
  unfold autoDetectOverridesAndAuth.
  destruct (probeEndpoint http elapse spec w) as [baseProbe w1]. cbn [snd].
  destruct (probeAuthHeaderTypes http elapse spec w1) as [headerVariants w2].
  match goal with
  | |- snd (let '(_, _) := ?M in _) = _ => destruct M
  end.
  reflexivity.
Qed.

Lemma autoDetect_sendsOnly (spec : EndpointSpec) (w : World) :
  exists sent,
    sendsOnly w (snd (autoDetectOverridesAndAuth http elapse spec w)) sent /\
    (length sent <= 11)%nat /\ Forall (isProbeOf spec) sent.
Proof.
  rewrite autoDetect_world.
  destruct (probeEndpoint_sendsOnly spec w) as (s1 & H1 & L1 & A1).
  destruct (probeAuthHeaderTypes_sendsOnly spec (snd (probeEndpoint http elapse spec w)))
    as (s2 & H2 & L2 & A2).
  exists (s1 ++ s2). split; [eapply sendsOnly_trans; eauto | split].
  - rewrite length_app. lia.
  - apply Forall_app. split; assumption.
Qed.

(** The course of a generation that misses the cache: the probe requests
    (none without [autoProbe]), one call to the model with the prompt of
    the specification, and the storing of what is returned unless the
    generation fell back. *)
Lemma generateTestCases_miss (spec : EndpointSpec) (w : World) :
  cache_get w (cacheKeyOf spec) = None ->
  exists w1 sent spec1 probeResults inferred detected,
    sendsOnly w w1 sent /\ (length sent <= 11)%nat /\
    Forall (isProbeOf spec) sent /\
    (spec_autoProbe spec = false -> sent = [] /\ spec1 = spec) /\
    spec_autoProbe spec1 = spec_autoProbe spec /\
    generateTestCases http model elapse spec w
    = let '(reply, w2) := generateContent model elapse (promptFor spec) w1 in
      match assemble spec1 probeResults inferred detected reply with
      | Ok data =>
          ({| gr_data := data; gr_cached := false; gr_note := None |},
           cache_set (cacheKeyOf spec) (safeToCache data) w2)
      | Throw _ =>
          let fallback := generateFallbackTestCases spec1 detected in
          ({| gr_data := {| gd_testCases := fallback;
                            gd_summary := summaryOf fallback;
                            gd_probeResults := None;
                            gd_inferred := None;
                            gd_detected := None |};
              gr_cached := false;
              gr_note := Some (js "Returned fallback due to generation error") |},
           w2)
      end.
Proof.
  intros Hmiss. unfold generateTestCases. rewrite Hmiss.
  destruct (spec_autoProbe spec) eqn:Hprobe.
  - destruct (autoDetect_sendsOnly (withTargetUrl spec (probeBase spec)) w)
      as (sent & Hsent & Hlen & Hall).
    destruct (autoDetectOverridesAndAuth http elapse
                (withTargetUrl spec (probeBase spec)) w)
      as [[[probe inferred] detected] w1].
    cbn [snd] in Hsent.
    exists w1, sent,
      (withOverrides spec
         (mergeOverrides
            (match spec_overrides spec with Some o => o | None => noOverrides end)
            inferred)),
      (fieldsOf probe), inferred, detected.
    split; [exact Hsent | split; [exact Hlen | split; [exact Hall |]]].
    split; [discriminate | split; [exact Hprobe | reflexivity]].
  - eexists w, [], spec, [], noOverrides, nothingDetected.
    split; [apply sendsOnly_refl | split; [simpl; lia | split; [constructor |]]].
    split; [auto | split; [exact Hprobe | reflexivity]].
Qed.

(** X7: what a generation costs.  Requests go to the target only for
    probing: none without [autoProbe], at most eleven with it, each with
    the method of the specification and a timeout of four seconds.  The
    model is called exactly once, with the prompt of the specification,
    unless the result comes from the cache, in which case nothing at all
    happens. *)
Theorem generateTestCases_calls (spec : EndpointSpec) (w : World) :
  let '(result, w') := generateTestCases http model elapse spec w in
  exists sent,
    w_requests w' = w_requests w ++ sent /\
    (length sent <= 11)%nat /\
    Forall (isProbeOf spec) sent /\
    (spec_autoProbe spec = false -> sent = []) /\
    (gr_cached result = true -> w' = w) /\
    (gr_cached result = false -> w_prompts w' = w_prompts w ++ [promptFor spec]).
Proof.
  destruct (cache_get w (cacheKeyOf spec)) as [cached|] eqn:Hget.
  - rewrite (generateTestCases_hit http model elapse spec w cached Hget).
    exists []. rewrite app_nil_r.
    repeat split; try reflexivity; try constructor; try discriminate. simpl; lia.
  - destruct (generateTestCases_miss spec w Hget)
      as (w1 & sent & spec1 & probeResults & inferred & detected
          & (Hc & Hp & Hr) & Hlen & Hall & Hoff & _ & ->).
    unfold generateContent.
    destruct (assemble _ _ _ _ _) as [data | message]; exists sent;
      cbn [cache_set w_requests w_prompts gr_cached];
      (split; [exact Hr |]); (split; [exact Hlen |]); (split; [exact Hall |]);
      (split; [intros Hno; now apply Hoff |]);
      (split; [discriminate |]); intros _; now rewrite Hp.
Qed.


End GenerationEffects.

(** ** cleanGarbage *)

Section CleaningFacts.

Lemma In_trimStart (c : N) (s : jsstr) : In c (trimStart s) -> In c s.
Proof.
  induction s as [|x r IH]; simpl; [tauto |].
  destruct (isWhite x); simpl; tauto.
Qed.

Lemma In_dropTrailing (p : N -> bool) (c : N) (s : jsstr) :
  In c (dropTrailing p s) -> In c s.
Proof.
  intros Hin. destruct (dropTrailing_split p s) as (t & Hs & _).
  rewrite Hs. apply in_or_app. now left.
Qed.

Lemma In_trim (c : N) (s : jsstr) : In c (trim s) -> In c s.
Proof. unfold trim. intros H. now apply In_dropTrailing, In_trimStart in H. Qed.

Lemma dropTrailing_idempotent (p : N -> bool) (s : jsstr) :
  dropTrailing p (dropTrailing p s) = dropTrailing p s.
Proof.
  induction s as [|c r IH]; [reflexivity |].
  cbn [dropTrailing]. destruct (dropTrailing p r) as [|x d] eqn:E.
  - destruct (p c) eqn:Pc; [reflexivity |]. cbn [dropTrailing]. now rewrite Pc.
  - change (dropTrailing p (c :: x :: d))
      with (match dropTrailing p (x :: d) with
            | [] => if p c then [] else [c]
            | r' => c :: r'
            end).
    now rewrite IH.
Qed.

Lemma trimStart_head (s : jsstr) :
  trimStart s = [] \/ exists c r, trimStart s = c :: r /\ isWhite c = false.
Proof.
  induction s as [|x r IH]; simpl; [now left |].
  destruct (isWhite x) eqn:E; [exact IH | right; eauto].
Qed.

Lemma dropTrailing_head (p : N -> bool) (c : N) (r : jsstr) :
  p c = false -> exists r', dropTrailing p (c :: r) = c :: r'.
Proof.
  intros Pc. cbn [dropTrailing]. destruct (dropTrailing p r); [|eauto].
  rewrite Pc. eauto.
Qed.

Lemma trim_idempotent (s : jsstr) : trim (trim s) = trim s.
Proof.
  unfold trim. destruct (trimStart_head s) as [-> | (c & r & -> & Hc)];
    [reflexivity |].
  destruct (dropTrailing_head isWhite c r Hc) as (r' & Hd). rewrite Hd.
  cbn [trimStart]. rewrite Hc. rewrite <- Hd. apply dropTrailing_idempotent.
Qed.

Lemma cleanGarbage_units (text : jsstr) (c : N) :
  In c (cleanGarbage text) -> garbageFree c = true.
Proof.
  unfold cleanGarbage, removeAll. intros Hin.
  apply In_trim in Hin.
  apply filter_In in Hin as (Hin & Hzero).
  apply filter_In in Hin as (Hin & Hcontrol).
  apply in_flat_map in Hin as (x & Hx & Hin).
  apply filter_In in Hx as (_ & Hbom).
  unfold garbageFree. destruct (isMangledEllipsis x) eqn:Hmangled.
  - destruct Hin as [<- | [<- | [<- | []]]]; reflexivity.
  - destruct Hin as [<- | []]. rewrite Hmangled.
    apply negb_true_iff in Hzero, Hcontrol, Hbom. now rewrite Hzero, Hcontrol, Hbom.
Qed.

(** X9: what [cleanGarbage] returns holds no byte-order mark, no unit of
    the mangled-ellipsis class, no C0 control character and no zero-width
    unit, and neither starts nor ends with white space; cleaning it again
    changes nothing. *)
Theorem cleanGarbage_idempotent (text : jsstr) :
  forallb garbageFree (cleanGarbage text) = true /\
  trim (cleanGarbage text) = cleanGarbage text /\
  cleanGarbage (cleanGarbage text) = cleanGarbage text.
Proof.
  assert (Hfree : forallb garbageFree (cleanGarbage text) = true)
    by (apply forallb_forall; intros c; apply cleanGarbage_units).
  assert (Htrim : trim (cleanGarbage text) = cleanGarbage text)
    by (unfold cleanGarbage at 1 2; apply trim_idempotent).
  split; [exact Hfree | split; [exact Htrim |]].
  assert (Hclass : forall class,
             (forall c, garbageFree c = true -> class c = false) ->
             forallb (fun c => negb (class c)) (cleanGarbage text) = true).
  { intros class Hclass. apply forallb_forall. intros c Hc.
    rewrite forallb_forall in Hfree. now rewrite (Hclass c (Hfree c Hc)). }
  unfold cleanGarbage at 1.
  rewrite (removeAll_id isBOM), mangled_id, (removeAll_id isC0),
    (removeAll_id isZeroWidth); [exact Htrim | | | |];
    apply Hclass; unfold garbageFree; intros c Hc;
    apply negb_true_iff in Hc; repeat (apply orb_false_iff in Hc as [Hc ?]);
    assumption.
Qed.

End CleaningFacts.

(** ** normalizeHeaders and scrubSecrets *)

Section HeaderFacts.
Context {B : Builtins}.

Lemma setField_keys (k : jsstr) (x : json) (fields : list (jsstr * json)) :
  (In k (map fst fields) /\ map fst (setField k x fields) = map fst fields) \/
  (~ In k (map fst fields) /\ setField k x fields = fields ++ [(k, x)]).
Proof.
  induction fields as [|[k' x'] rest IH]; simpl.
  - right. split; [tauto | reflexivity].
  - destruct (str_eqb k' k) eqn:E.
    + apply str_eqb_eq in E. subst k'. left. split; [now left | reflexivity].
    + apply str_eqb_neq in E.
      destruct IH as [(Hin & Hkeys) | (Hnin & Hset)].
      * left. split; [now right | simpl; now rewrite Hkeys].
      * right. split; [intros [? | ?]; contradiction | simpl; now rewrite Hset].
Qed.

Lemma NoDup_snoc {A : Type} (l : list A) (x : A) :
  List.NoDup l -> ~ In x l -> List.NoDup (l ++ [x]).
Proof.
  induction 1 as [|y l Hy Hl IH]; simpl; intros Hx.
  - constructor; [tauto | constructor].
  - constructor.
    + rewrite in_app_iff. simpl. intros [? | [? | []]]; [contradiction | subst; tauto].
    + apply IH. tauto.
Qed.

Lemma setField_string (k s : jsstr) (out : list (jsstr * json)) :
  Forall (fun kv => exists t, snd kv = JStr t) out /\ List.NoDup (map fst out) ->
  Forall (fun kv => exists t, snd kv = JStr t) (setField k (JStr s) out) /\
  List.NoDup (map fst (setField k (JStr s) out)).
Proof.
  intros (Hall & Hnodup). split.
  - clear Hnodup. induction Hall as [|[k' x'] rest Hx Hrest IH]; simpl.
    + constructor; [simpl; eauto | constructor].
    + destruct (str_eqb k' k); constructor; simpl; eauto.
  - destruct (setField_keys k (JStr s) out) as [(_ & ->) | (Hnin & ->)];
      [exact Hnodup |].
    rewrite map_app. simpl. now apply NoDup_snoc.
Qed.

(** The step of the loop of [normalizeHeaders]. *)
Lemma normalizeHeaders_fold (fields out : list (jsstr * json)) :
  Forall (fun kv => exists t, snd kv = JStr t) out /\ List.NoDup (map fst out) ->
  let result :=
    fold_left
      (fun out kv =>
         match snd kv with
         | JNull => out
         | JObj _ | JArr _ => setField (fst kv) (JStr (JSON_stringify (snd kv))) out
         | v => setField (fst kv) (JStr (js_String v)) out
         end)
      fields out in
  Forall (fun kv => exists t, snd kv = JStr t) result /\ List.NoDup (map fst result).
Proof.
  revert out. induction fields as [|[k x] rest IH]; intros out Hinv; [exact Hinv |].
  cbn [fold_left fst snd]. apply IH.
  destruct x; try exact Hinv; now apply setField_string.
Qed.

Lemma normalizeHeaders_fixed (fields out : list (jsstr * json)) :
  Forall (fun kv => exists t, snd kv = JStr t) fields ->
  List.NoDup (map fst (out ++ fields)) ->
  fold_left
    (fun out kv =>
       match snd kv with
       | JNull => out
       | JObj _ | JArr _ => setField (fst kv) (JStr (JSON_stringify (snd kv))) out
       | v => setField (fst kv) (JStr (js_String v)) out
       end)
    fields out
  = out ++ fields.
Proof.
  intros Hall. revert out. induction Hall as [|[k x] rest (t & Ht) _ IH];
    intros out Hnodup; [now rewrite app_nil_r |].
  simpl in Ht. subst x. cbn [fold_left fst snd js_String].
  destruct (setField_keys k (JStr t) out) as [(Hin & _) | (_ & ->)].
  - exfalso. rewrite map_app in Hnodup. simpl in Hnodup.
    apply List.NoDup_remove_2 in Hnodup. apply Hnodup.
    apply in_or_app. now left.
  - rewrite IH; [now rewrite <- app_assoc |].
    now rewrite <- app_assoc.
Qed.

(** X10: [normalizeHeaders] returns a plain header map: every value is a
    string, no key occurs twice, and normalizing the result again changes
    nothing. *)
Theorem normalizeHeaders_plain (value : option json) :
  Forall (fun kv => exists t, snd kv = JStr t) (normalizeHeaders value) /\
  List.NoDup (map fst (normalizeHeaders value)) /\
  normalizeHeaders (Some (JObj (normalizeHeaders value))) = normalizeHeaders value.
Proof.
  assert (Hinv : Forall (fun kv => exists t, snd kv = JStr t) (normalizeHeaders value) /\
                 List.NoDup (map fst (normalizeHeaders value))).
  { unfold normalizeHeaders.
    destruct value as [[| | | | | |fields]|];
      try (split; constructor).
    apply normalizeHeaders_fold. split; constructor. }
  destruct Hinv as (Hall & Hnodup). split; [exact Hall | split; [exact Hnodup |]].
  unfold normalizeHeaders at 1.
  now rewrite (normalizeHeaders_fixed _ [] Hall Hnodup).
Qed.

End HeaderFacts.

Section SecretFacts.







End SecretFacts.

(** ** Endpoints: validation.js and resolveUrl.js together *)

Section EndpointFacts.

Lemma startsWith_app (s t p : jsstr) :
  startsWith s p = true -> startsWith (s ++ t) p = true.
Proof.
  revert s. induction p as [|y p IH]; intros s; [reflexivity |].
  destruct s as [|x s]; simpl; [discriminate |].
  intros H. apply andb_true_iff in H as [-> H]. simpl. now apply IH.
Qed.

Lemma isAbsoluteHttp_app (s t : jsstr) :
  isAbsoluteHttp s = true -> isAbsoluteHttp (s ++ t) = true.
Proof.
  unfold isAbsoluteHttp, toLowerCase. rewrite map_app. intros H.
  apply orb_true_iff in H as [H | H]; apply (startsWith_app _ (map lowerUnit t)) in H;
    rewrite H; [reflexivity | apply orb_true_r].
Qed.

(** X12: resolving is idempotent when the base is itself an absolute URL
    after its trailing slashes are stripped: what [resolveTestUrl] returns
    is then an absolute URL, which [resolveTestUrl] returns unchanged
    whatever base it is given, or none. *)
Theorem resolveTestUrl_idempotent (endpoint base url : jsstr) (other : option jsstr) :
  isAbsoluteHttp (dropTrailing isSlash base) = true ->
  resolveTestUrl endpoint (Some base) = Ok url ->
  isAbsoluteHttp url = true /\ resolveTestUrl url other = Ok url.
Proof.
  intros Hbase Hurl.
  assert (Habs : isAbsoluteHttp url = true).
  { unfold resolveTestUrl in Hurl.
    destruct (isAbsoluteHttp endpoint) eqn:He; [congruence |].
    destruct base as [|c base']; [discriminate |].
    injection Hurl as <-. unfold joinUrl. now apply isAbsoluteHttp_app. }
  split; [exact Habs |]. unfold resolveTestUrl. now rewrite Habs.
Qed.

Lemma trimmed_slash (s : jsstr) :
  s <> [] -> trim s = s -> trim (js "/" ++ s) = js "/" ++ s.
Proof.
  intros Hne Htrim. unfold trim in *.
  change (js "/" ++ s) with (47%N :: s).
  change (trimStart (47%N :: s)) with (47%N :: s).
  assert (Hstart : trimStart s = s).
  { destruct (trimStart_head s) as [Hnil | (c & r & Hs & Hc)].
    - rewrite Hnil in Htrim. simpl in Htrim. congruence.
    - destruct (dropTrailing_head isWhite c r Hc) as (r' & Hd).
      rewrite Hs, Hd in Htrim. destruct s as [|x s']; [congruence |].
      injection Htrim as -> _. simpl. now rewrite Hc. }
  rewrite Hstart in Htrim. cbn [dropTrailing]. rewrite Htrim.
  destruct s; [congruence | reflexivity].
Qed.

Lemma trim_head (t : jsstr) :
  trim t = [] \/ exists c r, trim t = c :: r /\ isWhite c = false.
Proof.
  unfold trim. destruct (trimStart_head t) as [-> | (c & r & -> & Hc)];
    [now left |].
  destruct (dropTrailing_head isWhite c r Hc) as (r' & ->). right. eauto.
Qed.

(** The string [preprocessEndpoint] makes of a trimmed string. *)
Local Abbreviation slashed s :=
  (if isAbsoluteHttp s%list then s%list
   else if str_eqb s%list [] then s%list
   else if startsWith s%list (js "/") then s%list
   else js "/" ++ s).

Lemma preprocessEndpoint_string (val : json) :
  val <> JNull -> preprocessEndpoint val = JStr (slashed (trim (js_String val))).
Proof. destruct val; [congruence | reflexivity ..]. Qed.

(** What it returns is trimmed, is empty, absolute or starts with a
    slash, and is left as it is when it goes through the same steps again. *)
Lemma slashed_fixed (t : jsstr) :
  trim (slashed (trim t)) = slashed (trim t) /\
  (slashed (trim t) = [] \/ isAbsoluteHttp (slashed (trim t)) = true
   \/ startsWith (slashed (trim t)) (js "/") = true) /\
  slashed (slashed (trim t)) = slashed (trim t).
Proof.
  pose proof (trim_idempotent t) as Htrim.
  generalize dependent (trim t). intros s Htrim.
  destruct (isAbsoluteHttp s) eqn:Habs;
    [rewrite Habs; repeat split; auto |].
  destruct (str_eqb s []) eqn:Hempty.
  { apply str_eqb_eq in Hempty. rewrite Hempty. repeat split; auto. }
  destruct (startsWith s (js "/")) eqn:Hslash;
    [rewrite Habs, Hempty, Hslash; repeat split; auto |].
  apply str_eqb_neq in Hempty.
  split; [now apply trimmed_slash | split; [right; right; reflexivity |]].
  reflexivity.
Qed.

Lemma preprocessEndpoint_shape (val : json) (s : jsstr) :
  preprocessEndpoint val = JStr s ->
  trim s = s /\ (s = [] \/ isAbsoluteHttp s = true \/ startsWith s (js "/") = true).
Proof.
  intros H. assert (Hval : val <> JNull) by (intros ->; discriminate).
  rewrite (preprocessEndpoint_string val Hval) in H. injection H as <-.
  destruct (slashed_fixed (js_String val)) as (Htrim & Hshape & _).
  split; assumption.
Qed.

(** X13: [preprocessEndpoint] is idempotent, and what it returns for
    anything but [null] is a trimmed string that is empty, or an absolute
    URL, or starts with a slash. *)
Theorem preprocessEndpoint_idempotent (val : json) :
  preprocessEndpoint (preprocessEndpoint val) = preprocessEndpoint val /\
  (val = JNull /\ preprocessEndpoint val = JNull \/
   exists s, preprocessEndpoint val = JStr s /\ trim s = s /\
             (s = [] \/ isAbsoluteHttp s = true \/ startsWith s (js "/") = true)).
Proof.
  assert (Hcases : val = JNull \/ val <> JNull)
    by (destruct val; [left; reflexivity | right; discriminate ..]).
  destruct Hcases as [-> | Hval];
    [split; [reflexivity | left; split; reflexivity] |].
  rewrite (preprocessEndpoint_string val Hval).
  destruct (slashed_fixed (js_String val)) as (Htrim & Hshape & Hfixed).
  split.
  - rewrite preprocessEndpoint_string by discriminate.
    change (js_String (JStr (slashed (trim (js_String val)))))
      with (slashed (trim (js_String val))).
    rewrite Htrim. exact (f_equal JStr Hfixed).
  - right. eexists. split; [reflexivity | split; [exact Htrim | exact Hshape]].
Qed.

(** X14: an endpoint that went through [preprocessEndpoint] is resolved
    without a slash being added: against a base that is not empty, a
    preprocessed endpoint that is not empty is returned as it is when it is
    an absolute URL, and is otherwise put right after the base stripped of
    its trailing slashes. *)
Theorem preprocessEndpoint_resolves (val : json) (s base : jsstr) :
  preprocessEndpoint val = JStr s -> s <> [] -> base <> [] ->
  resolveTestUrl s (Some base)
  = Ok (if isAbsoluteHttp s then s else dropTrailing isSlash base ++ s).
Proof.
  intros Hpre Hs Hbase.
  destruct (preprocessEndpoint_shape val s Hpre) as (_ & Hshape).
  unfold resolveTestUrl, joinUrl.
  destruct (isAbsoluteHttp s) eqn:Habs; [reflexivity |].
  destruct Hshape as [-> | [Habs' | Hslash]]; [congruence | congruence |].
  rewrite Hslash. destruct base as [|c base']; [congruence | reflexivity].
Qed.

Lemma isLineTerminator_white (c : N) :
  isLineTerminator c = true -> isWhite c = true.
Proof.
  unfold isLineTerminator. intros H.
  repeat (apply orb_true_iff in H as [H | H]);
    apply N.eqb_eq in H; subst c; reflexivity.
Qed.

(** X15: a bare path such as [users/2] (after trimming: not empty, not an
    absolute URL, no leading slash) gets one slash in front from
    [preprocessEndpoint], and the result matches the pattern the schema
    requires of an endpoint. *)
Theorem preprocessEndpoint_bare_path (t : jsstr) :
  trim t <> [] -> isAbsoluteHttp (trim t) = false ->
  startsWith (trim t) (js "/") = false ->
  preprocessEndpoint (JStr t) = JStr (js "/" ++ trim t) /\
  endpointPattern (js "/" ++ trim t) = true.
Proof.
  intros Hne Habs Hslash. unfold preprocessEndpoint. cbn [js_String].
  apply str_eqb_neq in Hne. rewrite Habs, Hne, Hslash. split; [reflexivity |].
  destruct (trim_head t) as [Hnil | (c & r & Hs & Hc)].
  - apply str_eqb_neq in Hne. congruence.
  - rewrite Hs. change (js "/" ++ c :: r) with (47%N :: c :: r).
    unfold endpointPattern. cbn [isSlash slash someUnit].
    destruct (isLineTerminator c) eqn:Hlt;
      [apply isLineTerminator_white in Hlt; congruence | reflexivity].
Qed.

End EndpointFacts.

(** ** Twelve test cases *)

Section TwelveFacts.
Context {B : Builtins}.
Variable http : nat -> AxiosConfig -> Transport.
Variable model : nat -> jsstr -> ModelReply.
Variable elapse : nat -> Z.

Lemma generateFallbackTestCases_ids (spec : EndpointSpec) (detected : Detected) :
  map (fun tc => getOpt (Some tc) (js "id")) (generateFallbackTestCases spec detected)
  = map (fun k => Some (JStr (js "TC_" ++ padStart0 3 (natToString (S k))))) (seq 0 12).
Proof. reflexivity. Qed.

Lemma countCategory_none (name : string) (cases : list json) :
  Forall (fun c => getOpt (Some c) (js "category") <> Some (JStr (js name))) cases ->
  countCategory name cases = 0%nat.
Proof.
  unfold countCategory. induction 1 as [|c rest Hc _ IH]; [reflexivity |].
  cbn [List.filter].
  destruct (getOpt (Some c) (js "category")) as [[| | | | s | |]|] eqn:Hcat;
    cbn [strictEq]; try exact IH.
  destruct (str_eqb s (js name)) eqn:E; [|exact IH].
  exfalso. apply Hc. apply str_eqb_eq in E. now subst s.
Qed.

(** X16: a result that does not come from the cache holds exactly twelve
    test cases, numbered [TC_001] to [TC_012] in order, whether the
    generation completed or fell back; when it completed, no case is of
    category [invalid] and the summary counts none. *)
Theorem generateTestCases_twelve (spec : EndpointSpec) (w : World) :
  let result := fst (generateTestCases http model elapse spec w) in
  gr_cached result = false ->
  length (gd_testCases (gr_data result)) = 12%nat /\
  map (fun c => getOpt (Some c) (js "id")) (gd_testCases (gr_data result))
  = map (fun k => Some (JStr (js "TC_" ++ padStart0 3 (natToString (S k))))) (seq 0 12) /\
  gs_total (gd_summary (gr_data result)) = 12%nat /\
  (gr_note result = None ->
   Forall (fun c => getOpt (Some c) (js "category") <> Some (JStr (js "invalid")))
          (gd_testCases (gr_data result)) /\
   gs_invalid (gd_summary (gr_data result)) = 0%nat).
Proof.
  cbv zeta. destruct (cache_get w (cacheKeyOf spec)) as [cached|] eqn:Hget.
  - rewrite (generateTestCases_hit http model elapse spec w cached Hget). discriminate.
  - destruct (generateTestCases_miss http model elapse spec w Hget)
      as (w1 & sent & spec1 & probeResults & inferred & detected & _ & _ & _ & _ & _ & ->).
    destruct (generateContent model elapse (promptFor spec) w1) as [reply w2].
    destruct (assemble spec1 probeResults inferred detected reply) as [data | message]
      eqn:Hdata; cbn [fst gr_cached gr_data gr_note gd_testCases gd_summary]; intros _.
    + destruct (assemble_sanitized _ _ _ _ _ _ Hdata) as (Hlen & Hids & Hcats).
      assert (Hsum : gd_summary data = summaryOf (gd_testCases data)).
      { unfold assemble in Hdata. destruct reply as [text | m]; [|discriminate].
        repeat (apply bindE_Ok in Hdata as (? & _ & Hdata)).
        injection Hdata as <-. reflexivity. }
      split; [exact Hlen | split; [exact Hids |]]. rewrite Hsum.
      split; [exact Hlen |]. intros _. split; [exact Hcats |].
      now apply countCategory_none.
    + split; [reflexivity | split; [apply generateFallbackTestCases_ids |]].
      split; [reflexivity | discriminate].
Qed.

End TwelveFacts.

(** ** Examples of the further properties *)


Lemma runTestSuite_clean_run_witness :
  out_suggestions (Examples.outputOf Samples.cleanRun) = [] /\
  out_written (Examples.outputOf Samples.cleanRun) = None.
Proof.
  destruct (runTestSuite_clean_run (B := Examples.builtins)
              (Examples.staticTarget 200 JNull) Samples.cleanSuite
              (Some (js "http://x.com")) (Some 2) defaultOptions Examples.freshAjv
              [Launch 0; Launch 0; Settle 0 1; Settle 1 2]
              (Examples.outputOf Samples.cleanRun)
              ltac:(vm_compute; reflexivity)) as [Hclean _].
  apply Hclean. vm_compute. reflexivity.
Defined.

Lemma resolveTestUrl_idempotent_witness :
  isAbsoluteHttp (js "http://x.com/users") = true /\
  resolveTestUrl (js "http://x.com/users") None = Ok (js "http://x.com/users").
Proof.
  apply (resolveTestUrl_idempotent (js "/users") (js "http://x.com//")
           (js "http://x.com/users") None); vm_compute; reflexivity.
Defined.

Lemma preprocessEndpoint_resolves_witness :
  resolveTestUrl (js "/users/2") (Some (js "http://x.com//"))
  = Ok (js "http://x.com/users/2").
Proof.
  rewrite (preprocessEndpoint_resolves (JStr (js " users/2 ")) (js "/users/2")
             (js "http://x.com//"));
    vm_compute; first [reflexivity | discriminate].
Defined.

Lemma preprocessEndpoint_bare_path_witness :
  preprocessEndpoint (JStr (js " users/2 ")) = JStr (js "/" ++ trim (js " users/2 ")) /\
  endpointPattern (js "/" ++ trim (js " users/2 ")) = true.
Proof.
  apply preprocessEndpoint_bare_path; vm_compute; first [reflexivity | discriminate].
Defined.

Lemma generateTestCases_twelve_witness :
  length (gd_testCases (gr_data (fst Samples.probedGeneration))) = 12%nat /\
  gs_total (gd_summary (gr_data (fst Samples.probedGeneration))) = 12%nat /\
  gs_invalid (gd_summary (gr_data (fst Samples.probedGeneration))) = 0%nat.
Proof.
  destruct (generateTestCases_twelve (B := Examples.builtins) (Examples.answers 200)
              Examples.modelThreeCases Examples.instant (Examples.usersSpec true)
              Examples.freshWorld ltac:(vm_compute; reflexivity))
    as (Hlen & _ & Htotal & Hdone).
  destruct (Hdone ltac:(vm_compute; reflexivity)) as [_ Hinvalid].
  split; [exact Hlen | split; [exact Htotal | exact Hinvalid]].
Defined.

Lemma regeneration_within_ttl_witness :
  generateTestCases (B := Examples.builtins) (Examples.answers 200)
    Examples.modelThreeCases Examples.instant (Examples.usersSpec false)
    (snd Samples.probedGeneration)
  = ({| gr_data := safeToCache (gr_data (fst Samples.probedGeneration));
        gr_cached := true; gr_note := None |},
     snd Samples.probedGeneration).
Proof.
  apply (regeneration_within_ttl (B := Examples.builtins) (Examples.answers 200)
           Examples.modelThreeCases Examples.instant
           (Examples.usersSpec true) (Examples.usersSpec false)
           Examples.freshWorld (snd Samples.probedGeneration)
           (snd Samples.probedGeneration) (fst Samples.probedGeneration)).
  - unfold Samples.probedGeneration. apply surjective_pairing.
  - vm_compute. reflexivity.
  - vm_compute. reflexivity.
  - reflexivity.
  - reflexivity.
  - reflexivity.
  - reflexivity.
  - lia.
Defined.

Lemma runTestSuite_sequential_completes_witness :
  runTestSuite (B := Examples.builtins) (Examples.staticTarget 200 JNull)
    Samples.cleanSuite (Some (js "http://x.com")) (Some 3) defaultOptions
    Examples.freshAjv (sequentialSchedule (length Samples.cleanSuite))
  = Some (Ok (report (fst (runInOrder (B := Examples.builtins)
                             (Examples.staticTarget 200 JNull) Samples.cleanSuite
                             (Some (js "http://x.com")) 1 Examples.freshAjv))
                     (Some (js "http://x.com")) defaultOptions)).
Proof. apply runTestSuite_sequential_completes. lia. Defined.
